(** * dumpSTR: call-level and locus-level filtering of STR genotypes

    A shallow embedding of [scripts/dumpSTR/dumpSTR.py] and the properties of
    its filtering and accounting engine.

    Python values are modelled as they are at run time: integers as [Z],
    floats as IEEE 754 binary64 numbers ([PrimFloat.float]), strings as
    [string], dictionaries as [gmap]; a raised exception ends the run and is
    the [Raise] outcome of the [res] monad.

    PyVCF (the [vcf] package) and the repository's helper modules [filters],
    [utils] and [common] are not part of this file's subject: the record
    properties, helper functions and filter classes that [dumpSTR.py] calls
    are the fields of the class [Externals], and are assumed to be total and
    free of side effects. *)

From Stdlib Require Import ZArith Floats String Ascii.
From stdpp Require Import gmap strings list fin_maps pretty.

(** ** Exceptions *)

Inductive exn : Type :=
| KeyError
| AttributeError
| TypeError
| ValueError
| OverflowError
| SystemExit.

Inductive res (A : Type) : Type :=
| Ok (a : A)
| Raise (e : exn).

Arguments Ok {A} a.
Arguments Raise {A} e.

#[global] Instance res_ret : MRet res := fun A a => Ok a.
#[global] Instance res_bind : MBind res := fun A B f m =>
  match m with
  | Ok a => f a
  | Raise e => Raise e
  end.

Definition is_Ok {A} (m : res A) : Prop := ∃ a, m = Ok a.

(** ** Python values *)

Module Py.

(** The values that occur as call attributes and INFO entries. *)
#[warnings="-register-all"]
Inductive val : Type :=
| VNone
| VInt (z : Z)
| VFloat (f : float)
| VStr (s : string)
| VList (l : list val).

(** A number: what a counter or a running sum holds. *)
Inductive num : Type :=
| PInt (z : Z)
| PFloat (f : float).

Definition is_None (v : val) : bool :=
  match v with
  | VNone => true
  | _ => false
  end.

(** [float(z)] for a Python integer: correctly rounded (to nearest, ties
    to even); an integer too large for a double raises OverflowError. *)
Definition float_of_int (z : Z) : res float :=
  match binary_normalize 53 1024 z 0 false with
  | S754_infinity _ => Raise OverflowError
  | sf => Ok (SF2Prim sf)
  end.

(** [int(f)] for a Python float: truncation toward zero; an infinity
    raises OverflowError and a NaN raises ValueError. *)
Definition int_of_float (f : float) : res Z :=
  match Prim2SF f with
  | S754_zero _ => Ok 0%Z
  | S754_finite s m e =>
      let v := if (0 <=? e)%Z then (Z.pos m * 2 ^ e)%Z
               else Z.quot (Z.pos m) (2 ^ (- e)) in
      Ok (if s then (- v)%Z else v)
  | S754_infinity _ => Raise OverflowError
  | S754_nan => Raise ValueError
  end.

Definition int (x : num) : res Z :=
  match x with
  | PInt z => Ok z
  | PFloat f => int_of_float f
  end.

(** Binary arithmetic: two integers stay an integer; as soon as one
    operand is a float the other one is converted and the operation is
    the IEEE one. *)
Definition arith (iop : Z → Z → Z) (fop : float → float → float)
    (x y : num) : res num :=
  match x, y with
  | PInt a, PInt b => Ok (PInt (iop a b))
  | PInt a, PFloat g => f ← float_of_int a; Ok (PFloat (fop f g))
  | PFloat f, PInt b => g ← float_of_int b; Ok (PFloat (fop f g))
  | PFloat f, PFloat g => Ok (PFloat (fop f g))
  end.

Definition add : num → num → res num := arith Z.add PrimFloat.add.
Definition sub : num → num → res num := arith Z.sub PrimFloat.sub.
Definition mul : num → num → res num := arith Z.mul PrimFloat.mul.

(** [x / y] with a float operand (true division). *)
Definition fdiv (f : float) (y : num) : res float :=
  match y with
  | PInt b => g ← float_of_int b; Ok (PrimFloat.div f g)
  | PFloat g => Ok (PrimFloat.div f g)
  end.

(** [x + v] where [x] is a number and [v] any value. *)
Definition add_val (x : num) (v : val) : res num :=
  match v with
  | VInt z => add x (PInt z)
  | VFloat f => add x (PFloat f)
  | _ => Raise TypeError
  end.

(** The builtin [sum] over a list of floats: starts from the integer 0
    and adds from left to right, one IEEE addition per element. *)
Fixpoint sum_from (acc : num) (l : list float) : res num :=
  match l with
  | [] => Ok acc
  | f :: rest => acc' ← add acc (PFloat f); sum_from acc' rest
  end.

Definition sum (l : list float) : res num := sum_from (PInt 0) l.

Definition of_num (x : num) : val :=
  match x with
  | PInt z => VInt z
  | PFloat f => VFloat f
  end.

(** [s.split(sep)] for a one-character separator. *)
Fixpoint split (sep : ascii) (s : string) : list string :=
  match s with
  | EmptyString => [EmptyString]
  | String c rest =>
      if Ascii.eqb c sep then EmptyString :: split sep rest
      else match split sep rest with
           | [] => [String c EmptyString]
           | h :: t => String c h :: t
           end
  end.

(** [sub in s] for two strings: [sub] occurs in [s] as a substring. *)
Fixpoint contains (sub s : string) : bool :=
  if String.prefix sub s then true
  else match s with
       | EmptyString => false
       | String _ rest => contains sub rest
       end.

(** [sep.join(l)]. *)
Definition join (sep : string) (l : list string) : string :=
  String.concat sep l.

(** [d[k] += 1]-style update of a dictionary entry; a missing key raises
    KeyError. *)
Definition dict_get {V} (d : gmap string V) (k : string) : res V :=
  match d !! k with
  | Some v => Ok v
  | None => Raise KeyError
  end.

End Py.

Import Py.

(** ** Data model *)

(** A call: one sample's observation at one locus. [data] is the named
    tuple of the call's attributes, in the order of the record's FORMAT. *)
Record Call : Type := mkCall {
  sample : string;
  data : list (string * val)
}.

(** [sample[key]]: the attribute of that name; AttributeError when the call
    has none. *)
Fixpoint data_get (d : list (string * val)) (key : string) : res val :=
  match d with
  | [] => Raise AttributeError
  | (k, v) :: rest => if String.eqb k key then Ok v else data_get rest key
  end.

Definition call_get (c : Call) (key : string) : res val :=
  data_get (data c) key.

(** A locus record. [FORMAT] is the colon-separated string of attribute
    names, [FILTER] the locus-level status: [VNone] when unset, a list of
    filter names, or the string PASS. *)
Record VcfRecord : Type := mkRecord {
  CHROM : string;
  POS : Z;
  REF : string;
  ALT : list string;
  FILTER : val;
  INFO : gmap string val;
  FORMAT : string;
  samples : list Call
}.

Definition set_samples (r : VcfRecord) (l : list Call) : VcfRecord :=
  mkRecord (CHROM r) (POS r) (REF r) (ALT r) (FILTER r) (INFO r) (FORMAT r) l.

Definition set_FILTER (r : VcfRecord) (v : val) : VcfRecord :=
  mkRecord (CHROM r) (POS r) (REF r) (ALT r) v (INFO r) (FORMAT r) (samples r).

Definition set_INFO (r : VcfRecord) (key : string) (v : val) : VcfRecord :=
  mkRecord (CHROM r) (POS r) (REF r) (ALT r) (FILTER r)
    (<[key := v]> (INFO r)) (FORMAT r) (samples r).

(** [record.add_filter(flt)] of PyVCF. *)
Definition add_filter (r : VcfRecord) (flt : string) : res VcfRecord :=
  match FILTER r with
  | VNone => Ok (set_FILTER r (VList [VStr flt]))
  | VList l => Ok (set_FILTER r (VList (l ++ [VStr flt])))
  | _ => Raise AttributeError
  end.

(** A declaration of a call attribute in the header. *)
Record Format : Type := mkFormat {
  fmt_num : option Z;
  fmt_type : string
}.

(** The reader: the header's FORMAT declarations and sample names. *)
Record Reader : Type := mkReader {
  formats : gmap string Format;
  reader_samples : list string
}.

(** The named-tuple class built for the calls of one output record. *)
Record CallData : Type := mkCallData {
  _fields : list string;
  _types : list string;
  _nums : list (option Z)
}.

(** A call-level filter: calling it on a call gives [VNone] when the call
    passes; [GetReason] is the name of the reason it stands for. *)
Record CallFilter : Type := mkCallFilter {
  cf_call : Call → val;
  GetReason : string
}.

(** A locus-level filter: calling it on a record gives [VNone] when the
    locus passes. *)
Record LocusFilter : Type := mkLocusFilter {
  lf_call : VcfRecord → val;
  filter_name : string
}.

(** The command line. *)
Record Args : Type := mkArgs {
  min_call_DP : option Z;
  max_call_DP : option Z;
  min_call_Q : option float;
  max_call_flank_indel : option float;
  max_call_stutter : option float;
  min_locus_callrate : option float;
  min_locus_hwep : option float;
  min_locus_het : option float;
  max_locus_het : option float;
  use_length : bool;
  filter_regions : option string;
  filter_regions_names : option string;
  filter_hrun : bool;
  drop_filtered : bool;
  num_records : option Z
}.

(** What the script takes from PyVCF and from the repository's modules
    [utils] and [filters]. PyVCF derives [num_called], [aaf] and
    [heterozygosity] from the record's calls and alternate alleles. *)
Class Externals : Type := {
  num_called : list Call → Z;
  aaf : list string → list Call → list float;
  heterozygosity : list string → list Call → val;
  GetHomopolymerRun : string → val;
  GetLengthHet : VcfRecord → val;
  GetSTRHWE : VcfRecord → bool → val;
  LowCallDepth : Z → CallFilter;
  HighCallDepth : Z → CallFilter;
  LowCallQ : float → CallFilter;
  CallFlankIndels : float → CallFilter;
  CallStutter : float → CallFilter;
  Filter_MinLocusCallrate : float → LocusFilter;
  Filter_MinLocusHWEP : float → bool → LocusFilter;
  Filter_MinLocusHet : float → bool → LocusFilter;
  Filter_MaxLocusHet : float → bool → LocusFilter;
  Filter_LocusHrun : LocusFilter;
  create_region_filter : string → string → LocusFilter;
  GetAllCallFilters : list string
}.

(** The statistics the run accumulates, and the records written so far. *)
Record State : Type := mkState {
  sample_info : gmap string (gmap string num);
  loc_info : gmap string Z;
  outvcf : list VcfRecord
}.

(** ** The script *)

(** Modelled from the spec: [common.ERROR], of the module [common] that is
    not part of the sources at hand. A configuration error is fatal and
    terminates the program immediately. *)
Definition ERROR (cond : bool) : res unit :=
  if cond then Raise SystemExit else Ok tt.

Definition declared (invcf : Reader) (key : string) : bool :=
  match formats invcf !! key with
  | Some _ => true
  | None => false
  end.

Definition CheckFilters (invcf : Reader) (args : Args) : res unit :=
  _ ← match min_call_DP args with
      | Some lo =>
          _ ← ERROR (lo <? 0)%Z;
          ERROR (negb (declared invcf "DP"))
      | None => Ok tt
      end;
  _ ← match max_call_DP args with
      | Some hi =>
          _ ← ERROR (hi <? 0)%Z;
          _ ← ERROR (match min_call_DP args with
                     | Some lo => (hi <=? lo)%Z
                     | None => false
                     end);
          ERROR (negb (declared invcf "DP"))
      | None => Ok tt
      end;
  _ ← match min_call_Q args with
      | Some q =>
          _ ← ERROR ((q <? 0)%float || (1 <? q)%float);
          ERROR (negb (declared invcf "Q"))
      | None => Ok tt
      end;
  _ ← match max_call_flank_indel args with
      | Some x =>
          _ ← ERROR ((x <? 0)%float || (1 <? x)%float);
          ERROR (negb (declared invcf "DP")
                 || negb (declared invcf "DFLANKINDEL"))
      | None => Ok tt
      end;
  match max_call_stutter args with
  | Some x =>
      _ ← ERROR ((x <? 0)%float || (1 <? x)%float);
      ERROR (negb (declared invcf "DP") || negb (declared invcf "DSTUTTER"))
  | None => Ok tt
  end.

(** The per-locus log: the mean number of completed calls per passing
    locus, and one line per key of [loc_info] other than totalcalls. The
    order of the lines is the dictionary's and is not modelled. *)
Record LocLog : Type := mkLocLog {
  MeanSamplesPerPassingSTR : val;
  filter_lines : list (string * Z)
}.

Definition WriteLocLog (loc_info : gmap string Z) : res LocLog :=
  _ ← dict_get loc_info "totalcalls";
  let keys := delete "totalcalls" loc_info in
  pass ← dict_get loc_info "PASS";
  callrate ←
    (if (pass =? 0)%Z then Ok (VInt 0)
     else
       total ← dict_get loc_info "totalcalls";
       t ← mul (PInt total) (PFloat 1);
       match t with
       | PFloat tf => q ← fdiv tf (PInt pass); Ok (VFloat q)
       | PInt _ => Raise TypeError
       end);
  Ok (mkLocLog callrate (map_to_list keys)).

(** One row of the per-sample log. *)
Record SampRow : Type := mkSampRow {
  row_sample : string;
  row_numcalls : num;
  row_meanDP : val;
  row_reasons : list num
}.

Definition num_pos (x : num) : bool :=
  match x with
  | PInt z => (0 <? z)%Z
  | PFloat f => (0 <? f)%float
  end.

Definition samp_row (reasons : list string) (s : string)
    (info : gmap string num) : res SampRow :=
  numcalls ← dict_get info "numcalls";
  meancov ←
    (if num_pos numcalls then
       totaldp ← dict_get info "totaldp";
       t ← mul totaldp (PFloat 1);
       match t with
       | PFloat tf => q ← fdiv tf numcalls; Ok (VFloat q)
       | PInt _ => Raise TypeError
       end
     else Ok (VInt 0));
  counts ← mapM (dict_get info) reasons;
  Ok (mkSampRow s numcalls meancov counts).

Definition WriteSampLog (sample_info : gmap string (gmap string num))
    (reasons : list string) : res (list SampRow) :=
  mapM (λ '(s, info), samp_row reasons s info) (map_to_list sample_info).

Fixpoint FilterCall (sample : Call) (call_filters : list CallFilter)
    : list string :=
  match call_filters with
  | [] => []
  | cfilt :: rest =>
      if is_None (cf_call cfilt sample) then FilterCall sample rest
      else GetReason cfilt :: FilterCall sample rest
  end.

(** The named-tuple class of the output calls: the record's attributes,
    and FILTER after them unless the FORMAT string contains it. The type
    and number of every other attribute are looked up in the header. *)
Definition fields_of (record : VcfRecord) : list string :=
  if contains "FILTER" (FORMAT record) then split ":" (FORMAT record)
  else split ":" (FORMAT record) ++ ["FILTER"].

Fixpoint field_decls (reader : Reader) (record : VcfRecord)
    (fields : list string) : res (list string * list (option Z)) :=
  match fields with
  | [] => Ok ([], [])
  | fmt :: rest =>
      '(ty, n) ←
        (if String.eqb fmt "FILTER" && negb (contains "FILTER" (FORMAT record))
         then Ok ("String", Some 1%Z)
         else decl ← dict_get (formats reader) fmt;
              Ok (fmt_type decl, fmt_num decl));
      '(tys, ns) ← field_decls reader record rest;
      Ok (ty :: tys, n :: ns)
  end.

Definition make_samp_fmt (reader : Reader) (record : VcfRecord)
    : res CallData :=
  let fields := fields_of record in
  '(tys, ns) ← field_decls reader record fields;
  Ok (mkCallData fields tys ns).

Definition is_nocall (gt : val) : bool :=
  match gt with
  | VNone => true
  | VStr s => String.eqb s "./." || String.eqb s "."
  | _ => false
  end.

(** [sample_info[name][key] += v]. *)
Definition bump (sample_info : gmap string (gmap string num))
    (name key : string) (v : val) : res (gmap string (gmap string num)) :=
  info ← dict_get sample_info name;
  old ← dict_get info key;
  new ← add_val old v;
  Ok (<[name := <[key := new]> info]> sample_info).

Fixpoint bump_reasons (sample_info : gmap string (gmap string num))
    (name : string) (reasons : list string)
    : res (gmap string (gmap string num)) :=
  match reasons with
  | [] => Ok sample_info
  | r :: rest =>
      si ← bump sample_info name r (VInt 1);
      bump_reasons si name rest
  end.

(** The body of the loop over the calls of a record: the output call and
    the updated sample statistics. *)
Definition filter_sample (samp_fmt : CallData)
    (call_filters : list CallFilter)
    (sample_info : gmap string (gmap string num)) (smp : Call)
    : res (Call * gmap string (gmap string num)) :=
  gt ← call_get smp "GT";
  if is_nocall gt then
    sampdat ← mapM (λ key, if String.eqb key "FILTER" then Ok (VStr "NOCALL")
                           else call_get smp key) (_fields samp_fmt);
    Ok (mkCall (sample smp) (zip (_fields samp_fmt) sampdat), sample_info)
  else
    let filter_reasons := FilterCall smp call_filters in
    match filter_reasons with
    | _ :: _ =>
        si ← bump_reasons sample_info (sample smp) filter_reasons;
        let sampdat :=
          map (λ key, if String.eqb key "GT" then VStr "./."
                      else if String.eqb key "FILTER"
                           then VStr (join "," filter_reasons)
                           else VNone) (_fields samp_fmt) in
        Ok (mkCall (sample smp) (zip (_fields samp_fmt) sampdat), si)
    | [] =>
        si ← bump sample_info (sample smp) "numcalls" (VInt 1);
        dp ← call_get smp "DP";
        si ← bump si (sample smp) "totaldp" dp;
        sampdat ← mapM (λ key, if String.eqb key "FILTER" then Ok (VStr "PASS")
                               else call_get smp key) (_fields samp_fmt);
        Ok (mkCall (sample smp) (zip (_fields samp_fmt) sampdat), si)
    end.

Fixpoint filter_samples (samp_fmt : CallData)
    (call_filters : list CallFilter)
    (sample_info : gmap string (gmap string num)) (l : list Call)
    : res (list Call * gmap string (gmap string num)) :=
  match l with
  | [] => Ok ([], sample_info)
  | smp :: rest =>
      '(call, si) ← filter_sample samp_fmt call_filters sample_info smp;
      '(new_samples, si') ← filter_samples samp_fmt call_filters si rest;
      Ok (call :: new_samples, si')
  end.

Definition ApplyCallFilters (record : VcfRecord) (reader : Reader)
    (call_filters : list CallFilter)
    (sample_info : gmap string (gmap string num))
    : res (VcfRecord * gmap string (gmap string num)) :=
  samp_fmt ← make_samp_fmt reader record;
  '(new_samples, si) ←
    filter_samples samp_fmt call_filters sample_info (samples record);
  Ok (set_samples record new_samples, si).

Section Script.

Context `{Externals}.

Definition BuildCallFilters (args : Args) : list CallFilter :=
  let cdict := [] in
  let cdict := match min_call_DP args with
               | Some x => cdict ++ [LowCallDepth x]
               | None => cdict
               end in
  let cdict := match max_call_DP args with
               | Some x => cdict ++ [HighCallDepth x]
               | None => cdict
               end in
  let cdict := match min_call_Q args with
               | Some x => cdict ++ [LowCallQ x]
               | None => cdict
               end in
  let cdict := match max_call_flank_indel args with
               | Some x => cdict ++ [CallFlankIndels x]
               | None => cdict
               end in
  let cdict := match max_call_stutter args with
               | Some x => cdict ++ [CallStutter x]
               | None => cdict
               end in
  cdict.

(** The region filters: one per file, named by the user or numbered from
    0. Both lists have the same length when the filters are created. *)
Definition region_filters (args : Args) : res (list LocusFilter) :=
  match filter_regions args with
  | Some regions =>
      let filter_region_files := split "," regions in
      filter_region_names ←
        match filter_regions_names args with
        | Some names =>
            let filter_region_names := split "," names in
            _ ← ERROR (negb (length filter_region_names
                             =? length filter_region_files));
            Ok filter_region_names
        | None =>
            Ok (map (λ item : nat, pretty item)
                  (seq 0 (length filter_region_files)))
        end;
      Ok (zip_with create_region_filter filter_region_names
            filter_region_files)
  | None => Ok []
  end.

(** [--filter-hrun] is a flag: its value is a boolean and never [None], so
    the test [args.filter_hrun is not None] holds whatever the flag. *)
Definition BuildLocusFilters (args : Args) : res (list LocusFilter) :=
  let fdict := [] in
  let fdict := match min_locus_callrate args with
               | Some x => fdict ++ [Filter_MinLocusCallrate x]
               | None => fdict
               end in
  let fdict := match min_locus_hwep args with
               | Some x => fdict ++ [Filter_MinLocusHWEP x (use_length args)]
               | None => fdict
               end in
  let fdict := match min_locus_het args with
               | Some x => fdict ++ [Filter_MinLocusHet x (use_length args)]
               | None => fdict
               end in
  let fdict := match max_locus_het args with
               | Some x => fdict ++ [Filter_MaxLocusHet x (use_length args)]
               | None => fdict
               end in
  let fdict := match filter_hrun args with
               | true | false => fdict ++ [Filter_LocusHrun]
               end in
  regions ← region_filters args;
  Ok (fdict ++ regions).

(** The loop over the locus filters: whether the record is to be written,
    the record with the names of the failing filters added, and the fail
    counters. *)
Fixpoint locus_filters (drop : bool) (filter_list : list LocusFilter)
    (record : VcfRecord) (loc_info : gmap string Z)
    : res (bool * VcfRecord * gmap string Z) :=
  match filter_list with
  | [] => Ok (true, record, loc_info)
  | filt :: rest =>
      if is_None (lf_call filt record)
      then locus_filters drop rest record loc_info
      else if drop then Ok (false, record, loc_info)
      else
        record' ← add_filter record (filter_name filt);
        n ← dict_get loc_info (filter_name filt);
        locus_filters drop rest record'
          (<[filter_name filt := (n + 1)%Z]> loc_info)
  end.

(** [[int(item*(2*num_called)) for item in aaf]]. *)
Definition alt_allele_counts (freqs : list float) (n : Z) : res (list Z) :=
  mapM (λ item, p ← mul (PFloat item) (PInt (2 * n)); int p) freqs.

(** [int((1-sum(aaf))*(2*num_called))]. *)
Definition ref_allele_count (freqs : list float) (n : Z) : res Z :=
  s ← sum freqs;
  d ← sub (PInt 1) s;
  p ← mul d (PInt (2 * n));
  int p.

(** The recalculation of the locus-level INFO fields. *)
Definition recalculate_INFO (args : Args) (record : VcfRecord)
    : res VcfRecord :=
  let record := set_INFO record "HRUN" (GetHomopolymerRun (REF record)) in
  if (0 <? num_called (samples record))%Z then
    let record :=
      set_INFO record "HET"
        (if use_length args then GetLengthHet record
         else heterozygosity (ALT record) (samples record)) in
    let record :=
      set_INFO record "HWEP" (GetSTRHWE record (use_length args)) in
    ac ← alt_allele_counts (aaf (ALT record) (samples record))
           (num_called (samples record));
    let record := set_INFO record "AC" (VList (VInt <$> ac)) in
    refac ← ref_allele_count (aaf (ALT record) (samples record))
              (num_called (samples record));
    Ok (set_INFO record "REFAC" (VInt refac))
  else
    let record := set_INFO record "HET" (VInt (-1)) in
    let record := set_INFO record "HWEP" (VInt (-1)) in
    let record :=
      set_INFO record "AC" (VList (replicate (length (ALT record)) (VInt 0))) in
    Ok (set_INFO record "REFAC" (VInt 0)).

(** The recalculation of the locus-level FILTER and of the PASS counters. *)
Definition recalc_filter (args : Args) (record : VcfRecord)
    (loc_info : gmap string Z) : res (VcfRecord * gmap string Z) :=
  if is_None (FILTER record) && negb (drop_filtered args) then
    let record := set_FILTER record (VStr "PASS") in
    pass ← dict_get loc_info "PASS";
    let loc_info := <["PASS" := (pass + 1)%Z]> loc_info in
    total ← dict_get loc_info "totalcalls";
    Ok (record,
        <["totalcalls" := (total + num_called (samples record))%Z]> loc_info)
  else Ok (record, loc_info).

(** The body of the loop over the records. *)
Definition process_record (args : Args) (invcf : Reader)
    (filter_list : list LocusFilter) (call_filters : list CallFilter)
    (st : State) (record : VcfRecord) : res State :=
  '(record, si) ← ApplyCallFilters record invcf call_filters (sample_info st);
  let record := set_FILTER record VNone in
  '(output_record, record, li) ←
    locus_filters (drop_filtered args) filter_list record (loc_info st);
  if output_record : bool then
    record ← recalculate_INFO args record;
    '(record, li) ← recalc_filter args record li;
    Ok (mkState si li (outvcf st ++ [record]))
  else Ok (mkState si li (outvcf st)).

(** The loop over the records; [record_counter] is the number of records
    read before this one. *)
Fixpoint records_loop (args : Args) (invcf : Reader)
    (filter_list : list LocusFilter) (call_filters : list CallFilter)
    (record_counter : Z) (records : list VcfRecord) (st : State)
    : res State :=
  match records with
  | [] => Ok st
  | record :: rest =>
      let record_counter := (record_counter + 1)%Z in
      if match num_records args with
         | Some n => (n <? record_counter)%Z
         | None => false
         end
      then Ok st
      else
        st' ← process_record args invcf filter_list call_filters st record;
        records_loop args invcf filter_list call_filters record_counter
          rest st'
  end.

Definition init_sample_info (names reasons : list string)
    : gmap string (gmap string num) :=
  foldl (λ si s,
           <[s := foldl (λ d r, <[r := PInt 0]> d)
                    (<["totaldp" := PInt 0]> (<["numcalls" := PInt 0]> ∅))
                    reasons]> si)
    ∅ names.

Definition init_loc_info (filter_list : list LocusFilter) : gmap string Z :=
  foldl (λ li filt, <[filter_name filt := 0%Z]> li)
    (<["PASS" := 0%Z]> (<["totalcalls" := 0%Z]> ∅)) filter_list.

(** The header after [main] has added the call-level FILTER attribute. *)
Definition with_FILTER_format (invcf : Reader) : Reader :=
  if declared invcf "FILTER" then invcf
  else mkReader (<["FILTER" := mkFormat (Some 1%Z) "String"]> (formats invcf))
         (reader_samples invcf).

(** The whole run: the written records and the two logs. *)
Definition main (args : Args) (invcf : Reader) (records : list VcfRecord)
    : res (list VcfRecord * list SampRow * LocLog) :=
  _ ← CheckFilters invcf args;
  filter_list ← BuildLocusFilters args;
  let call_filters := BuildCallFilters args in
  let invcf := with_FILTER_format invcf in
  let all_reasons := GetAllCallFilters in
  let st := mkState (init_sample_info (reader_samples invcf) all_reasons)
              (init_loc_info filter_list) [] in
  st ← records_loop args invcf filter_list call_filters 0 records st;
  samplog ← WriteSampLog (sample_info st) all_reasons;
  loclog ← WriteLocLog (loc_info st);
  Ok (outvcf st, samplog, loclog).

End Script.

(** ** A concrete instance, to run the script on examples

    The theorems below hold for every instance of [Externals]. This
    instance makes them concrete: PyVCF's record properties are computed
    from the genotype strings; the call filters, the call-rate filter and
    the region filters are modelled from the spec; the filters on the
    Hardy-Weinberg test and on heterozygosity are stand-ins that never
    fail, and the homopolymer filter uses a threshold of its own. *)

Module Demo.

Definition to_float (z : Z) : float :=
  match float_of_int z with
  | Ok f => f
  | Raise _ => nan
  end.

Definition called (c : Call) : bool :=
  match call_get c "GT" with
  | Ok gt => negb (is_nocall gt)
  | Raise _ => false
  end.

Definition gt_alleles (c : Call) : list string :=
  match call_get c "GT" with
  | Ok (VStr s) => s' ← split "/" s; split "|" s'
  | _ => []
  end.

Definition count_allele (a : string) (l : list string) : Z :=
  Z.of_nat (length (filter (λ x, x = a) l)).

Definition demo_num_called (l : list Call) : Z :=
  Z.of_nat (length (filter (λ c, called c = true) l)).

Definition demo_aaf (alt : list string) (l : list Call) : list float :=
  let alleles := c ← filter (λ c, called c = true) l; gt_alleles c in
  let num_chroms := to_float (Z.of_nat (length alleles)) in
  map (λ i : nat, (to_float (count_allele (pretty i) alleles) / num_chroms)%float)
    (seq 1 (length alt)).

Definition demo_heterozygosity (alt : list string) (l : list Call) : val :=
  let freqs := demo_aaf alt l in
  let ref := (1 - foldl PrimFloat.add 0 freqs)%float in
  VFloat (1 - foldl (λ acc p, acc + p * p) (ref * ref) freqs)%float.

Fixpoint hrun_from (prev : ascii) (run best : Z) (s : string) : Z :=
  match s with
  | EmptyString => Z.max run best
  | String c rest =>
      if Ascii.eqb c prev then hrun_from c (run + 1) best rest
      else hrun_from c 1 (Z.max run best) rest
  end.

Definition demo_hrun (s : string) : Z :=
  match s with
  | EmptyString => 0
  | String c rest => hrun_from c 1 0 rest
  end.

Definition attr_float (c : Call) (key : string) : option float :=
  match call_get c key with
  | Ok (VInt z) => Some (to_float z)
  | Ok (VFloat f) => Some f
  | _ => None
  end.

(** Modelled from the spec: the call-level filters of the module
    [filters]. Each one compares an attribute of the call, or its ratio to
    the coverage depth, with a threshold, and returns [VNone] when the call
    passes. *)
Definition attr_below (key : string) (lo : float) (c : Call) : val :=
  match attr_float c key with
  | Some x => if (x <? lo)%float then VFloat x else VNone
  | None => VNone
  end.

Definition attr_above (key : string) (hi : float) (c : Call) : val :=
  match attr_float c key with
  | Some x => if (hi <? x)%float then VFloat x else VNone
  | None => VNone
  end.

Definition rate_above (key : string) (hi : float) (c : Call) : val :=
  match attr_float c key, attr_float c "DP" with
  | Some x, Some dp => if (hi <? x / dp)%float then VFloat (x / dp) else VNone
  | _, _ => VNone
  end.

(** Modelled from the spec: [filters.Filter_MinLocusCallrate], which
    fails a locus whose share of completed calls is below the minimum. *)
Definition callrate_filter (lo : float) : LocusFilter :=
  mkLocusFilter
    (λ r, let rate := (to_float (demo_num_called (samples r))
                       / to_float (Z.of_nat (length (samples r))))%float in
          if (rate <? lo)%float then VFloat rate else VNone)
    "MinLocusCallrate".

Definition never_fails (name : string) : LocusFilter :=
  mkLocusFilter (λ _, VNone) name.

Definition hrun_filter : LocusFilter :=
  mkLocusFilter
    (λ r, if (5 <? demo_hrun (REF r))%Z then VInt (demo_hrun (REF r))
          else VNone)
    "LongHomopolymerRun".

(** The intervals in the region files of the examples. *)
Definition bed (file : string) : list (string * Z * Z) :=
  if String.eqb file "segdup.bed" then [("chr1", 100, 200)%Z]
  else if String.eqb file "lowcomplexity.bed" then [("chr1", 150, 300)%Z]
  else [].

(** Modelled from the spec: [filters.create_region_filter], the filter
    that flags the loci overlapping an interval of its file. It goes by the
    name it is given: the user's, or the number of the file. *)
Definition region_filter (name file : string) : LocusFilter :=
  mkLocusFilter
    (λ r, if existsb (λ '(chrom, lo, hi),
                        String.eqb chrom (CHROM r)
                        && (lo <=? POS r)%Z && (POS r <=? hi)%Z) (bed file)
          then VStr name else VNone)
    name.

Definition ext : Externals := {|
  num_called := demo_num_called;
  aaf := demo_aaf;
  heterozygosity := demo_heterozygosity;
  GetHomopolymerRun := λ s, VInt (demo_hrun s);
  GetLengthHet := λ r, demo_heterozygosity (ALT r) (samples r);
  GetSTRHWE := λ _ _, VFloat 1;
  LowCallDepth := λ x, mkCallFilter (attr_below "DP" (to_float x)) "LowCallDepth";
  HighCallDepth := λ x, mkCallFilter (attr_above "DP" (to_float x)) "HighCallDepth";
  LowCallQ := λ x, mkCallFilter (attr_below "Q" x) "LowCallQuality";
  CallFlankIndels := λ x, mkCallFilter (rate_above "DFLANKINDEL" x) "HighFlankIndelRate";
  CallStutter := λ x, mkCallFilter (rate_above "DSTUTTER" x) "HighStutterRate";
  Filter_MinLocusCallrate := callrate_filter;
  Filter_MinLocusHWEP := λ _ _, never_fails "MinLocusHWEP";
  Filter_MinLocusHet := λ _ _, never_fails "MinLocusHet";
  Filter_MaxLocusHet := λ _ _, never_fails "MaxLocusHet";
  Filter_LocusHrun := hrun_filter;
  create_region_filter := region_filter;
  GetAllCallFilters := ["HighFlankIndelRate"; "HighStutterRate";
                        "HighCallDepth"; "LowCallDepth"; "LowCallQuality"]
|}.

End Demo.

(** ** Notions used to state the properties *)

(** A locus filter passes a record. *)
Definition passes (record : VcfRecord) (filt : LocusFilter) : bool :=
  is_None (lf_call filt record).

(** A call filter fires on a call. *)
Definition fires (smp : Call) (cfilt : CallFilter) : bool :=
  negb (is_None (cf_call cfilt smp)).

(** The call filters that fire on a call, in registration order. *)
Definition firing (smp : Call) (call_filters : list CallFilter)
    : list CallFilter :=
  filter (λ cfilt, fires smp cfilt = true) call_filters.

(** The locus-level status that holds the names [seen]. *)
Definition filter_status (seen : list string) : val :=
  match seen with
  | [] => VNone
  | _ => VList (VStr <$> seen)
  end.

(** The names of the locus filters that fail at a locus when all of them
    are evaluated in registration order, each one on the record as
    annotated with the names of the earlier failures. *)
Fixpoint failing_from (filter_list : list LocusFilter) (record : VcfRecord)
    (seen : list string) : list string :=
  match filter_list with
  | [] => []
  | filt :: rest =>
      if passes (set_FILTER record (filter_status seen)) filt
      then failing_from rest record seen
      else filter_name filt
           :: failing_from rest record (seen ++ [filter_name filt])
  end.

Definition failing (filter_list : list LocusFilter) (record : VcfRecord)
    : list string :=
  failing_from filter_list record [].

(** How often a name occurs in a list of names. *)
Definition occurrences (name : string) (names : list string) : Z :=
  Z.of_nat (length (filter (λ x, x = name) names)).

(** The records that the loop processes: all of them, or the first
    [num_records]. *)
Definition processed (args : Args) (records : list VcfRecord)
    : list VcfRecord :=
  match num_records args with
  | Some n => take (Z.to_nat n) records
  | None => records
  end.

(** The counters of the locus log exist: the two keys of the passing loci
    and one key per registered filter, as [main] sets them up. *)
Definition counters_exist (filter_list : list LocusFilter)
    (loc_info : gmap string Z) : Prop :=
  is_Some (loc_info !! "PASS") ∧ is_Some (loc_info !! "totalcalls") ∧
  ∀ filt, filt ∈ filter_list → is_Some (loc_info !! filter_name filt).

(** [x + 1] for a counter. *)
Definition incr (x : num) : num :=
  match x with
  | PInt z => PInt (z + 1)
  | PFloat f => PFloat (f + 1)
  end.

(** The call as the call-level stage writes it when a filter fires. *)
Definition cleared_data (fields reasons : list string)
    : list (string * val) :=
  zip fields
    (map (λ key, if String.eqb key "GT" then VStr "./."
                 else if String.eqb key "FILTER" then VStr (join "," reasons)
                      else VNone) fields).

(** The fail counters after the failures [names] have been counted. *)
Definition count_names (loc_info : gmap string Z) (names : list string)
    : gmap string Z :=
  foldl (λ d name, alter Z.succ name d) loc_info names.

(** The records that the loop processes when [c] records have been read
    before. *)
Definition processed_from (c : Z) (args : Args) (records : list VcfRecord)
    : list VcfRecord :=
  match num_records args with
  | Some n => take (Z.to_nat (n - c)) records
  | None => records
  end.

(** Among the loci as the call-level stage leaves them, those at which at
    least one locus filter fails. *)
Definition loci_with_failure (filter_list : list LocusFilter)
    (views : list VcfRecord) : nat :=
  length (filter (λ v, failing filter_list v ≠ []) views).


(** The accounting of a whole run: the PASS counter and the number of loci
    with a failing filter add up to the number of loci processed. The
    [views] are the loci as the call-level stage leaves them. *)
Definition pass_accounting `{Externals} (args : Args) (invcf : Reader)
    (filter_list : list LocusFilter) (call_filters : list CallFilter)
    (records : list VcfRecord) : Prop :=
  ∀ si0 st',
    records_loop args invcf filter_list call_filters 0 records
      (mkState si0 (init_loc_info filter_list) []) = Ok st' →
    ∃ views pass,
      Forall2 (λ record view, ∃ si si',
                 ApplyCallFilters record invcf call_filters si
                 = Ok (view, si'))
        (processed args records) views ∧
      loc_info st' !! "PASS" = Some pass ∧
      (pass + Z.of_nat (loci_with_failure filter_list views))%Z
      = Z.of_nat (length (processed args records)).

(** Modelled from the spec: [c] is the float [x] truncated toward zero. A
    finite float is [m * 2 ^ e] with the sign [s]; [c] has that sign or is 0,
    and its magnitude is the largest integer not above [m * 2 ^ e], that is
    [|c| <= m * 2 ^ e < |c| + 1], written without division by scaling both
    sides with [2 ^ (- e)] when [e] is negative. An infinity and a
    not-a-number have no truncation. *)
Definition truncated_toward_zero (x : float) (c : Z) : Prop :=
  match Prim2SF x with
  | S754_zero _ => c = 0%Z
  | S754_finite s m e =>
      (if s then c <= 0 else 0 <= c)%Z ∧
      (Z.abs c * 2 ^ Z.max 0 (- e) <= Z.pos m * 2 ^ Z.max 0 e
       < (Z.abs c + 1) * 2 ^ Z.max 0 (- e))%Z
  | _ => False
  end.

(** ** Further notions: configuration, call-level stage, output, logs *)

(** A configuration that [CheckFilters] accepts: every call-level
    threshold that is given is in range, and every attribute that its
    filter reads is declared in the header. The bounds on the floats are
    the comparisons of the source: a threshold that is not a number is
    neither below 0 nor above 1. *)
Definition valid_call_options (invcf : Reader) (args : Args) : Prop :=
  (∀ lo, min_call_DP args = Some lo →
         (0 <= lo)%Z ∧ declared invcf "DP" = true) ∧
  (∀ hi, max_call_DP args = Some hi →
         (0 <= hi)%Z ∧ declared invcf "DP" = true ∧
         ∀ lo, min_call_DP args = Some lo → (lo < hi)%Z) ∧
  (∀ q, min_call_Q args = Some q →
        (q <? 0)%float = false ∧ (1 <? q)%float = false ∧
        declared invcf "Q" = true) ∧
  (∀ x, max_call_flank_indel args = Some x →
        (x <? 0)%float = false ∧ (1 <? x)%float = false ∧
        declared invcf "DP" = true ∧ declared invcf "DFLANKINDEL" = true) ∧
  (∀ x, max_call_stutter args = Some x →
        (x <? 0)%float = false ∧ (1 <? x)%float = false ∧
        declared invcf "DP" = true ∧ declared invcf "DSTUTTER" = true).

(** The five classes of call filters stand for pairwise distinct reasons,
    whatever their thresholds. *)
Definition distinct_reasons `{Externals} : Prop :=
  ∀ a b c d e,
    NoDup [GetReason (LowCallDepth a); GetReason (HighCallDepth b);
           GetReason (LowCallQ c); GetReason (CallFlankIndels d);
           GetReason (CallStutter e)].

(** 1 when an option of the command line is given, 0 when it is not. *)
Definition given {A} (o : option A) : nat :=
  match o with
  | Some _ => 1
  | None => 0
  end.

(** The command line with the flag [--filter-hrun] set to [b]. *)
Definition set_filter_hrun (args : Args) (b : bool) : Args :=
  mkArgs (min_call_DP args) (max_call_DP args) (min_call_Q args)
    (max_call_flank_indel args) (max_call_stutter args)
    (min_locus_callrate args) (min_locus_hwep args) (min_locus_het args)
    (max_locus_het args) (use_length args) (filter_regions args)
    (filter_regions_names args) b (drop_filtered args) (num_records args).


(** The region files named on the command line. *)
Definition region_files (args : Args) : list string :=
  match filter_regions args with
  | Some regions => split "," regions
  | None => []
  end.

(** The name of the [i]-th region filter: the [i]-th name given, or the
    decimal numeral of [i] when no names are given. *)
Definition region_name (args : Args) (i : nat) : string :=
  match filter_regions_names args with
  | Some names => default "" (split "," names !! i)
  | None => pretty i
  end.

(** The counters of a sample at the start of the run. *)
Definition init_info (reasons : list string) : gmap string num :=
  foldl (λ d r, <[r := PInt 0]> d)
    (<["totaldp" := PInt 0]> (<["numcalls" := PInt 0]> ∅)) reasons.

(** The genotype of a call is missing. *)
Definition missing (smp : Call) : bool :=
  match call_get smp "GT" with
  | Ok gt => is_nocall gt
  | Raise _ => false
  end.

(** The status that the call-level stage gives a call: NOCALL for a
    missing genotype, PASS when no filter fires, and the reasons of the
    filters that fire, separated by commas, otherwise. *)
Definition status_of (call_filters : list CallFilter) (smp : Call) : string :=
  if missing smp then "NOCALL"
  else match firing smp call_filters with
       | [] => "PASS"
       | l => join "," (GetReason <$> l)
       end.

(** A completed call: its genotype is present and no call filter fires. *)
Definition completed (call_filters : list CallFilter) (smp : Call) : bool :=
  negb (missing smp) && bool_decide (firing smp call_filters = []).

(** A call on which a filter with the reason [r] fires. *)
Definition fired (call_filters : list CallFilter) (r : string) (smp : Call)
    : bool :=
  negb (missing smp)
  && bool_decide (r ∈ GetReason <$> firing smp call_filters).

(** The depth of a call when it is an integer. *)
Definition depth (smp : Call) : Z :=
  match call_get smp "DP" with
  | Ok (VInt d) => d
  | _ => 0
  end.

(** The calls of the sample [s] among [l] that satisfy [P]. *)
Definition calls_of (s : string) (P : Call → bool) (l : list Call)
    : list Call :=
  filter (λ c, sample c = s ∧ P c = true) l.

(** The sum of the depths of a list of calls. *)
Definition total_depth (l : list Call) : Z :=
  foldr (λ c acc, depth c + acc)%Z 0%Z l.

(** What one call adds to the counter [key] of its sample. *)
Definition contribution (call_filters : list CallFilter) (key : string)
    (smp : Call) : Z :=
  if decide (key = "numcalls")
  then (if completed call_filters smp then 1 else 0)
  else if decide (key = "totaldp")
       then (if completed call_filters smp then depth smp else 0)
       else (if fired call_filters key smp then 1 else 0).

(** What the calls of the sample [s] among [l] add to its counter [key]. *)
Definition contributions (call_filters : list CallFilter) (key s : string)
    (l : list Call) : Z :=
  foldr (λ c acc, (if decide (sample c = s)
                   then contribution call_filters key c else 0) + acc)%Z
    0%Z l.

(** The depth of every completed call of the sample is an integer. *)
Definition integer_depths (call_filters : list CallFilter) (s : string)
    (l : list Call) : Prop :=
  Forall (λ c, sample c = s → completed call_filters c = true →
               ∃ d, call_get c "DP" = Ok (VInt d)) l.

(** Every attribute that the FORMAT of the record names is declared in the
    header. *)
Definition schema_declared (reader : Reader) (record : VcfRecord) : Prop :=
  ∀ fmt, fmt ∈ split ":" (FORMAT record) → is_Some (formats reader !! fmt).

(** The call has a genotype and every attribute that the FORMAT of the
    record names, FILTER apart. *)
Definition readable (record : VcfRecord) (smp : Call) : Prop :=
  is_Ok (call_get smp "GT") ∧
  ∀ key, key ∈ split ":" (FORMAT record) → key ≠ "FILTER" →
         is_Ok (call_get smp key).

(** The counters of one sample can take the updates of the call-level
    stage: numcalls and the depth sum are integers, and every reason of a
    registered filter has a counter. *)
Definition counters_ready (call_filters : list CallFilter)
    (info : gmap string num) : Prop :=
  (∃ n, info !! "numcalls" = Some (PInt n)) ∧
  (∃ t, info !! "totaldp" = Some (PInt t)) ∧
  ∀ r, r ∈ GetReason <$> call_filters → is_Some (info !! r).

(** The statistics have ready counters in every entry. *)
Definition stats_ready (call_filters : list CallFilter)
    (si : gmap string (gmap string num)) : Prop :=
  ∀ s info, si !! s = Some info → counters_ready call_filters info.

(** The depth of the call is a number. *)
Definition numeric_depth (smp : Call) : bool :=
  match call_get smp "DP" with
  | Ok (VInt _) | Ok (VFloat _) => true
  | _ => false
  end.

(** The character [c] occurs in the string [s]. *)
Fixpoint occurs (c : ascii) (s : string) : bool :=
  match s with
  | EmptyString => false
  | String a rest => Ascii.eqb a c || occurs c rest
  end.

(** The keys of INFO that the script recalculates. *)
Definition recalculated : list string :=
  ["HRUN"; "HET"; "HWEP"; "AC"; "REFAC"].

(** Two records describe the same locus: chromosome, position, alleles and
    FORMAT are the same. *)
Definition same_locus (r w : VcfRecord) : Prop :=
  CHROM w = CHROM r ∧ POS w = POS r ∧ REF w = REF r ∧ ALT w = ALT r ∧
  FORMAT w = FORMAT r.

(** Every locus filter passes the locus as the call-level stage leaves it,
    its status unset. *)
Definition passes_all (filter_list : list LocusFilter) (view : VcfRecord)
    : bool :=
  forallb (passes (set_FILTER view VNone)) filter_list.

(** How often the name is counted over the loci [views]: once for every
    registered filter of that name that fails, at every locus. *)
Definition failures (filter_list : list LocusFilter) (name : string)
    (views : list VcfRecord) : Z :=
  foldr (λ v acc, occurrences name (failing filter_list v) + acc)%Z 0%Z views.

(** The number of completed calls at the loci among [views] at which no
    filter fails. *)
Definition passing_calls `{Externals} (filter_list : list LocusFilter)
    (views : list VcfRecord) : Z :=
  foldr (λ v acc, (if decide (failing filter_list v = [])
                   then num_called (samples v) else 0) + acc)%Z 0%Z views.

(** The number of loci among [views] at which no filter fails. *)
Definition passing_loci (filter_list : list LocusFilter)
    (views : list VcfRecord) : Z :=
  foldr (λ v acc, (if decide (failing filter_list v = []) then 1 else 0)
                  + acc)%Z 0%Z views.

(** ** Example inputs *)

Module Examples.

#[local] Existing Instance Demo.ext.

Definition no_args : Args :=
  mkArgs None None None None None None None None None false None None
    false false None.

(** A header that declares the genotype and the depth, for two samples. *)
Definition hdr : Reader :=
  mkReader (<["GT" := mkFormat (Some 1%Z) "String"]>
              (<["DP" := mkFormat (Some 1%Z) "Integer"]> ∅))
    ["s1"; "s2"].

Definition call (s gt : string) (dp : Z) : Call :=
  mkCall s [("GT", VStr gt); ("DP", VInt dp)].

Definition locus (pos : Z) (l : list Call) : VcfRecord :=
  mkRecord "chr1" pos "ACACAC" ["ACAC"] VNone ∅ "GT:DP" l.

(** Two calls of depth 5 and 20, and a minimum call depth of 10. *)
Definition args_min_DP : Args :=
  mkArgs (Some 10%Z) None None None None None None None None false None None
    false false None.

Definition locus_5_20 : VcfRecord :=
  locus 50 [call "s1" "0/1" 5; call "s2" "1/1" 20].

Definition fmt_GT_DP_FILTER : CallData :=
  mkCallData ["GT"; "DP"; "FILTER"] ["String"; "Integer"; "String"]
    [Some 1%Z; Some 1%Z; Some 1%Z].

Definition si0 : gmap string (gmap string num) :=
  init_sample_info ["s1"; "s2"] GetAllCallFilters.

Definition info0 : gmap string num :=
  foldl (λ d r, <[r := PInt 0]> d)
    (<["totaldp" := PInt 0]> (<["numcalls" := PInt 0]> ∅))
    GetAllCallFilters.

(** A record whose FORMAT has the attribute NFILTER, and none named
    FILTER: one call with a genotype, one without. *)
Definition hdr_NFILTER : Reader :=
  mkReader (<["NFILTER" := mkFormat (Some 1%Z) "String"]> (formats hdr))
    ["s1"; "s2"].

Definition locus_NFILTER : VcfRecord :=
  mkRecord "chr1" 50 "ACACAC" ["ACAC"] VNone ∅ "GT:DP:NFILTER"
    [mkCall "s1" [("GT", VStr "0/1"); ("DP", VInt 20); ("NFILTER", VStr "ok")];
     mkCall "s2" [("GT", VStr "./."); ("DP", VInt 0); ("NFILTER", VStr "ok")]].


Definition args_two_names : Args :=
  mkArgs None None None None None None None None None false
    (Some "segdup.bed,lowcomplexity.bed") (Some "SEGDUP,LOWCOMPLEXITY")
    false false None.

Definition locus_in_regions : VcfRecord :=
  locus 160 [call "s1" "0/1" 5; call "s2" "1/1" 20].


Definition filters_two_names : list LocusFilter :=
  [Demo.hrun_filter; Demo.region_filter "SEGDUP" "segdup.bed";
   Demo.region_filter "LOWCOMPLEXITY" "lowcomplexity.bed"].

(** A region file under the name PASS. *)
Definition args_region_PASS : Args :=
  mkArgs None None None None None None None None None false
    (Some "segdup.bed") (Some "PASS") false false None.

Definition filters_region_PASS : list LocusFilter :=
  [Demo.hrun_filter; Demo.region_filter "PASS" "segdup.bed"].

(** The locus filters of a command line without locus-level options. *)
Definition filters_default : list LocusFilter := [Demo.hrun_filter].

Definition filters_callrate : list LocusFilter :=
  [Demo.callrate_filter 0.75; Demo.hrun_filter].

(** Five diploid calls with nine copies of the alternate allele. *)
Definition hdr5 : Reader :=
  mkReader (formats hdr) ["s1"; "s2"; "s3"; "s4"; "s5"].

Definition locus_9_of_10 : VcfRecord :=
  locus 50 [call "s1" "1/1" 20; call "s2" "1/1" 20; call "s3" "1/1" 20;
            call "s4" "1/1" 20; call "s5" "0/1" 20].

(** Drop-filtered mode with a minimum call rate of 0.75, and a locus where
    one of two calls is missing. *)
Definition args_drop_callrate : Args :=
  mkArgs None None None None None (Some 0.75%float) None None None false
    None None false true None.

Definition locus_half_called : VcfRecord :=
  locus 50 [call "s1" "./." 0; call "s2" "0/1" 20].

Definition args_drop : Args :=
  mkArgs None None None None None None None None None false None None
    false true None.

(** A locus where every call is missing. *)
Definition locus_no_calls : VcfRecord :=
  locus 50 [call "s1" "./." 0; call "s2" "." 0].

(** The state in which [main] enters the loop over the records. *)
Definition state0 (invcf : Reader) (filter_list : list LocusFilter) : State :=
  mkState (init_sample_info (reader_samples invcf) GetAllCallFilters)
    (init_loc_info filter_list) [].

(** The outcome of a stage on an example, by name. *)
Definition get_Ok {A} (d : A) (r : res A) : A :=
  match r with
  | Ok a => a
  | Raise _ => d
  end.

(** The stage returns normally. *)
Definition returns {A} (r : res A) : bool :=
  match r with
  | Ok _ => true
  | Raise _ => false
  end.

Definition call_stage (invcf : Reader) (call_filters : list CallFilter)
    (st : State) (record : VcfRecord)
    : VcfRecord * gmap string (gmap string num) :=
  get_Ok (record, sample_info st)
    (ApplyCallFilters record invcf call_filters (sample_info st)).

Definition record_stage (args : Args) (invcf : Reader)
    (filter_list : list LocusFilter) (call_filters : list CallFilter)
    (st : State) (record : VcfRecord) : State :=
  get_Ok st (process_record args invcf filter_list call_filters st record).

Definition written (d : VcfRecord) (st : State) : VcfRecord :=
  default d (last (outvcf st)).

Definition whole_run (args : Args) (invcf : Reader)
    (records : list VcfRecord) : list VcfRecord * list SampRow * LocLog :=
  get_Ok ([], [], mkLocLog VNone []) (main args invcf records).

(** All five call-level thresholds. *)
Definition args_call_options : Args :=
  mkArgs (Some 10%Z) (Some 100%Z) (Some 0.5%float) (Some 0.25%float)
    (Some 0.25%float) None None None None false None None false false None.

(** A header that declares what the five call filters read. *)
Definition hdr_call_options : Reader :=
  mkReader (<["Q" := mkFormat (Some 1%Z) "Float"]>
              (<["DFLANKINDEL" := mkFormat (Some 1%Z) "Integer"]>
                 (<["DSTUTTER" := mkFormat (Some 1%Z) "Integer"]>
                    (formats hdr))))
    ["s1"; "s2"].

(** A negative minimum call depth. *)
Definition args_negative_depth : Args :=
  mkArgs (Some (-1)%Z) None None None None None None None None false None
    None false false None.


(** A locus whose calls have a genotype and no depth. *)
Definition hdr_GT : Reader :=
  mkReader (<["GT" := mkFormat (Some 1%Z) "String"]> ∅) ["s1"].

Definition locus_no_depth : VcfRecord :=
  mkRecord "chr1" 50 "ACACAC" ["ACAC"] VNone ∅ "GT"
    [mkCall "s1" [("GT", VStr "0/1")]].

(** A locus with an INFO entry of the input. *)
Definition locus_with_INFO : VcfRecord :=
  mkRecord "chr1" 70 "ACACAC" ["ACAC"] VNone (<["END" := VInt 75]> ∅)
    "GT:DP" [call "s1" "0/1" 12; call "s2" "1/1" 20].

(** The outcome of the loop over the records, from the state in which
    [main] enters it, and of the two log writers. *)
Definition loop_run (args : Args) (invcf : Reader)
    (filter_list : list LocusFilter) (call_filters : list CallFilter)
    (records : list VcfRecord) : State :=
  get_Ok (state0 invcf filter_list)
    (records_loop args invcf filter_list call_filters 0 records
       (state0 invcf filter_list)).

Definition loc_log (loc_info : gmap string Z) : LocLog :=
  get_Ok (mkLocLog VNone []) (WriteLocLog loc_info).

Definition samp_log (sample_info : gmap string (gmap string num))
    (reasons : list string) : list SampRow :=
  get_Ok [] (WriteSampLog sample_info reasons).

End Examples.

(** ** Properties of the Python primitives *)

Lemma bind_Ok {A B} (m : res A) (f : A → res B) (b : B) :
  m ≫= f = Ok b → ∃ a, m = Ok a ∧ f a = Ok b.
Proof. destruct m as [a|e]; simpl; [eauto | discriminate]. Qed.

Lemma bind_Ok_l {A B} (m : res A) (f : A → res B) (a : A) :
  m = Ok a → m ≫= f = f a.
Proof. by intros ->. Qed.

Ltac res_inv :=
  repeat match goal with
  | H : Ok _ = Ok _ |- _ => injection H as H; try subst
  | H : Raise _ = Ok _ |- _ => discriminate H
  | H : mret _ = Ok _ |- _ => unfold mret, res_ret in H
  | H : ?m ≫= ?f = Ok _ |- _ =>
      let a := fresh "a" in
      let Ha := fresh "Ha" in
      apply bind_Ok in H as (a & Ha & H); simpl in H
  end.

(** An equation between closed terms, settled by evaluating both sides. *)
Ltac by_evaluation :=
  match goal with
  | |- ?x = ?y => vm_cast_no_check (@eq_refl _ y)
  end.

Lemma float_of_int_1 : float_of_int 1 = Ok 1%float.
Proof. reflexivity. Qed.

Lemma float_of_int_0 : float_of_int 0 = Ok 0%float.
Proof. reflexivity. Qed.

Lemma add_val_1 (x : num) : add_val x (VInt 1) = Ok (incr x).
Proof. destruct x; reflexivity. Qed.

Lemma dict_get_Some {V} (d : gmap string V) k v :
  d !! k = Some v → dict_get d k = Ok v.
Proof. unfold dict_get. by intros ->. Qed.

Lemma dict_get_Ok {V} (d : gmap string V) k v :
  dict_get d k = Ok v → d !! k = Some v.
Proof. unfold dict_get. destruct (d !! k); [congruence | discriminate]. Qed.

(** The left-to-right sum of a non-empty list of floats. *)
Lemma sum_from_float (a : float) (l : list float) :
  sum_from (PFloat a) l = Ok (PFloat (foldl PrimFloat.add a l)).
Proof.
  revert a. induction l as [|f l IH]; intros a; simpl; [done|].
  apply IH.
Qed.

Lemma sum_cons (f : float) (l : list float) :
  sum (f :: l) = Ok (PFloat (foldl PrimFloat.add (0 + f)%float l)).
Proof. unfold sum. simpl. apply sum_from_float. Qed.

(** [int] of a finite float is its value with the fraction dropped: the
    result has the sign of the float, and its magnitude is the integer part
    of the magnitude [m * 2^e] of the float. *)
Lemma int_of_float_truncates (f : float) (s : bool) (m : positive) (e z : Z) :
  Prim2SF f = S754_finite s m e →
  int_of_float f = Ok z →
  z = (if s then - Z.abs z else Z.abs z)%Z ∧
  ((0 <= e)%Z → Z.abs z = (Z.pos m * 2 ^ e)%Z) ∧
  ((e < 0)%Z →
   (Z.abs z * 2 ^ (- e) <= Z.pos m < (Z.abs z + 1) * 2 ^ (- e))%Z).
Proof.
  intros Hf Hz. unfold int_of_float in Hz. rewrite Hf in Hz.
  injection Hz as <-.
  destruct (0 <=? e)%Z eqn:He.
  - apply Z.leb_le in He.
    assert (0 <= Z.pos m * 2 ^ e)%Z by (apply Z.mul_nonneg_nonneg; lia).
    destruct s; (split; [lia|]); (split; [lia|lia]).
  - apply Z.leb_gt in He.
    assert (Hp : (0 < 2 ^ (- e))%Z) by (apply Z.pow_pos_nonneg; lia).
    rewrite Z.quot_div_nonneg by lia.
    pose proof (Z.div_pos (Z.pos m) (2 ^ (- e)) ltac:(lia) Hp) as Hq.
    pose proof (Z.mul_div_le (Z.pos m) (2 ^ (- e)) Hp) as Hle.
    pose proof (Z.mul_succ_div_gt (Z.pos m) (2 ^ (- e)) Hp) as Hgt.
    destruct s; (split; [lia|]); (split; [lia|]); intros _;
      rewrite ?Z.abs_opp, Z.abs_eq by lia; lia.
Qed.

Example int_of_float_examples :
  int_of_float 3.75 = Ok 3%Z ∧ int_of_float (-3.75) = Ok (-3)%Z ∧
  int_of_float 0.5 = Ok 0%Z ∧ int_of_float (-0.5) = Ok 0%Z ∧
  int_of_float (-0) = Ok 0%Z ∧
  int_of_float infinity = Raise OverflowError ∧
  int_of_float nan = Raise ValueError.
Proof. repeat split; reflexivity. Qed.

Example float_of_int_examples :
  float_of_int 10 = Ok 10%float ∧
  float_of_int (-3) = Ok (-3)%float ∧
  float_of_int (2 ^ 53 + 1) = Ok 9007199254740992%float ∧
  float_of_int (2 ^ 53 + 3) = Ok 9007199254740996%float ∧
  float_of_int (2 ^ 1024) = Raise OverflowError.
Proof. repeat split; by vm_compute. Qed.

(** ** The call-level stage *)

Lemma FilterCall_firing (smp : Call) (call_filters : list CallFilter) :
  FilterCall smp call_filters = GetReason <$> firing smp call_filters.
Proof.
  unfold firing. induction call_filters as [|cfilt rest IH]; [done|].
  rewrite filter_cons. cbn [FilterCall].
  assert (Hf : fires smp cfilt = negb (is_None (cf_call cfilt smp))) by done.
  destruct (is_None (cf_call cfilt smp)); simpl in Hf.
  - rewrite decide_False by (rewrite Hf; discriminate). exact IH.
  - rewrite decide_True by done. simpl. by f_equal.
Qed.

Lemma firing_nil (smp : Call) (call_filters : list CallFilter) :
  firing smp call_filters = [] ↔
  Forall (λ cfilt, fires smp cfilt = false) call_filters.
Proof.
  unfold firing. induction call_filters as [|cfilt rest IH].
  - split; [constructor | done].
  - rewrite filter_cons. destruct (fires smp cfilt) eqn:E.
    + rewrite decide_True by done. split; [done|].
      intros Hall. inversion Hall; congruence.
    + rewrite decide_False by done. rewrite IH. split.
      * by constructor.
      * intros Hall. by inversion Hall.
Qed.

Lemma firing_reasons_NoDup (smp : Call) (call_filters : list CallFilter) :
  NoDup (GetReason <$> call_filters) →
  NoDup (GetReason <$> firing smp call_filters).
Proof.
  intros Hnd. apply (sublist_NoDup _ (GetReason <$> call_filters)); [done|].
  apply fmap_sublist. unfold firing. apply sublist_filter.
Qed.

(** Reading an attribute back from a call built over the fields. *)
Lemma data_get_zip_map (g : string → val) (fields : list string) key :
  key ∈ fields → data_get (zip fields (map g fields)) key = Ok (g key).
Proof.
  induction fields as [|k rest IH]; intros Hin; [by apply elem_of_nil in Hin|].
  simpl. destruct (String.eqb k key) eqn:E.
  - apply String.eqb_eq in E. by subst.
  - apply String.eqb_neq in E. apply elem_of_cons in Hin as [->|Hin]; [done|].
    by apply IH.
Qed.

Lemma data_get_zip_mapM (g : string → res val) (fields : list string)
    (vals : list val) key :
  mapM g fields = Ok vals → key ∈ fields →
  data_get (zip fields vals) key = g key.
Proof.
  revert vals. induction fields as [|k rest IH]; intros vals Hm Hin;
    [by apply elem_of_nil in Hin|].
  simpl in Hm. res_inv. simpl.
  destruct (String.eqb k key) eqn:E.
  - apply String.eqb_eq in E. by subst.
  - apply String.eqb_neq in E. apply elem_of_cons in Hin as [->|Hin]; [done|].
    by apply IH.
Qed.

Lemma mapM_res_total {A B} (g : A → res B) (l : list A) :
  (∀ x, x ∈ l → is_Ok (g x)) → is_Ok (mapM g l).
Proof.
  induction l as [|x l IH]; intros Hall; [by eexists|].
  destruct (Hall x) as [y Hy]; [by left|].
  destruct IH as [ys Hys]; [intros; apply Hall; by right|].
  exists (y :: ys). simpl. rewrite Hy. simpl. by rewrite Hys.
Qed.

(** The counters of one sample after the reasons have been counted. *)
Lemma bump_Ok (si : gmap string (gmap string num)) name key v info old new :
  si !! name = Some info → info !! key = Some old → add_val old v = Ok new →
  bump si name key v = Ok (<[name := <[key := new]> info]> si).
Proof.
  intros Hs Hk Ha. unfold bump.
  rewrite (dict_get_Some _ _ _ Hs). simpl.
  rewrite (dict_get_Some _ _ _ Hk). simpl. by rewrite Ha.
Qed.

Lemma bump_reasons_Ok (si : gmap string (gmap string num)) name reasons info :
  si !! name = Some info →
  (∀ r, r ∈ reasons → is_Some (info !! r)) →
  bump_reasons si name reasons
  = Ok (<[name := foldl (λ d r, alter incr r d) info reasons]> si).
Proof.
  revert si info. induction reasons as [|r rest IH]; intros si info Hs Hk.
  - simpl. by rewrite insert_id.
  - destruct (Hk r) as [old Hold]; [by left|].
    simpl. erewrite bump_Ok; [|done..|apply add_val_1]. simpl.
    erewrite IH; [|apply lookup_insert_eq|].
    + rewrite insert_insert_eq. do 2 f_equal. f_equal.
      apply map_eq. intros k. destruct (decide (k = r)) as [->|Hne].
      * by rewrite lookup_insert_eq, lookup_alter_eq, Hold.
      * by rewrite lookup_insert_ne, lookup_alter_ne.
    + intros r' Hr'. destruct (decide (r' = r)) as [->|Hne].
      * rewrite lookup_insert_eq. by eexists.
      * rewrite lookup_insert_ne by done. apply Hk. by right.
Qed.

Lemma lookup_counted_other (info : gmap string num) reasons k :
  k ∉ reasons →
  foldl (λ d r, alter incr r d) info reasons !! k = info !! k.
Proof.
  revert info. induction reasons as [|r rest IH]; intros info Hk; [done|].
  simpl. rewrite IH by (intros ?; apply Hk; by right).
  apply lookup_alter_ne. intros ->. apply Hk. by left.
Qed.

Lemma lookup_counted_once (info : gmap string num) reasons k :
  NoDup reasons → k ∈ reasons →
  foldl (λ d r, alter incr r d) info reasons !! k = incr <$> info !! k.
Proof.
  revert info. induction reasons as [|r rest IH]; intros info Hnd Hk;
    [by apply elem_of_nil in Hk|].
  apply NoDup_cons in Hnd as [Hr Hnd]. simpl.
  apply elem_of_cons in Hk as [->|Hk].
  - rewrite lookup_counted_other by done. apply lookup_alter_eq.
  - rewrite IH by done. rewrite lookup_alter_ne; [done|].
    intros ->. done.
Qed.
(** The three branches of the body of the loop over the calls. *)
Lemma filter_sample_nocall (samp_fmt : CallData) call_filters si smp gt :
  call_get smp "GT" = Ok gt → is_nocall gt = true →
  filter_sample samp_fmt call_filters si smp
  = (sampdat ← mapM (λ key, if String.eqb key "FILTER"
                            then Ok (VStr "NOCALL") else call_get smp key)
                 (_fields samp_fmt);
     Ok (mkCall (sample smp) (zip (_fields samp_fmt) sampdat), si)).
Proof. intros Hgt Hno. unfold filter_sample. rewrite Hgt. simpl. by rewrite Hno. Qed.

Lemma filter_sample_fail (samp_fmt : CallData) call_filters si smp gt :
  call_get smp "GT" = Ok gt → is_nocall gt = false →
  firing smp call_filters ≠ [] →
  filter_sample samp_fmt call_filters si smp
  = (si' ← bump_reasons si (sample smp)
             (GetReason <$> firing smp call_filters);
     Ok (mkCall (sample smp)
           (cleared_data (_fields samp_fmt)
              (GetReason <$> firing smp call_filters)), si')).
Proof.
  intros Hgt Hno Hf. unfold filter_sample. rewrite Hgt. simpl. rewrite Hno.
  rewrite FilterCall_firing.
  destruct (firing smp call_filters) as [|cfilt rest]; [done|]. reflexivity.
Qed.

Lemma filter_sample_pass (samp_fmt : CallData) call_filters si smp gt :
  call_get smp "GT" = Ok gt → is_nocall gt = false →
  firing smp call_filters = [] →
  filter_sample samp_fmt call_filters si smp
  = (si1 ← bump si (sample smp) "numcalls" (VInt 1);
     dp ← call_get smp "DP";
     si2 ← bump si1 (sample smp) "totaldp" dp;
     sampdat ← mapM (λ key, if String.eqb key "FILTER"
                            then Ok (VStr "PASS") else call_get smp key)
                 (_fields samp_fmt);
     Ok (mkCall (sample smp) (zip (_fields samp_fmt) sampdat), si2)).
Proof.
  intros Hgt Hno Hf. unfold filter_sample. rewrite Hgt. simpl. rewrite Hno.
  rewrite FilterCall_firing, Hf. reflexivity.
Qed.

Lemma cleared_data_fields (fields reasons : list string) :
  (cleared_data fields reasons).*1 = fields.
Proof. unfold cleared_data. rewrite fst_zip; [done|]. by rewrite length_map. Qed.

Lemma cleared_data_entry (fields reasons : list string) key v :
  (key, v) ∈ cleared_data fields reasons →
  v = if String.eqb key "GT" then VStr "./."
      else if String.eqb key "FILTER" then VStr (join "," reasons)
           else VNone.
Proof.
  unfold cleared_data. induction fields as [|k rest IH]; simpl.
  - intros Hin. by apply elem_of_nil in Hin.
  - intros Hin. apply elem_of_cons in Hin as [Heq|Hin]; [|by apply IH].
    by injection Heq as -> ->.
Qed.

(** C5. For a call whose genotype is present, every registered call filter
    is evaluated: the reasons collected are those of all the filters that
    fire, in registration order. When at least one filter fires, the output
    genotype is cleared to missing, the sample's counter of every reason
    that fired goes up by exactly one, and every other counter of the
    sample, numcalls and the depth sum among them, is left as it was. *)
Theorem call_filters_all_evaluated (samp_fmt : CallData)
    (call_filters : list CallFilter) (si : gmap string (gmap string num))
    (smp : Call) (gt : val) (info : gmap string num) :
  call_get smp "GT" = Ok gt → is_nocall gt = false →
  NoDup (GetReason <$> call_filters) →
  "numcalls" ∉ GetReason <$> call_filters →
  "totaldp" ∉ GetReason <$> call_filters →
  si !! sample smp = Some info →
  (∀ cfilt, cfilt ∈ call_filters → is_Some (info !! GetReason cfilt)) →
  FilterCall smp call_filters = GetReason <$> firing smp call_filters ∧
  (firing smp call_filters ≠ [] →
   ∃ out info',
     filter_sample samp_fmt call_filters si smp
     = Ok (out, <[sample smp := info']> si) ∧
     sample out = sample smp ∧
     ("GT" ∈ _fields samp_fmt → call_get out "GT" = Ok (VStr "./.")) ∧
     is_nocall (VStr "./.") = true ∧
     (∀ cfilt n, cfilt ∈ firing smp call_filters →
        info !! GetReason cfilt = Some (PInt n) →
        info' !! GetReason cfilt = Some (PInt (n + 1))) ∧
     (∀ key, key ∉ GetReason <$> firing smp call_filters →
        info' !! key = info !! key) ∧
     info' !! "numcalls" = info !! "numcalls" ∧
     info' !! "totaldp" = info !! "totaldp").
Proof.
  intros Hgt Hno Hnd Hnc Htd Hsi Hkeys.
  split; [apply FilterCall_firing|]. intros Hfire.
  assert (Hsub : ∀ r, r ∈ GetReason <$> firing smp call_filters →
                      r ∈ GetReason <$> call_filters).
  { intros r (cfilt & -> & Hin)%list_elem_of_fmap.
    apply list_elem_of_fmap. exists cfilt. split; [done|].
    unfold firing in Hin. by apply list_elem_of_filter in Hin as [_ ?]. }
  eexists _, _. split; [|split; [|split; [|split; [|split; [|split; [|split]]]]]].
  - rewrite (filter_sample_fail _ _ _ _ gt) by done.
    erewrite bump_reasons_Ok; [reflexivity|exact Hsi|].
    intros r Hr. apply Hsub in Hr as (cfilt & -> & Hin)%list_elem_of_fmap.
    by apply Hkeys.
  - done.
  - intros HGT. unfold call_get, cleared_data. simpl.
    by rewrite data_get_zip_map.
  - done.
  - intros cfilt n Hin Hn.
    rewrite lookup_counted_once, Hn; [done|by apply firing_reasons_NoDup|].
    apply list_elem_of_fmap. by exists cfilt.
  - intros key Hkey. by apply lookup_counted_other.
  - apply lookup_counted_other. intros Hin. by apply Hnc, Hsub.
  - apply lookup_counted_other. intros Hin. by apply Htd, Hsub.
Qed.

(** C10. For a call that fails at least one call filter, the output call
    has the attributes of the output schema, and every attribute other
    than the genotype and the FILTER status is null. *)
Theorem failed_call_attributes_null (samp_fmt : CallData)
    (call_filters : list CallFilter) (si si' : gmap string (gmap string num))
    (smp out : Call) (gt : val) :
  call_get smp "GT" = Ok gt → is_nocall gt = false →
  firing smp call_filters ≠ [] →
  filter_sample samp_fmt call_filters si smp = Ok (out, si') →
  (data out).*1 = _fields samp_fmt ∧
  (∀ key v, (key, v) ∈ data out → key ≠ "GT" → key ≠ "FILTER" → v = VNone) ∧
  (∀ key, key ∈ _fields samp_fmt → key ≠ "GT" → key ≠ "FILTER" →
          call_get out key = Ok VNone).
Proof.
  intros Hgt Hno Hfire Hrun.
  rewrite (filter_sample_fail _ _ _ _ gt) in Hrun by done. res_inv.
  simpl. split; [apply cleared_data_fields|]. split.
  - intros key v Hin Hg Hf. apply cleared_data_entry in Hin.
    apply String.eqb_neq in Hg, Hf. by rewrite Hg, Hf in Hin.
  - intros key Hin Hg Hf. unfold call_get, cleared_data. simpl.
    rewrite data_get_zip_map by done.
    apply String.eqb_neq in Hg, Hf. by rewrite Hg, Hf.
Qed.
(** ** The calls that pass, and the calls that are missing *)

(** The output schema has the status attribute, unless the FORMAT string
    contains FILTER only inside the name of another attribute. *)
Lemma fields_of_FILTER (record : VcfRecord) :
  contains "FILTER" (FORMAT record) = false ∨
  "FILTER" ∈ split ":" (FORMAT record) →
  "FILTER" ∈ fields_of record.
Proof.
  unfold fields_of. intros [Hno|Hin].
  - rewrite Hno. apply elem_of_app. right. by left.
  - destruct (contains "FILTER" (FORMAT record)); [done|].
    apply elem_of_app. by left.
Qed.

(** A call with a genotype on which no filter fires: the output call has
    the status PASS where the output schema has the status attribute, every
    other attribute is carried over, and the sample's numcalls and depth
    sum go up by one and by the call's depth. *)
Lemma passed_call (samp_fmt : CallData) (call_filters : list CallFilter)
    (si : gmap string (gmap string num)) (smp : Call) (gt : val)
    (info : gmap string num) (n t d : Z) :
  call_get smp "GT" = Ok gt → is_nocall gt = false →
  firing smp call_filters = [] →
  si !! sample smp = Some info →
  info !! "numcalls" = Some (PInt n) → info !! "totaldp" = Some (PInt t) →
  call_get smp "DP" = Ok (VInt d) →
  (∀ key, key ∈ _fields samp_fmt → key ≠ "FILTER" →
          is_Ok (call_get smp key)) →
  ∃ out,
    filter_sample samp_fmt call_filters si smp
    = Ok (out, <[sample smp := <["totaldp" := PInt (t + d)]>
                                 (<["numcalls" := PInt (n + 1)]> info)]> si) ∧
    sample out = sample smp ∧
    ("FILTER" ∈ _fields samp_fmt → call_get out "FILTER" = Ok (VStr "PASS")) ∧
    (∀ key, key ∈ _fields samp_fmt → key ≠ "FILTER" →
            call_get out key = call_get smp key).
Proof.
  intros Hgt Hno Hfire Hsi Hn Ht Hdp Hattrs.
  rewrite (filter_sample_pass _ _ _ _ gt) by done.
  erewrite bump_Ok; [|exact Hsi|exact Hn|reflexivity]. simpl.
  rewrite Hdp. simpl.
  erewrite bump_Ok;
    [|apply lookup_insert_eq|by rewrite lookup_insert_ne|reflexivity].
  simpl. rewrite insert_insert_eq.
  destruct (mapM_res_total
              (λ key, if String.eqb key "FILTER" then Ok (VStr "PASS")
                      else call_get smp key) (_fields samp_fmt))
    as [sampdat Hdat].
  { intros key Hin. destruct (String.eqb key "FILTER") eqn:E; [by eexists|].
    apply Hattrs; [done|]. by apply String.eqb_neq. }
  rewrite Hdat. simpl. eexists. split; [reflexivity|]. simpl.
  split; [done|]. split.
  - intros Hin. unfold call_get. simpl.
    by rewrite (data_get_zip_mapM _ _ _ _ Hdat Hin).
  - intros key Hin Hne. unfold call_get at 1. simpl.
    rewrite (data_get_zip_mapM _ _ _ _ Hdat Hin).
    apply String.eqb_neq in Hne. by rewrite Hne.
Qed.

(** A call without a genotype: no filter has a part in the outcome, the
    statistics are left as they were, the output call has the status NOCALL
    where the output schema has the status attribute, and every other
    attribute, the missing genotype among them, is carried over. *)
Lemma missing_call (samp_fmt : CallData) (call_filters : list CallFilter)
    (si : gmap string (gmap string num)) (smp : Call) (gt : val) :
  call_get smp "GT" = Ok gt → is_nocall gt = true →
  (∀ key, key ∈ _fields samp_fmt → key ≠ "FILTER" →
          is_Ok (call_get smp key)) →
  ∃ out,
    (∀ call_filters', filter_sample samp_fmt call_filters' si smp
                      = Ok (out, si)) ∧
    sample out = sample smp ∧
    ("FILTER" ∈ _fields samp_fmt →
     call_get out "FILTER" = Ok (VStr "NOCALL")) ∧
    (∀ key, key ∈ _fields samp_fmt → key ≠ "FILTER" →
            call_get out key = call_get smp key) ∧
    ("GT" ∈ _fields samp_fmt → call_get out "GT" = Ok gt).
Proof.
  intros Hgt Hno Hattrs.
  destruct (mapM_res_total
              (λ key, if String.eqb key "FILTER" then Ok (VStr "NOCALL")
                      else call_get smp key) (_fields samp_fmt))
    as [sampdat Hdat].
  { intros key Hin. destruct (String.eqb key "FILTER") eqn:E; [by eexists|].
    apply Hattrs; [done|]. by apply String.eqb_neq. }
  eexists. split; [|split; [|split; [|split]]].
  - intros cfs. rewrite (filter_sample_nocall _ _ _ _ gt) by done.
    rewrite Hdat. reflexivity.
  - done.
  - intros Hin. unfold call_get. simpl.
    by rewrite (data_get_zip_mapM _ _ _ _ Hdat Hin).
  - intros key Hin Hne. unfold call_get at 1. simpl.
    rewrite (data_get_zip_mapM _ _ _ _ Hdat Hin).
    apply String.eqb_neq in Hne. by rewrite Hne.
  - intros Hin. unfold call_get at 1. simpl.
    by rewrite (data_get_zip_mapM _ _ _ _ Hdat Hin).
Qed.

(** The output call does not depend on the statistics. *)
Lemma filter_sample_call (samp_fmt : CallData) call_filters si1 si2 smp
    c1 c2 s1 s2 :
  filter_sample samp_fmt call_filters si1 smp = Ok (c1, s1) →
  filter_sample samp_fmt call_filters si2 smp = Ok (c2, s2) →
  c1 = c2.
Proof.
  unfold filter_sample. destruct (call_get smp "GT") as [gt|]; [|done].
  simpl. destruct (is_nocall gt).
  - intros H1 H2. res_inv. congruence.
  - destruct (FilterCall smp call_filters).
    + intros H1 H2. res_inv. congruence.
    + intros H1 H2. by res_inv.
Qed.

Lemma filter_samples_calls (samp_fmt : CallData) call_filters l :
  ∀ si1 si2 l1 l2 s1 s2,
    filter_samples samp_fmt call_filters si1 l = Ok (l1, s1) →
    filter_samples samp_fmt call_filters si2 l = Ok (l2, s2) →
    l1 = l2.
Proof.
  induction l as [|smp rest IH]; intros si1 si2 l1 l2 s1 s2; simpl.
  - intros. by res_inv.
  - intros H1 H2.
    apply bind_Ok in H1 as ([c1 t1] & Hc1 & H1).
    apply bind_Ok in H2 as ([c2 t2] & Hc2 & H2). simpl in H1, H2.
    apply bind_Ok in H1 as ([r1 u1] & Hr1 & H1).
    apply bind_Ok in H2 as ([r2 u2] & Hr2 & H2). simpl in H1, H2. res_inv.
    f_equal; [by eapply filter_sample_call | by eapply IH].
Qed.

Lemma ApplyCallFilters_view record invcf call_filters si1 si2 v1 v2 s1 s2 :
  ApplyCallFilters record invcf call_filters si1 = Ok (v1, s1) →
  ApplyCallFilters record invcf call_filters si2 = Ok (v2, s2) →
  v1 = v2.
Proof.
  unfold ApplyCallFilters. intros H1 H2.
  apply bind_Ok in H1 as (f1 & Hf1 & H1).
  apply bind_Ok in H2 as (f2 & Hf2 & H2).
  rewrite Hf1 in Hf2. injection Hf2 as <-.
  apply bind_Ok in H1 as ([l1 t1] & Hl1 & H1).
  apply bind_Ok in H2 as ([l2 t2] & Hl2 & H2). simpl in H1, H2. res_inv.
  f_equal. by eapply filter_samples_calls.
Qed.
(** ** The locus-level stage *)

Lemma set_FILTER_twice (r : VcfRecord) (v w : val) :
  set_FILTER (set_FILTER r v) w = set_FILTER r w.
Proof. reflexivity. Qed.

Lemma add_filter_status (record : VcfRecord) (seen : list string) name :
  add_filter (set_FILTER record (filter_status seen)) name
  = Ok (set_FILTER record (filter_status (seen ++ [name]))).
Proof.
  unfold add_filter. destruct seen as [|s seen]; [done|].
  simpl. unfold set_FILTER. simpl. do 3 f_equal.
  by rewrite fmap_app.
Qed.

Lemma filter_status_None (seen : list string) :
  is_None (filter_status seen) = true ↔ seen = [].
Proof. destruct seen; simpl; split; done. Qed.

(** In drop mode the loop changes neither the record nor the counters. *)
Lemma locus_filters_drop (filter_list : list LocusFilter) record loc_info :
  locus_filters true filter_list record loc_info
  = Ok (forallb (passes record) filter_list, record, loc_info).
Proof.
  induction filter_list as [|filt rest IH]; [done|].
  simpl. unfold passes at 1. destruct (is_None (lf_call filt record)); [|done].
  exact IH.
Qed.

Lemma locus_filters_drop_first (pre post : list LocusFilter) filt record
    loc_info :
  Forall (λ f, passes record f = true) pre → passes record filt = false →
  locus_filters true (pre ++ filt :: post) record loc_info
  = Ok (false, record, loc_info).
Proof.
  intros Hpre Hfail. rewrite locus_filters_drop.
  rewrite forallb_app. simpl. rewrite Hfail. simpl. by rewrite andb_false_r.
Qed.

(** The first filter that fails. *)
Lemma first_failing (filter_list : list LocusFilter) record :
  forallb (passes record) filter_list = false →
  ∃ pre filt post,
    filter_list = pre ++ filt :: post ∧
    Forall (λ f, passes record f = true) pre ∧ passes record filt = false.
Proof.
  induction filter_list as [|f rest IH]; [done|].
  simpl. destruct (passes record f) eqn:E; simpl.
  - intros (pre & filt & post & -> & Hpre & Hfail)%IH.
    exists (f :: pre), filt, post. split; [done|]. split; [|done].
    by constructor.
  - intros _. exists [], f, rest. by repeat split.
Qed.

Lemma lookup_count_names (loc_info : gmap string Z) names k :
  count_names loc_info names !! k
  = (λ n, n + occurrences k names)%Z <$> loc_info !! k.
Proof.
  unfold count_names, occurrences. revert loc_info.
  induction names as [|name rest IH]; intros loc_info.
  - simpl. destruct (loc_info !! k); simpl; [|done]. f_equal. lia.
  - simpl. rewrite IH. rewrite filter_cons.
    destruct (decide (name = k)) as [->|Hne].
    + rewrite lookup_alter_eq. destruct (loc_info !! k); simpl; [|done].
      f_equal. lia.
    + by rewrite lookup_alter_ne.
Qed.

Lemma count_names_nil (loc_info : gmap string Z) :
  count_names loc_info [] = loc_info.
Proof. reflexivity. Qed.

(** In annotate mode every filter is evaluated, and the loop adds the
    names of the failing ones to the record and to the counters. *)
Lemma locus_filters_annotate (filter_list : list LocusFilter) record seen
    (loc_info : gmap string Z) :
  (∀ filt, filt ∈ filter_list → is_Some (loc_info !! filter_name filt)) →
  locus_filters false filter_list (set_FILTER record (filter_status seen))
    loc_info
  = Ok (true,
        set_FILTER record
          (filter_status (seen ++ failing_from filter_list record seen)),
        count_names loc_info (failing_from filter_list record seen)).
Proof.
  revert seen loc_info.
  induction filter_list as [|filt rest IH]; intros seen loc_info Hkeys.
  - simpl. by rewrite app_nil_r.
  - simpl. unfold passes.
    destruct (is_None (lf_call filt (set_FILTER record (filter_status seen)))).
    + apply IH. intros f Hf. apply Hkeys. by right.
    + rewrite add_filter_status. simpl.
      destruct (Hkeys filt) as [n Hn]; [by left|].
      rewrite (dict_get_Some _ _ _ Hn). simpl.
      rewrite IH.
      * rewrite <- app_assoc. simpl. do 2 f_equal.
        unfold count_names. simpl. f_equal.
        apply map_eq. intros k. destruct (decide (k = filter_name filt)) as [->|Hne].
        -- by rewrite lookup_insert_eq, lookup_alter_eq, Hn.
        -- by rewrite lookup_insert_ne, lookup_alter_ne.
      * intros f Hf. destruct (decide (filter_name f = filter_name filt)) as [->|Hne].
        -- rewrite lookup_insert_eq. by eexists.
        -- rewrite lookup_insert_ne by done. apply Hkeys. by right.
Qed.

Lemma failing_nil (filter_list : list LocusFilter) record :
  failing filter_list record = [] ↔
  forallb (passes (set_FILTER record VNone)) filter_list = true.
Proof.
  unfold failing. induction filter_list as [|filt rest IH]; [done|].
  simpl. destruct (passes (set_FILTER record VNone) filt); simpl; [exact IH|].
  split; done.
Qed.

Lemma failing_from_names (filter_list : list LocusFilter) record seen name :
  name ∈ failing_from filter_list record seen →
  name ∈ filter_name <$> filter_list.
Proof.
  revert seen. induction filter_list as [|filt rest IH]; intros seen; simpl.
  - done.
  - destruct (passes _ filt).
    + intros Hin. right. by eapply IH.
    + intros [->|Hin]%elem_of_cons; [by left|]. right. by eapply IH.
Qed.

Section LocusStage.

Context `{Externals}.

(** The loop over the locus filters keeps the keys of the counters. *)
Lemma locus_filters_keys drop (filter_list : list LocusFilter) record
    loc_info keep record' loc_info' k :
  locus_filters drop filter_list record loc_info
  = Ok (keep, record', loc_info') →
  is_Some (loc_info !! k) → is_Some (loc_info' !! k).
Proof.
  revert record loc_info.
  induction filter_list as [|filt rest IH]; intros record loc_info; simpl.
  - intros. res_inv. congruence.
  - destruct (is_None (lf_call filt record)); [apply IH|].
    destruct drop; [intros; res_inv; congruence|].
    intros Hrun Hk. res_inv. eapply IH; [exact Hrun|].
    destruct (decide (k = filter_name filt)) as [->|Hne].
    + rewrite lookup_insert_eq. by eexists.
    + by rewrite lookup_insert_ne.
Qed.

End LocusStage.
Section RecordStage.

Context `{Externals}.

Lemma process_record_unfold args invcf filter_list call_filters st record
    view si' :
  ApplyCallFilters record invcf call_filters (sample_info st)
  = Ok (view, si') →
  process_record args invcf filter_list call_filters st record
  = ('(output_record, record, li) ←
       locus_filters (drop_filtered args) filter_list
         (set_FILTER view VNone) (loc_info st);
     if output_record : bool then
       record ← recalculate_INFO args record;
       '(record, li) ← recalc_filter args record li;
       Ok (mkState si' li (outvcf st ++ [record]))
     else Ok (mkState si' li (outvcf st))).
Proof. intros Hc. unfold process_record. by rewrite Hc. Qed.

(** The recalculation of the INFO fields touches nothing but INFO. *)
Lemma recalculate_INFO_frame args record record' :
  recalculate_INFO args record = Ok record' →
  FILTER record' = FILTER record ∧ samples record' = samples record ∧
  ALT record' = ALT record.
Proof.
  unfold recalculate_INFO.
  destruct (0 <? num_called (samples (set_INFO record "HRUN" _)))%Z;
    intros Hr; simpl in Hr; res_inv; done.
Qed.

(** With no completed call the recalculation cannot raise, and writes the
    sentinels. *)
Lemma recalculate_INFO_no_calls args record :
  num_called (samples record) = 0%Z →
  ∃ record', recalculate_INFO args record = Ok record' ∧
             INFO record' !! "HET" = Some (VInt (-1)) ∧
             INFO record' !! "HWEP" = Some (VInt (-1)).
Proof.
  intros Hn. unfold recalculate_INFO. simpl. rewrite Hn. simpl.
  eexists. split; [reflexivity|]. simpl. split.
  - rewrite !lookup_insert_ne by done. apply lookup_insert_eq.
  - rewrite !lookup_insert_ne by done. apply lookup_insert_eq.
Qed.

Lemma recalc_filter_total args filter_list record loc_info :
  counters_exist filter_list loc_info →
  ∃ record' loc_info',
    recalc_filter args record loc_info = Ok (record', loc_info') ∧
    INFO record' = INFO record ∧
    counters_exist filter_list loc_info'.
Proof.
  intros (Hp & Ht & Hf). unfold recalc_filter.
  destruct (is_None (FILTER record) && negb (drop_filtered args)).
  - destruct Hp as [p Hp], Ht as [t Ht].
    rewrite (dict_get_Some _ _ _ Hp). simpl.
    rewrite (dict_get_Some _ "totalcalls" t)
      by (by rewrite lookup_insert_ne).
    simpl. eexists _, _. split; [reflexivity|]. split; [done|].
    split; [|split].
    + rewrite lookup_insert_ne by done. rewrite lookup_insert_eq. by eexists.
    + rewrite lookup_insert_eq. by eexists.
    + intros filt Hin.
      destruct (decide (filter_name filt = "totalcalls")) as [->|?];
        [rewrite lookup_insert_eq; by eexists|rewrite lookup_insert_ne by done].
      destruct (decide (filter_name filt = "PASS")) as [->|?];
        [rewrite lookup_insert_eq; by eexists|rewrite lookup_insert_ne by done].
      by apply Hf.
  - eexists _, _. by split.
Qed.

Lemma locus_filters_total drop filter_list record seen loc_info :
  counters_exist filter_list loc_info →
  ∃ keep record' loc_info',
    locus_filters drop filter_list (set_FILTER record (filter_status seen))
      loc_info = Ok (keep, record', loc_info') ∧
    samples record' = samples record ∧
    counters_exist filter_list loc_info' ∧
    (drop = false → keep = true) ∧
    (forallb (passes (set_FILTER record (filter_status seen))) filter_list
     = true → keep = true).
Proof.
  intros Hex. destruct drop.
  - rewrite locus_filters_drop. eexists _, _, _. split; [reflexivity|].
    split; [done|]. split; [done|]. split; [done|]. by intros ->.
  - rewrite locus_filters_annotate by apply Hex.
    eexists _, _, _. split; [reflexivity|]. split; [done|].
    split; [|done]. destruct Hex as (Hp & Ht & Hf).
    assert (Hk : ∀ k, is_Some (loc_info !! k) →
                      is_Some (count_names loc_info
                                 (failing_from filter_list record seen) !! k)).
    { intros k [n Hn]. rewrite lookup_count_names, Hn. by eexists. }
    split; [by apply Hk|]. split; [by apply Hk|].
    intros filt Hin. by apply Hk, Hf.
Qed.

End RecordStage.
Section DropMode.

Context `{Externals}.

(** C1. In drop-filtered mode, a locus at which a locus filter fails is
    excluded from the output by the first failing filter in registration
    order: the record is not written, the filters after the first failing
    one have no part in the outcome, and the locus-level counters, PASS and
    every fail counter, that of the first failing filter included, are
    left as they were. *)
Theorem drop_mode_excludes_failing_locus (args : Args) (invcf : Reader)
    (filter_list : list LocusFilter) (call_filters : list CallFilter)
    (st : State) (record view : VcfRecord)
    (si' : gmap string (gmap string num)) :
  drop_filtered args = true →
  ApplyCallFilters record invcf call_filters (sample_info st)
  = Ok (view, si') →
  forallb (passes (set_FILTER view VNone)) filter_list = false →
  process_record args invcf filter_list call_filters st record
  = Ok (mkState si' (loc_info st) (outvcf st)) ∧
  ∃ pre filt post,
    filter_list = pre ++ filt :: post ∧
    Forall (λ f, passes (set_FILTER view VNone) f = true) pre ∧
    passes (set_FILTER view VNone) filt = false ∧
    ∀ post',
      process_record args invcf (pre ++ filt :: post') call_filters st record
      = Ok (mkState si' (loc_info st) (outvcf st)).
Proof.
  intros Hdrop Hcall Hfail.
  assert (Hgo : ∀ fl, forallb (passes (set_FILTER view VNone)) fl = false →
                process_record args invcf fl call_filters st record
                = Ok (mkState si' (loc_info st) (outvcf st))).
  { intros fl Hfl. rewrite (process_record_unfold _ _ _ _ _ _ view si') by done.
    rewrite Hdrop, locus_filters_drop, Hfl. reflexivity. }
  split; [by apply Hgo|].
  destruct (first_failing _ _ Hfail) as (pre & filt & post & -> & Hpre & Hf).
  exists pre, filt, post. repeat split; [done..|].
  intros post'. apply Hgo. rewrite forallb_app. simpl. rewrite Hf.
  simpl. apply andb_false_r.
Qed.

Lemma process_record_drop_loc_info args invcf filter_list call_filters st
    record st' :
  drop_filtered args = true →
  process_record args invcf filter_list call_filters st record = Ok st' →
  loc_info st' = loc_info st.
Proof.
  intros Hdrop Hrun. unfold process_record in Hrun.
  apply bind_Ok in Hrun as ([view si'] & Hcall & Hrun). simpl in Hrun.
  rewrite Hdrop, locus_filters_drop in Hrun. simpl in Hrun.
  destruct (forallb _ filter_list); [|by res_inv].
  apply bind_Ok in Hrun as (r & Hr & Hrun). simpl in Hrun.
  unfold recalc_filter in Hrun. rewrite Hdrop, andb_false_r in Hrun.
  simpl in Hrun. by res_inv.
Qed.

Lemma records_loop_drop_loc_info args invcf filter_list call_filters c
    records st st' :
  drop_filtered args = true →
  records_loop args invcf filter_list call_filters c records st = Ok st' →
  loc_info st' = loc_info st.
Proof.
  intros Hdrop. revert c st.
  induction records as [|record rest IH]; intros c st; simpl.
  - intros. by res_inv.
  - destruct (match num_records args with
              | Some n => (n <? c + 1)%Z
              | None => false
              end); [intros; by res_inv|].
    intros Hrun. apply bind_Ok in Hrun as (st1 & H1 & Hrun).
    rewrite (IH _ _ Hrun). by eapply process_record_drop_loc_info.
Qed.

Lemma init_loc_info_PASS (filter_list : list LocusFilter) :
  init_loc_info filter_list !! "PASS" = Some 0%Z.
Proof.
  unfold init_loc_info.
  assert (Hgen : ∀ li : gmap string Z, li !! "PASS" = Some 0%Z →
            foldl (λ li filt, <[filter_name filt := 0%Z]> li) li filter_list
              !! "PASS" = Some 0%Z).
  { induction filter_list as [|filt rest IH]; intros li Hli; [done|].
    simpl. apply IH.
    destruct (decide (filter_name filt = "PASS")) as [->|Hne].
    - apply lookup_insert_eq.
    - by rewrite lookup_insert_ne. }
  apply Hgen. apply lookup_insert_eq.
Qed.

Lemma WriteLocLog_no_pass (loc_info : gmap string Z) loclog :
  loc_info !! "PASS" = Some 0%Z →
  WriteLocLog loc_info = Ok loclog →
  MeanSamplesPerPassingSTR loclog = VInt 0.
Proof.
  intros Hp Hw. unfold WriteLocLog in Hw.
  apply bind_Ok in Hw as (t & _ & Hw).
  rewrite (dict_get_Some _ _ _ Hp) in Hw. simpl in Hw. by res_inv.
Qed.

(** C9. In drop-filtered mode a locus that passes every locus filter is
    written with its locus-level FILTER left unset, not marked PASS; no
    record of the run changes the counters of the locus log, PASS and
    totalcalls among them; and the log that the run writes reports
    MeanSamplesPerPassingSTR as 0. *)
Theorem drop_mode_never_marks_pass (args : Args) (invcf : Reader) :
  drop_filtered args = true →
  (∀ filter_list call_filters st record view si',
     ApplyCallFilters record invcf call_filters (sample_info st)
     = Ok (view, si') →
     forallb (passes (set_FILTER view VNone)) filter_list = true →
     process_record args invcf filter_list call_filters st record
     = (w ← recalculate_INFO args (set_FILTER view VNone);
        Ok (mkState si' (loc_info st) (outvcf st ++ [w]))) ∧
     ∀ w, recalculate_INFO args (set_FILTER view VNone) = Ok w →
          FILTER w = VNone) ∧
  (∀ filter_list call_filters c records st st',
     records_loop args invcf filter_list call_filters c records st = Ok st' →
     loc_info st' = loc_info st) ∧
  (∀ records out samplog loclog,
     main args invcf records = Ok (out, samplog, loclog) →
     MeanSamplesPerPassingSTR loclog = VInt 0).
Proof.
  intros Hdrop. split; [|split].
  - intros filter_list call_filters st record view si' Hcall Hpass. split.
    + rewrite (process_record_unfold _ _ _ _ _ _ view si') by done.
      rewrite Hdrop, locus_filters_drop, Hpass. simpl.
      destruct (recalculate_INFO args (set_FILTER view VNone)) as [w|e];
        [|done].
      simpl. unfold recalc_filter. rewrite Hdrop, andb_false_r. reflexivity.
    + intros w Hw. by apply recalculate_INFO_frame in Hw as (-> & _).
  - intros filter_list call_filters c records st st'.
    by apply records_loop_drop_loc_info.
  - intros records out samplog loclog Hmain. unfold main in Hmain.
    apply bind_Ok in Hmain as (_ & _ & Hmain).
    apply bind_Ok in Hmain as (filter_list & _ & Hmain).
    apply bind_Ok in Hmain as (st' & Hloop & Hmain).
    apply bind_Ok in Hmain as (sl & _ & Hmain).
    apply bind_Ok in Hmain as (ll & Hlog & Hmain). simpl in Hmain.
    injection Hmain as _ _ ->.
    apply records_loop_drop_loc_info in Hloop; [|done]. simpl in Hloop.
    eapply WriteLocLog_no_pass; [|exact Hlog].
    rewrite Hloop. apply init_loc_info_PASS.
Qed.

(** C8. A locus with no completed call is no error: the record stage
    cannot raise on it, a retained locus is written with HET and HWEP at
    the sentinel -1, and the loop goes on with the next record. *)
Theorem zero_calls_sentinels (args : Args) (invcf : Reader)
    (filter_list : list LocusFilter) (call_filters : list CallFilter)
    (st : State) (record view : VcfRecord)
    (si' : gmap string (gmap string num)) :
  ApplyCallFilters record invcf call_filters (sample_info st)
  = Ok (view, si') →
  num_called (samples view) = 0%Z →
  counters_exist filter_list (loc_info st) →
  ∃ st',
    process_record args invcf filter_list call_filters st record = Ok st' ∧
    counters_exist filter_list (loc_info st') ∧
    (∀ w, outvcf st' = outvcf st ++ [w] →
          INFO w !! "HET" = Some (VInt (-1)) ∧
          INFO w !! "HWEP" = Some (VInt (-1))) ∧
    (drop_filtered args = false ∨
     forallb (passes (set_FILTER view VNone)) filter_list = true →
     ∃ w, outvcf st' = outvcf st ++ [w]) ∧
    ∀ c rest,
      match num_records args with
      | Some n => (n <? c + 1)%Z
      | None => false
      end = false →
      records_loop args invcf filter_list call_filters c (record :: rest) st
      = records_loop args invcf filter_list call_filters (c + 1) rest st'.
Proof.
  intros Hcall Hzero Hex.
  destruct (locus_filters_total (drop_filtered args) filter_list view []
              (loc_info st) Hex)
    as (keep & r1 & li1 & Hloop & Hsamp & Hex1 & Hann & Hall).
  simpl in Hloop, Hall.
  assert (Hrun : ∃ st',
    process_record args invcf filter_list call_filters st record = Ok st' ∧
    counters_exist filter_list (loc_info st') ∧
    (∀ w, outvcf st' = outvcf st ++ [w] →
          INFO w !! "HET" = Some (VInt (-1)) ∧
          INFO w !! "HWEP" = Some (VInt (-1))) ∧
    (keep = true → ∃ w, outvcf st' = outvcf st ++ [w])).
  { rewrite (process_record_unfold _ _ _ _ _ _ view si') by done.
    rewrite Hloop. simpl. destruct keep.
    - destruct (recalculate_INFO_no_calls args r1) as (r2 & Hr2 & Hhet & Hhwep);
        [by rewrite Hsamp|].
      rewrite Hr2. simpl.
      destruct (recalc_filter_total args filter_list r2 li1 Hex1)
        as (r3 & li3 & Hr3 & Hinfo & Hex3).
      rewrite Hr3. simpl. eexists. split; [reflexivity|]. simpl.
      split; [done|]. split.
      + intros w Hw. apply app_inv_head in Hw. injection Hw as <-.
        by rewrite Hinfo.
      + intros _. by eexists.
    - eexists. split; [reflexivity|]. simpl. split; [done|]. split; [|done].
      intros w Hw. rewrite <- (app_nil_r (outvcf st)) in Hw at 1.
      by apply app_inv_head in Hw. }
  destruct Hrun as (st' & Hrun & Hex' & Hsent & Hkeep).
  exists st'. split; [done|]. split; [done|]. split; [done|]. split.
  - intros [Hd|Hp]; apply Hkeep; [by apply Hann | by apply Hall].
  - intros c rest Hcut. simpl. rewrite Hcut, Hrun. reflexivity.
Qed.

End DropMode.

(** ** Annotate mode *)


Section AnnotateMode.

Context `{Externals}.

Lemma process_record_annotate args invcf filter_list call_filters st record
    view si' :
  drop_filtered args = false →
  ApplyCallFilters record invcf call_filters (sample_info st)
  = Ok (view, si') →
  counters_exist filter_list (loc_info st) →
  process_record args invcf filter_list call_filters st record
  = (r ← recalculate_INFO args
           (set_FILTER view (filter_status (failing filter_list view)));
     '(w, li) ← recalc_filter args r
                  (count_names (loc_info st) (failing filter_list view));
     Ok (mkState si' li (outvcf st ++ [w]))).
Proof.
  intros Hann Hcall (_ & _ & Hkeys).
  rewrite (process_record_unfold _ _ _ _ _ _ view si') by done.
  rewrite Hann.
  change (set_FILTER view VNone) with (set_FILTER view (filter_status [])).
  by rewrite locus_filters_annotate.
Qed.

(** What one record does to the locus log in annotate mode. *)
Lemma process_record_annotate_spec args invcf filter_list call_filters st
    record view si' st' :
  drop_filtered args = false →
  ApplyCallFilters record invcf call_filters (sample_info st)
  = Ok (view, si') →
  counters_exist filter_list (loc_info st) →
  process_record args invcf filter_list call_filters st record = Ok st' →
  ∃ w,
    outvcf st' = outvcf st ++ [w] ∧
    (failing filter_list view ≠ [] →
       FILTER w = VList (VStr <$> failing filter_list view) ∧
       ∀ k n, loc_info st !! k = Some n →
              loc_info st' !! k
              = Some (n + occurrences k (failing filter_list view))%Z) ∧
    (failing filter_list view = [] →
       FILTER w = VStr "PASS" ∧
       ∃ p t,
         loc_info st !! "PASS" = Some p ∧
         loc_info st !! "totalcalls" = Some t ∧
         loc_info st' !! "PASS" = Some (p + 1)%Z ∧
         loc_info st' !! "totalcalls"
         = Some (t + num_called (samples view))%Z ∧
         ∀ k, k ≠ "PASS" → k ≠ "totalcalls" →
              loc_info st' !! k = loc_info st !! k).
Proof.
  intros Hann Hcall Hex Hrun.
  rewrite (process_record_annotate _ _ _ _ _ _ view si') in Hrun by done.
  apply bind_Ok in Hrun as (r & Hr & Hrun).
  apply recalculate_INFO_frame in Hr as (HF & Hsamp & _). simpl in HF, Hsamp.
  apply bind_Ok in Hrun as ([w li] & Hw & Hrun). simpl in Hrun. res_inv.
  exists w. simpl. split; [done|].
  unfold recalc_filter in Hw. rewrite HF, Hann in Hw.
  destruct (failing filter_list view) as [|name names] eqn:Hnames.
  - split; [done|]. intros _. simpl in Hw.
    unfold count_names in Hw. simpl in Hw.
    apply bind_Ok in Hw as (p & Hp & Hw).
    apply bind_Ok in Hw as (t & Ht & Hw). simpl in Hw. res_inv.
    apply dict_get_Ok in Hp, Ht. rewrite lookup_insert_ne in Ht by done.
    split; [done|]. exists p, t. split; [done|]. split; [done|].
    split; [by rewrite lookup_insert_ne, lookup_insert_eq|].
    split; [by rewrite lookup_insert_eq, Hsamp|].
    intros k Hk1 Hk2. by rewrite !lookup_insert_ne.
  - split; [|done]. intros _. cbn [filter_status is_None andb] in Hw.
    injection Hw as -> <-. split; [done|].
    intros k n Hk.
    change (count_names (alter Z.succ name (loc_info st)) names)
      with (count_names (loc_info st) (name :: names)).
    by rewrite lookup_count_names, Hk.
Qed.

Lemma occurrences_absent (name : string) (names : list string) :
  name ∉ names → occurrences name names = 0%Z.
Proof.
  intros Hnot. unfold occurrences.
  induction names as [|x rest IH]; [done|].
  rewrite not_elem_of_cons in Hnot. destruct Hnot as [Hne Hrest].
  rewrite filter_cons, decide_False by done. by apply IH.
Qed.

Lemma process_record_keeps_counters args invcf filter_list call_filters st
    record st' :
  counters_exist filter_list (loc_info st) →
  process_record args invcf filter_list call_filters st record = Ok st' →
  counters_exist filter_list (loc_info st').
Proof.
  intros Hex Hrun. unfold process_record in Hrun.
  apply bind_Ok in Hrun as ([view si'] & Hcall & Hrun). simpl in Hrun.
  destruct (locus_filters_total (drop_filtered args) filter_list view []
              (loc_info st) Hex)
    as (keep & r1 & li1 & Hloop & _ & Hex1 & _).
  simpl in Hloop. rewrite Hloop in Hrun. simpl in Hrun.
  destruct keep; [|by res_inv].
  apply bind_Ok in Hrun as (r2 & _ & Hrun).
  destruct (recalc_filter_total args filter_list r2 li1 Hex1)
    as (r3 & li3 & Hr3 & _ & Hex3).
  rewrite Hr3 in Hrun. simpl in Hrun. by res_inv.
Qed.

Lemma process_record_pass_counter args invcf filter_list call_filters st
    record st' p :
  drop_filtered args = false →
  "PASS" ∉ filter_name <$> filter_list →
  counters_exist filter_list (loc_info st) →
  loc_info st !! "PASS" = Some p →
  process_record args invcf filter_list call_filters st record = Ok st' →
  ∃ view,
    (∃ si si', ApplyCallFilters record invcf call_filters si
               = Ok (view, si')) ∧
    loc_info st' !! "PASS"
    = Some (if decide (failing filter_list view = [])
            then p + 1 else p)%Z.
Proof.
  intros Hann Hpass Hex Hp Hrun.
  pose proof Hrun as Hstep. unfold process_record in Hstep.
  apply bind_Ok in Hstep as ([view si'] & Hcall & _).
  destruct (process_record_annotate_spec _ _ _ _ _ _ _ _ _ Hann Hcall Hex Hrun)
    as (w & _ & Hfail & Hok).
  exists view. split; [by eexists _, _|].
  destruct (decide (failing filter_list view = [])) as [Hnil|Hsome].
  - destruct (Hok Hnil) as (_ & p0 & t & Hp0 & _ & Hp1 & _). congruence.
  - destruct (Hfail Hsome) as (_ & Hcount).
    rewrite (Hcount _ _ Hp), occurrences_absent; [by rewrite Z.add_0_r|].
    intros Hin. by apply Hpass, (failing_from_names _ view []).
Qed.

Lemma processed_from_cons c args record rest :
  processed_from c args (record :: rest)
  = if match num_records args with
       | Some n => (n <? c + 1)%Z
       | None => false
       end
    then [] else record :: processed_from (c + 1) args rest.
Proof.
  unfold processed_from. destruct (num_records args) as [n|]; [|done].
  destruct (n <? c + 1)%Z eqn:Hcut.
  - apply Z.ltb_lt in Hcut. by replace (Z.to_nat (n - c)) with 0%nat by lia.
  - apply Z.ltb_ge in Hcut.
    by replace (Z.to_nat (n - c)) with (S (Z.to_nat (n - (c + 1)))) by lia.
Qed.

Lemma records_loop_accounting args invcf filter_list call_filters :
  drop_filtered args = false →
  "PASS" ∉ filter_name <$> filter_list →
  ∀ records c st st' p,
    counters_exist filter_list (loc_info st) →
    loc_info st !! "PASS" = Some p →
    records_loop args invcf filter_list call_filters c records st = Ok st' →
    ∃ views p',
      Forall2 (λ record view, ∃ si si',
                 ApplyCallFilters record invcf call_filters si
                 = Ok (view, si'))
        (processed_from c args records) views ∧
      loc_info st' !! "PASS" = Some p' ∧
      (p' + Z.of_nat (loci_with_failure filter_list views))%Z
      = (p + Z.of_nat (length (processed_from c args records)))%Z.
Proof.
  intros Hann Hpass. induction records as [|record rest IH];
    intros c st st' p Hex Hp Hrun.
  - simpl in Hrun. res_inv. exists [], p.
    replace (processed_from c args []) with (@nil VcfRecord)
      by (unfold processed_from; destruct (num_records args);
          by rewrite ?take_nil).
    split; [constructor|]. split; [done|]. unfold loci_with_failure. simpl. lia.
  - rewrite processed_from_cons. simpl in Hrun.
    destruct (match num_records args with
              | Some n => (n <? c + 1)%Z
              | None => false
              end).
    + res_inv. exists [], p. split; [constructor|]. split; [done|]. unfold loci_with_failure. simpl. lia.
    + apply bind_Ok in Hrun as (st1 & H1 & Hrun).
      destruct (process_record_pass_counter _ _ _ _ _ _ _ _ Hann Hpass Hex Hp H1)
        as (view & Hview & Hp1).
      pose proof (process_record_keeps_counters _ _ _ _ _ _ _ Hex H1) as Hex1.
      destruct (IH _ _ _ _ Hex1 Hp1 Hrun) as (views & p' & Hviews & Hp' & Heq).
      exists (view :: views), p'. split; [by constructor|]. split; [done|].
      unfold loci_with_failure in *. rewrite filter_cons. simpl.
      destruct (decide (failing filter_list view = [])) as [Hnil|Hsome].
      * rewrite decide_False by (intros Hc; by apply Hc). lia.
      * rewrite decide_True by done. simpl. lia.
Qed.

Lemma init_loc_info_counters (filter_list : list LocusFilter) :
  counters_exist filter_list (init_loc_info filter_list).
Proof.
  unfold init_loc_info.
  assert (Hgen : ∀ (l : list LocusFilter) (li : gmap string Z) k,
            is_Some (li !! k) ∨ k ∈ filter_name <$> l →
            is_Some (foldl (λ li filt, <[filter_name filt := 0%Z]> li) li l
                       !! k)).
  { induction l as [|filt rest IH]; intros li k [Hk|Hk]; simpl.
    - done.
    - by apply elem_of_nil in Hk.
    - apply IH. left. destruct (decide (k = filter_name filt)) as [->|?].
      + rewrite lookup_insert_eq. by eexists.
      + by rewrite lookup_insert_ne.
    - rewrite fmap_cons in Hk. apply elem_of_cons in Hk as [->|Hk].
      + apply IH. left. rewrite lookup_insert_eq. by eexists.
      + apply IH. by right. }
  split; [|split].
  - apply Hgen. left. rewrite lookup_insert_eq. by eexists.
  - apply Hgen. left. rewrite lookup_insert_ne by done.
    rewrite lookup_insert_eq. by eexists.
  - intros filt Hin. apply Hgen. right. apply list_elem_of_fmap. by exists filt.
Qed.

(** C4 (amended). In annotate mode every registered locus filter is
    evaluated at every processed locus: the names of all the failing filters
    are added to the locus's filter status in registration order and the
    fail counter of each is raised; a locus with no failing filter is marked
    PASS, the PASS counter is raised by one and the locus's number of
    completed calls is added to totalcalls. Provided no registered locus
    filter is named PASS, the PASS counter and the number of loci with a
    failing filter add up to the number of loci processed. *)
Theorem annotate_mode_accounting (args : Args) (invcf : Reader)
    (filter_list : list LocusFilter) (call_filters : list CallFilter) :
  drop_filtered args = false →
  (∀ st record view si' st',
     ApplyCallFilters record invcf call_filters (sample_info st)
     = Ok (view, si') →
     counters_exist filter_list (loc_info st) →
     process_record args invcf filter_list call_filters st record = Ok st' →
     ∃ w,
       outvcf st' = outvcf st ++ [w] ∧
       (failing filter_list view ≠ [] →
          FILTER w = VList (VStr <$> failing filter_list view) ∧
          ∀ k n, loc_info st !! k = Some n →
                 loc_info st' !! k
                 = Some (n + occurrences k (failing filter_list view))%Z) ∧
       (failing filter_list view = [] →
          FILTER w = VStr "PASS" ∧
          ∃ p t,
            loc_info st !! "PASS" = Some p ∧
            loc_info st !! "totalcalls" = Some t ∧
            loc_info st' !! "PASS" = Some (p + 1)%Z ∧
            loc_info st' !! "totalcalls"
            = Some (t + num_called (samples view))%Z ∧
            ∀ k, k ≠ "PASS" → k ≠ "totalcalls" →
                 loc_info st' !! k = loc_info st !! k)) ∧
  ("PASS" ∉ filter_name <$> filter_list →
   ∀ records, pass_accounting args invcf filter_list call_filters records).
Proof.
  intros Hann. split.
  - intros st record view si' st'. by apply process_record_annotate_spec.
  - intros Hpass records si0 st' Hrun.
    destruct (records_loop_accounting _ _ _ _ Hann Hpass records 0%Z
                (mkState si0 (init_loc_info filter_list) []) st' 0%Z
                (init_loc_info_counters filter_list)
                (init_loc_info_PASS filter_list) Hrun)
      as (views & p' & Hviews & Hp' & Heq).
    exists views, p'.
    replace (processed args records) with (processed_from 0 args records)
      by (unfold processed, processed_from; destruct (num_records args);
          by rewrite ?Z.sub_0_r).
    split; [done|]. split; [done|]. lia.
Qed.

End AnnotateMode.
(** ** Allele counts *)

Lemma mapM_Forall2 {A B} (g : A → res B) (l : list A) (k : list B) :
  mapM g l = Ok k → Forall2 (λ x y, g x = Ok y) l k.
Proof.
  revert k. induction l as [|x l IH]; intros k Hm; simpl in Hm.
  - res_inv. constructor.
  - res_inv. constructor; [done|]. by apply IH.
Qed.

Lemma alt_allele_counts_spec (freqs : list float) (n : Z) (ac : list Z) :
  alt_allele_counts freqs n = Ok ac →
  Forall2 (λ f c, ∃ g, float_of_int (2 * n) = Ok g ∧
                       int_of_float (f * g)%float = Ok c) freqs ac.
Proof.
  intros Hm. apply mapM_Forall2 in Hm.
  eapply Forall2_impl; [exact Hm|]. simpl. intros f c Hc.
  unfold mul, arith in Hc. res_inv. by exists a0.
Qed.

Lemma ref_allele_count_nil (n : Z) : ref_allele_count [] n = Ok (2 * n)%Z.
Proof. unfold ref_allele_count. simpl. f_equal. lia. Qed.

Lemma ref_allele_count_cons (f : float) (l : list float) (n refac : Z) :
  ref_allele_count (f :: l) n = Ok refac →
  ∃ g, float_of_int (2 * n) = Ok g ∧
       int_of_float ((1 - foldl PrimFloat.add 0%float (f :: l)) * g)%float
       = Ok refac.
Proof.
  unfold ref_allele_count. rewrite sum_cons. intros Hr.
  cbn [mbind res_bind] in Hr. unfold sub, arith in Hr.
  rewrite float_of_int_1 in Hr. cbn [mbind res_bind] in Hr.
  unfold mul, arith in Hr.
  apply bind_Ok in Hr as (p & Hp & Hr).
  apply bind_Ok in Hp as (g & Hg & Hp). injection Hp as <-.
  by exists g.
Qed.

Section AlleleCounts.

Context `{Externals}.

Lemma recalculate_INFO_counts args record record' :
  (0 < num_called (samples record))%Z →
  recalculate_INFO args record = Ok record' →
  ∃ ac refac,
    alt_allele_counts (aaf (ALT record) (samples record))
      (num_called (samples record)) = Ok ac ∧
    ref_allele_count (aaf (ALT record) (samples record))
      (num_called (samples record)) = Ok refac ∧
    INFO record' !! "AC" = Some (VList (VInt <$> ac)) ∧
    INFO record' !! "REFAC" = Some (VInt refac).
Proof.
  intros Hpos Hr. unfold recalculate_INFO in Hr. simpl in Hr.
  apply Z.ltb_lt in Hpos. rewrite Hpos in Hr.
  apply bind_Ok in Hr as (ac & Hac & Hr).
  apply bind_Ok in Hr as (refac & Hrefac & Hr). simpl in *. res_inv.
  exists ac, refac. split; [done|]. split; [done|]. simpl. split.
  - rewrite lookup_insert_ne by done. apply lookup_insert_eq.
  - apply lookup_insert_eq.
Qed.

Lemma recalc_filter_INFO args record loc_info record' loc_info' :
  recalc_filter args record loc_info = Ok (record', loc_info') →
  INFO record' = INFO record.
Proof.
  unfold recalc_filter.
  destruct (is_None (FILTER record) && negb (drop_filtered args));
    intros Hr; res_inv; done.
Qed.

Lemma locus_filters_frame drop (filter_list : list LocusFilter) record
    loc_info keep record' loc_info' :
  locus_filters drop filter_list record loc_info
  = Ok (keep, record', loc_info') →
  samples record' = samples record ∧ ALT record' = ALT record.
Proof.
  revert record loc_info.
  induction filter_list as [|filt rest IH]; intros record loc_info; simpl.
  - intros. by res_inv.
  - destruct (is_None (lf_call filt record)); [apply IH|].
    destruct drop; [intros; by res_inv|].
    intros Hrun. res_inv. apply IH in Hrun as [-> ->].
    unfold add_filter in Ha. destruct (FILTER record); by res_inv.
Qed.

(** The allele counts of a written record. *)
Lemma written_allele_counts args invcf filter_list call_filters st record
    view si' st' w :
  ApplyCallFilters record invcf call_filters (sample_info st)
  = Ok (view, si') →
  process_record args invcf filter_list call_filters st record = Ok st' →
  outvcf st' = outvcf st ++ [w] →
  (0 < num_called (samples view))%Z →
  ∃ ac refac,
    INFO w !! "AC" = Some (VList (VInt <$> ac)) ∧
    INFO w !! "REFAC" = Some (VInt refac) ∧
    alt_allele_counts (aaf (ALT view) (samples view))
      (num_called (samples view)) = Ok ac ∧
    ref_allele_count (aaf (ALT view) (samples view))
      (num_called (samples view)) = Ok refac.
Proof.
  intros Hcall Hrun Hout Hpos.
  rewrite (process_record_unfold _ _ _ _ _ _ view si') in Hrun by done.
  apply bind_Ok in Hrun as ([[keep r1] li1] & Hloop & Hrun). simpl in Hrun.
  apply locus_filters_frame in Hloop as [Hs Ha]. simpl in Hs, Ha.
  destruct keep.
  - apply bind_Ok in Hrun as (r2 & Hr2 & Hrun).
    apply bind_Ok in Hrun as ([r3 li3] & Hr3 & Hrun). simpl in Hrun. res_inv.
    simpl in Hout. apply app_inv_head in Hout. injection Hout as ->.
    apply recalc_filter_INFO in Hr3.
    apply recalculate_INFO_counts in Hr2 as (ac & refac & Hac & Href & H1 & H2);
      [|by rewrite Hs].
    exists ac, refac. rewrite Hr3, <- Ha, <- Hs. done.
  - res_inv. simpl in Hout. rewrite <- (app_nil_r (outvcf st)) in Hout at 1.
    by apply app_inv_head in Hout.
Qed.

End AlleleCounts.
(** ** Outcomes of the stages on the example inputs *)

Lemma get_Ok_returns {A} (d : A) (r : res A) :
  Examples.returns r = true → r = Ok (Examples.get_Ok d r).
Proof. by destruct r. Qed.

Lemma get_Ok_pair {A B} (d : A * B) (r : res (A * B)) :
  Examples.returns r = true →
  r = Ok ((Examples.get_Ok d r).1, (Examples.get_Ok d r).2).
Proof. by destruct r as [[a b]|e]. Qed.

Lemma get_Ok_triple {A B C} (d : A * B * C) (r : res (A * B * C)) :
  Examples.returns r = true →
  r = Ok ((Examples.get_Ok d r).1.1, (Examples.get_Ok d r).1.2,
          (Examples.get_Ok d r).2).
Proof. by destruct r as [[[a b] c]|e]. Qed.

Lemma written_last (d x : VcfRecord) (l : list VcfRecord) (st : State) :
  outvcf st = l ++ [x] → outvcf st = l ++ [Examples.written d st].
Proof. intros Hout. unfold Examples.written. by rewrite Hout, last_snoc. Qed.

(** The outcome of a stage that returns, by name: the names are unfolded
    first, so that the equation is an instance of one of the lemmas above. *)
Ltac by_outcome :=
  repeat match goal with x := _ |- _ => subst x end;
  unfold Examples.whole_run, Examples.loop_run, Examples.record_stage,
    Examples.call_stage, Examples.loc_log, Examples.samp_log;
  first [apply get_Ok_triple | apply get_Ok_pair | apply get_Ok_returns];
  by_evaluation.

Lemma int_of_float_truncated (x : float) (c : Z) :
  int_of_float x = Ok c → truncated_toward_zero x c.
Proof.
  intros Hc. unfold truncated_toward_zero.
  destruct (Prim2SF x) as [s|s| |s m e] eqn:Hx.
  - unfold int_of_float in Hc. rewrite Hx in Hc. by injection Hc as <-.
  - unfold int_of_float in Hc. by rewrite Hx in Hc.
  - unfold int_of_float in Hc. by rewrite Hx in Hc.
  - destruct (int_of_float_truncates x s m e c Hx Hc) as (Hsign & Hpos & Hneg).
    split; [destruct s; lia|].
    destruct (decide (0 <= e)%Z) as [He|He].
    + rewrite (Z.max_l 0 (- e)), (Z.max_r 0 e) by lia.
      rewrite (Hpos He). simpl. lia.
    + rewrite (Z.max_r 0 (- e)), (Z.max_l 0 e) by lia.
      rewrite Z.pow_0_r, Z.mul_1_r. apply Hneg. lia.
Qed.

Lemma truncated_toward_zero_unique (x : float) (c c' : Z) :
  truncated_toward_zero x c → truncated_toward_zero x c' → c = c'.
Proof.
  unfold truncated_toward_zero.
  destruct (Prim2SF x) as [s|s| |s m e]; try done; [congruence|].
  intros [Hs [Hlo Hhi]] [Hs' [Hlo' Hhi']].
  assert (Hp : (0 < 2 ^ Z.max 0 (- e))%Z) by (apply Z.pow_pos_nonneg; lia).
  assert (Habs : Z.abs c = Z.abs c') by nia.
  destruct s; lia.
Qed.

(** C2. For every written locus with at least one completed call, each
    emitted AC is the product of the alternate allele's frequency and twice
    the number of completed calls, truncated toward zero, and REFAC is the
    product of one minus the sum of the frequencies and twice the number of
    completed calls, truncated toward zero: REFAC is computed from the
    frequencies, not from the AC values. Whatever the input, a locus with
    five completed calls and an alternate allele of frequency 9/10 is
    written with AC = [9] and REFAC = 0; such a locus exists, and there
    REFAC and the AC values add up to 9, not to twice the number of
    completed calls. *)
Theorem allele_counts_truncated_independently :
  (∀ (E : Externals) args invcf filter_list call_filters st record view si'
     st' w,
     ApplyCallFilters record invcf call_filters (sample_info st)
     = Ok (view, si') →
     process_record args invcf filter_list call_filters st record = Ok st' →
     outvcf st' = outvcf st ++ [w] →
     (0 < num_called (samples view))%Z →
     (∃ ac refac,
        INFO w !! "AC" = Some (VList (VInt <$> ac)) ∧
        INFO w !! "REFAC" = Some (VInt refac) ∧
        Forall2 (λ f c, ∃ g,
                   float_of_int (2 * num_called (samples view)) = Ok g ∧
                   truncated_toward_zero (f * g)%float c)
          (aaf (ALT view) (samples view)) ac ∧
        (aaf (ALT view) (samples view) = [] →
         refac = (2 * num_called (samples view))%Z) ∧
        (aaf (ALT view) (samples view) ≠ [] →
         ∃ g, float_of_int (2 * num_called (samples view)) = Ok g ∧
              truncated_toward_zero
                ((1 - foldl PrimFloat.add 0%float
                        (aaf (ALT view) (samples view))) * g)%float
                refac)) ∧
     (num_called (samples view) = 5%Z →
      aaf (ALT view) (samples view) = [(9 / 10)%float] →
      INFO w !! "AC" = Some (VList [VInt 9]) ∧
      INFO w !! "REFAC" = Some (VInt 0))) ∧
  (let invcf := with_FILTER_format Examples.hdr5 in
   let st := Examples.state0 Examples.hdr5 Examples.filters_default in
   ∃ st' w,
     @process_record Demo.ext Examples.no_args invcf
       Examples.filters_default [] st Examples.locus_9_of_10 = Ok st' ∧
     outvcf st' = outvcf st ++ [w] ∧
     @num_called Demo.ext (samples w) = 5%Z ∧
     @aaf Demo.ext (ALT w) (samples w) = [(9 / 10)%float] ∧
     INFO w !! "AC" = Some (VList [VInt 9]) ∧
     INFO w !! "REFAC" = Some (VInt 0) ∧
     (0 + foldr Z.add 0 [9])%Z ≠ (2 * @num_called Demo.ext (samples w))%Z).
Proof.
  split.
  - intros E args invcf filter_list call_filters st record view si' st' w
      Hcall Hrun Hout Hpos.
    destruct (written_allele_counts _ _ _ _ _ _ _ _ _ _ Hcall Hrun Hout Hpos)
      as (ac & refac & Hac & Hrefac & Halt & Href).
    split.
    + exists ac, refac. split; [done|]. split; [done|]. split; [|split].
      * apply alt_allele_counts_spec in Halt.
        eapply Forall2_impl; [exact Halt|]. simpl.
        intros f c (g & Hg & Hc). exists g. split; [done|].
        by apply int_of_float_truncated.
      * intros Hnil. rewrite Hnil, ref_allele_count_nil in Href. congruence.
      * intros Hsome.
        destruct (aaf (ALT view) (samples view)) as [|f l]; [done|].
        apply ref_allele_count_cons in Href as (g & Hg & Hc).
        exists g. split; [done|]. by apply int_of_float_truncated.
    + intros Hn Hf. rewrite Hn, Hf in Halt, Href.
      assert (Hac9 : alt_allele_counts [(9 / 10)%float] 5 = Ok [9%Z])
        by by_evaluation.
      assert (Href0 : ref_allele_count [(9 / 10)%float] 5 = Ok 0%Z)
        by by_evaluation.
      rewrite Hac9 in Halt. rewrite Href0 in Href.
      injection Halt as <-. injection Href as <-. done.
  - intros invcf st.
    pose (st' := Examples.record_stage Examples.no_args invcf
                   Examples.filters_default [] st Examples.locus_9_of_10).
    pose (out := Examples.call_stage invcf [] st Examples.locus_9_of_10).
    assert (Hrun : @process_record Demo.ext Examples.no_args invcf
                     Examples.filters_default [] st Examples.locus_9_of_10
                   = Ok st') by by_outcome.
    assert (Hcall : ApplyCallFilters Examples.locus_9_of_10 invcf []
                      (sample_info st) = Ok (out.1, out.2)) by by_outcome.
    exists st', (Examples.written Examples.locus_9_of_10 st').
    split; [exact Hrun|]. split.
    { destruct (@process_record_annotate_spec Demo.ext Examples.no_args
                  invcf Examples.filters_default [] st
                  Examples.locus_9_of_10 out.1 out.2 st' eq_refl Hcall
                  (init_loc_info_counters _) Hrun)
        as (w & Hout & _).
      by apply (written_last _ w). }
    split; [by_evaluation|]. split; [by_evaluation|].
    split; [by_evaluation|]. split; [by_evaluation|]. by vm_compute.
Qed.
(** ** The properties on the example inputs *)

Section Counterexamples.

Import Examples.

#[local] Existing Instance Demo.ext.


(** C4, counterexample. With a region filter named PASS, one locus inside
    the region is processed: the filter fails, the counter kept under PASS
    is 1 at the end of the run, and with the one locus that has a failing
    filter this makes 2, not the 1 locus processed. *)
Lemma filter_named_PASS_breaks_accounting :
  BuildLocusFilters args_region_PASS = Ok filters_region_PASS ∧
  ¬ pass_accounting args_region_PASS (with_FILTER_format hdr)
      filters_region_PASS (BuildCallFilters args_region_PASS)
      [locus_in_regions].
Proof.
  split; [reflexivity|]. intros Hacc.
  pose (st := state0 hdr filters_region_PASS).
  pose (st' := record_stage args_region_PASS (with_FILTER_format hdr)
                 filters_region_PASS [] st locus_in_regions).
  assert (Hrun : records_loop args_region_PASS (with_FILTER_format hdr)
                   filters_region_PASS (BuildCallFilters args_region_PASS)
                   0 [locus_in_regions] st = Ok st') by by_evaluation.
  destruct (Hacc _ _ Hrun) as (views & pass & Hviews & Hpass & Heq).
  assert (Hone : loc_info st' !! "PASS" = Some 1%Z) by by_evaluation.
  rewrite Hone in Hpass. injection Hpass as <-.
  change (processed args_region_PASS [locus_in_regions])
    with [locus_in_regions] in Hviews, Heq.
  apply Forall2_cons_inv_l in Hviews
    as (view & views' & (si & si' & Hview) & Hnil & ->).
  apply Forall2_nil_inv_l in Hnil as ->.
  pose (out := call_stage (with_FILTER_format hdr) [] st locus_in_regions).
  assert (Hview0 : ApplyCallFilters locus_in_regions (with_FILTER_format hdr)
                     (BuildCallFilters args_region_PASS) (sample_info st)
                   = Ok (out.1, out.2)) by by_evaluation.
  rewrite (ApplyCallFilters_view _ _ _ _ _ _ _ _ _ Hview Hview0) in Heq.
  assert (Hfail : loci_with_failure filters_region_PASS [out.1] = 1%nat)
    by by_evaluation.
  rewrite Hfail in Heq. discriminate Heq.
Qed.

End Counterexamples.

Section FailingInputs.

Import Examples.

#[local] Existing Instance Demo.ext.

(** C6, at the failing input. The FORMAT string GT:DP:NFILTER contains
    FILTER, so the output schema gets no FILTER attribute: the call of s1,
    whose genotype is present and on which no call filter is registered, is
    written with its attributes carried over and counted in numcalls and in
    the depth sum, but it carries no status PASS. *)
Theorem passed_call_without_status :
  BuildCallFilters no_args = [] ∧
  fields_of locus_NFILTER = ["GT"; "DP"; "NFILTER"] ∧
  ∃ w out row samplog loclog,
    main no_args hdr_NFILTER [locus_NFILTER]
    = Ok ([w], row :: samplog, loclog) ∧
    samples w !! 0%nat = Some out ∧
    sample out = "s1" ∧
    call_get out "GT" = Ok (VStr "0/1") ∧
    call_get out "DP" = Ok (VInt 20) ∧
    call_get out "FILTER" = Raise AttributeError ∧
    row_sample row = "s1" ∧ row_numcalls row = PInt 1 ∧
    row_meanDP row = VFloat 20.
Proof.
  split; [reflexivity|]. split; [reflexivity|].
  pose (run := whole_run no_args hdr_NFILTER [locus_NFILTER]).
  exists (written locus_NFILTER (mkState ∅ ∅ run.1.1)),
    (mkCall "s1" [("GT", VStr "0/1"); ("DP", VInt 20);
                  ("NFILTER", VStr "ok")]),
    (default (mkSampRow "" (PInt 0) VNone []) (head run.1.2)),
    (tail run.1.2), run.2.
  split; [by_evaluation|]. split; [by_evaluation|].
  split; [reflexivity|]. split; [reflexivity|]. split; [reflexivity|].
  split; [reflexivity|]. split; [by_evaluation|]. split; by_evaluation.
Qed.

(** C7, at the failing input. For the same record the call of s2, whose
    genotype is missing, is written with its attributes carried over and
    without touching the statistics, but it carries no status NOCALL. *)
Theorem missing_call_without_status :
  fields_of locus_NFILTER = ["GT"; "DP"; "NFILTER"] ∧
  ∃ w out samplog loclog,
    main no_args hdr_NFILTER [locus_NFILTER] = Ok ([w], samplog, loclog) ∧
    samples w !! 1%nat = Some out ∧
    sample out = "s2" ∧
    call_get out "GT" = Ok (VStr "./.") ∧
    is_nocall (VStr "./.") = true ∧
    call_get out "FILTER" = Raise AttributeError.
Proof.
  split; [reflexivity|].
  pose (run := whole_run no_args hdr_NFILTER [locus_NFILTER]).
  exists (written locus_NFILTER (mkState ∅ ∅ run.1.1)),
    (mkCall "s2" [("GT", VStr "./."); ("DP", VInt 0);
                  ("NFILTER", VStr "ok")]),
    run.1.2, run.2.
  split; [by_evaluation|]. split; [by_evaluation|].
  repeat split; reflexivity.
Qed.

(** With the FORMAT string GT:DP the same calls get their status. *)
Example calls_with_status :
  ∃ w samplog loclog,
    main no_args hdr [locus_half_called] = Ok ([w], samplog, loclog) ∧
    (λ c, call_get c "FILTER") <$> samples w
    = [Ok (VStr "NOCALL"); Ok (VStr "PASS")].
Proof.
  pose (run := whole_run no_args hdr [locus_half_called]).
  exists (written locus_half_called (mkState ∅ ∅ run.1.1)), run.1.2, run.2.
  split; by_evaluation.
Qed.

(** The scenario of two calls of depth 5 and 20 under a minimum call depth
    of 10: the first call fails with the reason LowCallDepth, the second
    passes. *)
Example scenario_min_call_DP :
  ∃ w loclog,
    main args_min_DP hdr [locus_5_20]
    = Ok ([w],
          [mkSampRow "s1" (PInt 0) (VInt 0)
             [PInt 0; PInt 0; PInt 0; PInt 1; PInt 0];
           mkSampRow "s2" (PInt 1) (VFloat 20)
             [PInt 0; PInt 0; PInt 0; PInt 0; PInt 0]],
          loclog) ∧
    samples w
    = [mkCall "s1" [("GT", VStr "./."); ("DP", VNone);
                    ("FILTER", VStr "LowCallDepth")];
       mkCall "s2" [("GT", VStr "1/1"); ("DP", VInt 20);
                    ("FILTER", VStr "PASS")]].
Proof.
  pose (run := whole_run args_min_DP hdr [locus_5_20]).
  exists (written locus_5_20 (mkState ∅ ∅ run.1.1)), run.2.
  split; by_evaluation.
Qed.

End FailingInputs.

Section Witnesses.

Import Examples.

#[local] Existing Instance Demo.ext.

Lemma drop_mode_excludes_failing_locus_witness :
  let invcf := with_FILTER_format hdr in
  let st := state0 hdr filters_callrate in
  let out := call_stage invcf [] st locus_half_called in
  process_record args_drop_callrate invcf filters_callrate [] st
    locus_half_called
  = Ok (mkState out.2 (loc_info st) (outvcf st)).
Proof.
  intros invcf st out.
  apply (drop_mode_excludes_failing_locus args_drop_callrate invcf
           filters_callrate [] st locus_half_called out.1 out.2).
  - reflexivity.
  - by_evaluation.
  - by_evaluation.
Defined.

Lemma allele_counts_truncated_independently_witness :
  let invcf := with_FILTER_format hdr5 in
  let st := state0 hdr5 filters_default in
  let st' := record_stage no_args invcf filters_default [] st locus_9_of_10 in
  INFO (written locus_9_of_10 st') !! "AC" = Some (VList [VInt 9]) ∧
  INFO (written locus_9_of_10 st') !! "REFAC" = Some (VInt 0).
Proof.
  intros invcf st st'.
  pose (out := call_stage invcf [] st locus_9_of_10).
  assert (Hrun : process_record no_args invcf filters_default [] st
                   locus_9_of_10 = Ok st') by by_outcome.
  assert (Hcall : ApplyCallFilters locus_9_of_10 invcf [] (sample_info st)
                  = Ok (out.1, out.2)) by by_outcome.
  destruct (proj1 allele_counts_truncated_independently Demo.ext no_args
              invcf filters_default [] st locus_9_of_10 out.1 out.2 st'
              (written locus_9_of_10 st') Hcall Hrun)
    as [_ Hnine].
  - destruct (process_record_annotate_spec no_args invcf filters_default
                [] st locus_9_of_10 out.1 out.2 st' eq_refl Hcall
                (init_loc_info_counters _) Hrun)
      as (w & Hout & _).
    by apply (written_last _ w).
  - by vm_compute.
  - apply Hnine; by_evaluation.
Defined.


Lemma annotate_mode_accounting_witness :
  pass_accounting no_args (with_FILTER_format hdr) filters_two_names []
    [locus_5_20; locus_in_regions].
Proof.
  apply (annotate_mode_accounting no_args (with_FILTER_format hdr)
           filters_two_names []); [reflexivity|].
  apply (bool_decide_unpack _). by vm_compute.
Defined.

Lemma call_filters_all_evaluated_witness :
  FilterCall (call "s1" "0/1" 5) (BuildCallFilters args_min_DP)
  = GetReason <$> firing (call "s1" "0/1" 5) (BuildCallFilters args_min_DP).
Proof.
  apply (call_filters_all_evaluated fmt_GT_DP_FILTER
           (BuildCallFilters args_min_DP) si0 (call "s1" "0/1" 5)
           (VStr "0/1") info0).
  - reflexivity.
  - reflexivity.
  - apply (bool_decide_unpack _). by vm_compute.
  - apply (bool_decide_unpack _). by vm_compute.
  - apply (bool_decide_unpack _). by vm_compute.
  - by_evaluation.
  - intros cfilt ->%list_elem_of_singleton. exists (PInt 0). by_evaluation.
Defined.

Lemma zero_calls_sentinels_witness :
  let invcf := with_FILTER_format hdr in
  let st := state0 hdr filters_default in
  ∃ st',
    process_record no_args invcf filters_default [] st locus_no_calls
    = Ok st'.
Proof.
  intros invcf st.
  pose (out := call_stage invcf [] st locus_no_calls).
  destruct (zero_calls_sentinels no_args invcf filters_default [] st
              locus_no_calls out.1 out.2)
    as (st' & Hrun & _).
  - by_evaluation.
  - by_evaluation.
  - apply init_loc_info_counters.
  - by exists st'.
Defined.

Lemma drop_mode_never_marks_pass_witness :
  let run := whole_run args_drop hdr [locus_5_20] in
  main args_drop hdr [locus_5_20] = Ok run ∧
  FILTER (written locus_5_20 (mkState ∅ ∅ run.1.1)) = VNone ∧
  MeanSamplesPerPassingSTR run.2 = VInt 0.
Proof.
  intros run.
  assert (Hmain : main args_drop hdr [locus_5_20]
                  = Ok (run.1.1, run.1.2, run.2)) by by_evaluation.
  split; [by_evaluation|]. split; [by_evaluation|].
  destruct (drop_mode_never_marks_pass args_drop hdr eq_refl)
    as (_ & _ & Hlog).
  exact (Hlog _ _ _ _ Hmain).
Defined.

Lemma failed_call_attributes_null_witness :
  let smp := call "s1" "0/1" 5 in
  let cfs := BuildCallFilters args_min_DP in
  let out := get_Ok (smp, si0) (filter_sample fmt_GT_DP_FILTER cfs si0 smp) in
  call_get out.1 "DP" = Ok VNone.
Proof.
  intros smp cfs out.
  destruct (failed_call_attributes_null fmt_GT_DP_FILTER cfs si0 out.2 smp
              out.1 (VStr "0/1"))
    as (_ & _ & Hnull).
  - reflexivity.
  - reflexivity.
  - intros Hnil.
    assert (Hf : FilterCall smp cfs = ["LowCallDepth"]) by by_evaluation.
    rewrite FilterCall_firing, Hnil in Hf. discriminate Hf.
  - by_evaluation.
  - apply Hnull; [by right; left|done|done].
Defined.

End Witnesses.
(** ** The configuration: checks and builders *)

Lemma ERROR_Ok (cond : bool) : ERROR cond = Ok tt ↔ cond = false.
Proof. destruct cond; simpl; split; congruence. Qed.

Lemma bind_unit_Ok (m : res unit) (k : res unit) :
  (m ≫= λ _, k) = Ok tt ↔ m = Ok tt ∧ k = Ok tt.
Proof.
  destruct m as [[]|e]; simpl; split; try tauto; try (intros [? ?]; congruence).
  intros ?; congruence.
Qed.

Lemma bind_unit_outcome (m k : res unit) :
  (m = Ok tt ∨ m = Raise SystemExit) → (k = Ok tt ∨ k = Raise SystemExit) →
  (m ≫= λ _, k) = Ok tt ∨ (m ≫= λ _, k) = Raise SystemExit.
Proof. intros [->| ->] Hk; simpl; tauto. Qed.

Lemma ERROR_cases (cond : bool) :
  ERROR cond = Ok tt ∨ ERROR cond = Raise SystemExit.
Proof. destruct cond; simpl; tauto. Qed.

Lemma CheckFilters_valid (invcf : Reader) (args : Args) :
  CheckFilters invcf args = Ok tt → valid_call_options invcf args.
Proof.
  unfold CheckFilters, valid_call_options. rewrite !bind_unit_Ok.
  destruct (min_call_DP args) as [lo|], (max_call_DP args) as [hi|],
    (min_call_Q args) as [q|], (max_call_flank_indel args) as [x|],
    (max_call_stutter args) as [y|];
    rewrite ?bind_unit_Ok, ?ERROR_Ok, ?orb_false_iff, ?negb_false_iff,
      ?Z.ltb_ge, ?Z.leb_gt;
    intros H; repeat split; intros; simplify_eq; try tauto; try lia;
    try (intros; simplify_eq; tauto).
Qed.

Lemma CheckFilters_cases (invcf : Reader) (args : Args) :
  CheckFilters invcf args = Ok tt ∨
  CheckFilters invcf args = Raise SystemExit.
Proof.
  unfold CheckFilters.
  repeat (apply bind_unit_outcome || apply ERROR_cases);
    destruct (min_call_DP args), (max_call_DP args), (min_call_Q args),
      (max_call_flank_indel args), (max_call_stutter args);
    repeat (apply bind_unit_outcome || apply ERROR_cases); by left.
Qed.

(** X1. [CheckFilters] accepts exactly the configurations whose call-level
    options are valid, and exits on every other one: each threshold that is
    given must be in range, the depth bounds in order, and the attributes
    that its filter reads declared in the header. *)
Theorem CheckFilters_accepts_valid_options (invcf : Reader) (args : Args) :
  (CheckFilters invcf args = Ok tt ↔ valid_call_options invcf args) ∧
  (CheckFilters invcf args = Ok tt ∨
   CheckFilters invcf args = Raise SystemExit).
Proof.
  split; [|apply CheckFilters_cases].
  split; [apply CheckFilters_valid|].
  unfold CheckFilters, valid_call_options. rewrite !bind_unit_Ok.
  intros (H1 & H2 & H3 & H4 & H5).
  destruct (min_call_DP args) as [lo|], (max_call_DP args) as [hi|],
    (min_call_Q args) as [q|], (max_call_flank_indel args) as [x|],
    (max_call_stutter args) as [y|];
    rewrite ?bind_unit_Ok, ?ERROR_Ok, ?orb_false_iff, ?negb_false_iff,
      ?Z.ltb_ge, ?Z.leb_gt;
    repeat match goal with
           | H : ∀ z, Some ?a = Some z → _ |- _ => specialize (H a eq_refl)
           end;
    repeat split; try tauto;
    try (destruct H2 as (_ & _ & H2); by apply H2).
Qed.

Section Builders.

Context `{Externals}.

Ltac sublist_of_five :=
  repeat first [apply sublist_nil | apply sublist_skip | apply sublist_cons].

(** X2. [BuildCallFilters] registers one call filter per call-level
    threshold that is given, and no other. When the five classes of call
    filters stand for distinct reasons, no two registered filters have the
    same reason. *)
Theorem BuildCallFilters_distinct_reasons (args : Args) :
  distinct_reasons →
  length (BuildCallFilters args)
  = (given (min_call_DP args) + given (max_call_DP args)
     + given (min_call_Q args) + given (max_call_flank_indel args)
     + given (max_call_stutter args))%nat ∧
  NoDup (GetReason <$> BuildCallFilters args).
Proof.
  intros Hdist. unfold BuildCallFilters.
  pose (a := default 0%Z (min_call_DP args)).
  pose (b := default 0%Z (max_call_DP args)).
  pose (c := default 0%float (min_call_Q args)).
  pose (d := default 0%float (max_call_flank_indel args)).
  pose (e := default 0%float (max_call_stutter args)).
  specialize (Hdist a b c d e). subst a b c d e.
  destruct (min_call_DP args), (max_call_DP args), (min_call_Q args),
    (max_call_flank_indel args), (max_call_stutter args);
    (split; [reflexivity|]); simpl in *;
    (eapply sublist_NoDup; [exact Hdist|sublist_of_five]).
Qed.

End Builders.

Section LocusBuilder.

Context `{Externals}.

Lemma region_filters_None args :
  filter_regions args = None → region_filters args = Ok [].
Proof. unfold region_filters. by intros ->. Qed.

Lemma zip_with_lookup_seq {A B} (g : string → A → B) (names : list string)
    (files : list A) i file :
  length names = length files → files !! i = Some file →
  zip_with g names files !! i = Some (g (default "" (names !! i)) file).
Proof.
  intros Hlen Hi. rewrite lookup_zip_with.
  destruct (names !! i) as [n|] eqn:Hn.
  - simpl. by rewrite Hi.
  - apply lookup_ge_None in Hn. apply lookup_lt_Some in Hi. lia.
Qed.

Lemma region_filters_outcome args :
  match region_filters args with
  | Ok l =>
      length l = length (region_files args) ∧
      (∀ names, filter_regions args ≠ None →
                filter_regions_names args = Some names →
                length (split "," names) = length (region_files args)) ∧
      ∀ i file, region_files args !! i = Some file →
                l !! i = Some (create_region_filter (region_name args i) file)
  | Raise e =>
      e = SystemExit ∧
      ∃ regions names,
        filter_regions args = Some regions ∧
        filter_regions_names args = Some names ∧
        length (split "," names) ≠ length (split "," regions)
  end.
Proof.
  unfold region_filters, region_files, region_name.
  destruct (filter_regions args) as [regions|]; [|by repeat split].
  destruct (filter_regions_names args) as [names|]; simpl.
  - destruct (length (split "," names) =? length (split "," regions))
      eqn:Hlen; simpl.
    + apply Nat.eqb_eq in Hlen. split; [|split].
      * rewrite length_zip_with. lia.
      * intros ? _ [= <-]. done.
      * intros i file Hi. by apply zip_with_lookup_seq.
    + apply Nat.eqb_neq in Hlen. split; [done|]. by exists regions, names.
  - split; [|split].
    + rewrite length_zip_with, length_map, length_seq. lia.
    + done.
    + intros i file Hi. rewrite lookup_zip_with.
      rewrite list_lookup_fmap, lookup_seq_lt by (by eapply lookup_lt_Some).
      simpl. by rewrite Hi.
Qed.

(** X3. The homopolymer filter is registered whatever the flag
    [--filter-hrun]: the list of locus filters does not depend on the flag,
    and always has the filter. *)
Theorem BuildLocusFilters_always_hrun (args : Args) :
  (∀ b, BuildLocusFilters (set_filter_hrun args b) = BuildLocusFilters args) ∧
  (∀ filter_list, BuildLocusFilters args = Ok filter_list →
                  Filter_LocusHrun ∈ filter_list).
Proof.
  split.
  - intros b. unfold BuildLocusFilters, region_filters. simpl.
    by destruct b, (filter_hrun args).
  - intros filter_list Hb. unfold BuildLocusFilters in Hb.
    apply bind_Ok in Hb as (regions & _ & Hb). injection Hb as <-.
    destruct (filter_hrun args);
      apply elem_of_app; left; apply elem_of_app; right; by left.
Qed.


End LocusBuilder.

(** ** The statistics at the start of the run *)

Lemma foldl_insert_const {V} (v : V) (keys : list string)
    (m : gmap string V) (k : string) :
  foldl (λ d r, <[r := v]> d) m keys !! k
  = if decide (k ∈ keys) then Some v else m !! k.
Proof.
  revert m. induction keys as [|r rest IH]; intros m; cbn [foldl].
  - case_decide as Hin; [by apply elem_of_nil in Hin|done].
  - rewrite IH. destruct (decide (k ∈ rest)) as [Hin|Hnot].
    + rewrite decide_True by (by right). done.
    + destruct (decide (k = r)) as [->|Hne].
      * rewrite decide_True by (by left). apply lookup_insert_eq.
      * rewrite decide_False by (by intros [?|?]%elem_of_cons).
        by rewrite lookup_insert_ne.
Qed.

Lemma init_loc_info_fold (filter_list : list LocusFilter) :
  init_loc_info filter_list
  = foldl (λ d r, <[r := 0%Z]> d)
      (<["PASS" := 0%Z]> (<["totalcalls" := 0%Z]> ∅))
      (filter_name <$> filter_list).
Proof.
  unfold init_loc_info.
  generalize (<["PASS" := 0%Z]> (<["totalcalls" := 0%Z]> (∅ : gmap string Z))).
  induction filter_list as [|f l IH]; intros m; simpl; [done|]. apply IH.
Qed.

Lemma init_loc_info_zero (filter_list : list LocusFilter) k v :
  init_loc_info filter_list !! k = Some v → v = 0%Z.
Proof.
  rewrite init_loc_info_fold, foldl_insert_const.
  destruct (decide (k ∈ filter_name <$> filter_list)); [congruence|].
  destruct (decide (k = "PASS")) as [->|Hp].
  - rewrite lookup_insert_eq. congruence.
  - rewrite lookup_insert_ne by done.
    destruct (decide (k = "totalcalls")) as [->|Ht].
    + rewrite lookup_insert_eq. congruence.
    + by rewrite lookup_insert_ne.
Qed.

Lemma init_loc_info_name (filter_list : list LocusFilter) k :
  k = "PASS" ∨ k = "totalcalls" ∨ k ∈ filter_name <$> filter_list →
  init_loc_info filter_list !! k = Some 0%Z.
Proof.
  intros Hk. destruct (init_loc_info filter_list !! k) as [v|] eqn:Hv.
  - by rewrite (init_loc_info_zero _ _ _ Hv).
  - exfalso. revert Hv. rewrite init_loc_info_fold, foldl_insert_const.
    destruct (decide (k ∈ filter_name <$> filter_list)); [done|].
    destruct Hk as [->|[->|Hk]]; [| |done].
    + by rewrite lookup_insert_eq.
    + rewrite lookup_insert_ne by done. by rewrite lookup_insert_eq.
Qed.

Lemma init_sample_info_entry (names reasons : list string) (s : string) :
  s ∈ names → init_sample_info names reasons !! s = Some (init_info reasons).
Proof.
  intros Hs. unfold init_sample_info. fold (init_info reasons).
  rewrite foldl_insert_const. by rewrite decide_True.
Qed.

(** X5. When the run starts, the locus log has a counter for PASS, for
    totalcalls and for every registered filter name, and no other; every
    counter is 0. *)
Theorem init_loc_info_lookup (filter_list : list LocusFilter) (k : string) :
  init_loc_info filter_list !! k
  = if decide (k = "PASS" ∨ k = "totalcalls"
               ∨ k ∈ filter_name <$> filter_list)
    then Some 0%Z else None.
Proof.
  rewrite init_loc_info_fold, foldl_insert_const.
  destruct (decide (k ∈ filter_name <$> filter_list)) as [Hin|Hnot].
  - rewrite decide_True by tauto. done.
  - destruct (decide (k = "PASS")) as [->|Hp].
    + rewrite decide_True by tauto. apply lookup_insert_eq.
    + rewrite lookup_insert_ne by done.
      destruct (decide (k = "totalcalls")) as [->|Ht].
      * rewrite decide_True by tauto. apply lookup_insert_eq.
      * rewrite lookup_insert_ne by done. rewrite decide_False by tauto. done.
Qed.

Lemma init_info_lookup (reasons : list string) (k : string) :
  init_info reasons !! k
  = if decide (k = "numcalls" ∨ k = "totaldp" ∨ k ∈ reasons)
    then Some (PInt 0) else None.
Proof.
  unfold init_info. rewrite foldl_insert_const.
  destruct (decide (k ∈ reasons)) as [Hin|Hnot].
  - rewrite decide_True by tauto. done.
  - destruct (decide (k = "totaldp")) as [->|Ht].
    + rewrite decide_True by tauto. apply lookup_insert_eq.
    + rewrite lookup_insert_ne by done.
      destruct (decide (k = "numcalls")) as [->|Hn].
      * rewrite decide_True by tauto. apply lookup_insert_eq.
      * rewrite lookup_insert_ne by done. rewrite decide_False by tauto. done.
Qed.

(** X6. When the run starts, the sample statistics have an entry for every
    sample of the header, and no other; in every entry numcalls, the depth
    sum and the counter of every known reason are 0, and there is no other
    counter. *)
Theorem init_sample_info_lookup (names reasons : list string)
    (s k : string) :
  init_sample_info names reasons !! s
  = (if decide (s ∈ names) then Some (init_info reasons) else None) ∧
  init_info reasons !! k
  = if decide (k = "numcalls" ∨ k = "totaldp" ∨ k ∈ reasons)
    then Some (PInt 0) else None.
Proof.
  split; [|apply init_info_lookup].
  unfold init_sample_info. fold (init_info reasons).
  rewrite foldl_insert_const. destruct (decide (s ∈ names)); [done|].
  apply lookup_empty.
Qed.

(** ** The call-level stage: shape, status and statistics *)

Lemma mapM_res_length {A B} (g : A → res B) (l : list A) (k : list B) :
  mapM g l = Ok k → length k = length l.
Proof.
  revert k. induction l as [|x l IH]; intros k Hm; simpl in Hm; res_inv.
  - done.
  - simpl. f_equal. by apply IH.
Qed.

Lemma Forall2_fmap_eq {A B C} (f : A → C) (g : B → C) (l : list A)
    (k : list B) :
  Forall2 (λ x y, f x = g y) l k → f <$> l = g <$> k.
Proof.
  induction 1 as [|x y l k Hxy _ IH]; [done|].
  rewrite !fmap_cons. by rewrite Hxy, IH.
Qed.

Lemma filter_sample_shape (samp_fmt : CallData) call_filters si smp out si' :
  filter_sample samp_fmt call_filters si smp = Ok (out, si') →
  sample out = sample smp ∧ (data out).*1 = _fields samp_fmt.
Proof.
  unfold filter_sample. intros Hrun.
  apply bind_Ok in Hrun as (gt & Hgt & Hrun).
  destruct (is_nocall gt).
  - apply bind_Ok in Hrun as (sampdat & Hdat & Hrun). injection Hrun as <- <-.
    split; [done|]. simpl. apply fst_zip.
    rewrite (mapM_res_length _ _ _ Hdat). done.
  - destruct (FilterCall smp call_filters).
    + res_inv. split; [done|]. simpl. apply fst_zip.
      match goal with H : mapM _ _ = Ok _ |- _ =>
        rewrite (mapM_res_length _ _ _ H) end. done.
    + res_inv. split; [done|]. simpl. apply fst_zip. by rewrite length_map.
Qed.

Lemma filter_sample_status (samp_fmt : CallData) call_filters si smp out si' :
  filter_sample samp_fmt call_filters si smp = Ok (out, si') →
  "FILTER" ∈ _fields samp_fmt →
  call_get out "FILTER" = Ok (VStr (status_of call_filters smp)).
Proof.
  intros Hrun Hin. pose proof Hrun as Hgt. unfold filter_sample in Hgt.
  apply bind_Ok in Hgt as (gt & Hgt & _).
  unfold status_of, missing. rewrite Hgt.
  destruct (is_nocall gt) eqn:Hno.
  - rewrite (filter_sample_nocall _ _ _ _ gt) in Hrun by done.
    apply bind_Ok in Hrun as (sampdat & Hdat & Hrun). injection Hrun as <- <-.
    unfold call_get. simpl. by rewrite (data_get_zip_mapM _ _ _ _ Hdat Hin).
  - destruct (firing smp call_filters) as [|cf rest] eqn:Hf.
    + rewrite (filter_sample_pass _ _ _ _ gt) in Hrun by done.
      apply bind_Ok in Hrun as (s1 & _ & Hrun).
      apply bind_Ok in Hrun as (dp & _ & Hrun).
      apply bind_Ok in Hrun as (s2 & _ & Hrun).
      apply bind_Ok in Hrun as (sampdat & Hdat & Hrun).
      injection Hrun as <- <-.
      unfold call_get. simpl. by rewrite (data_get_zip_mapM _ _ _ _ Hdat Hin).
    + rewrite (filter_sample_fail _ _ _ _ gt) in Hrun
        by (done || by rewrite Hf).
      apply bind_Ok in Hrun as (s1 & _ & Hrun). injection Hrun as <- <-.
      unfold call_get, cleared_data. simpl.
      rewrite data_get_zip_map by done. simpl. by rewrite Hf.
Qed.

Lemma filter_samples_shape (samp_fmt : CallData) call_filters l :
  ∀ si out si',
    filter_samples samp_fmt call_filters si l = Ok (out, si') →
    Forall2 (λ smp c,
               sample c = sample smp ∧ (data c).*1 = _fields samp_fmt ∧
               ("FILTER" ∈ _fields samp_fmt →
                call_get c "FILTER"
                = Ok (VStr (status_of call_filters smp)))) l out.
Proof.
  induction l as [|smp rest IH]; intros si out si' Hrun; simpl in Hrun.
  - res_inv. constructor.
  - apply bind_Ok in Hrun as ([c s1] & Hc & Hrun). simpl in Hrun.
    apply bind_Ok in Hrun as ([cs s2] & Hcs & Hrun). simpl in Hrun.
    injection Hrun as <- <-. constructor; [|by eapply IH].
    destruct (filter_sample_shape _ _ _ _ _ _ Hc) as [Hs Hd].
    split; [done|]. split; [done|]. by apply filter_sample_status with si s1.
Qed.

Lemma make_samp_fmt_fields (reader : Reader) (record : VcfRecord) samp_fmt :
  make_samp_fmt reader record = Ok samp_fmt →
  _fields samp_fmt = fields_of record.
Proof.
  unfold make_samp_fmt. intros Hm.
  apply bind_Ok in Hm as ([tys ns] & _ & Hm). by injection Hm as <-.
Qed.

(** X7. The call-level stage rewrites the calls of a record and nothing
    else: the other fields of the record, the FORMAT string among them, are
    left as they were; the output has one call per input call, for the same
    samples in the same order; and every output call has exactly the
    attributes of the output schema. *)
Theorem ApplyCallFilters_rewrites_calls_only (record : VcfRecord)
    (reader : Reader) (call_filters : list CallFilter)
    (si si' : gmap string (gmap string num)) (view : VcfRecord) :
  ApplyCallFilters record reader call_filters si = Ok (view, si') →
  view = set_samples record (samples view) ∧
  sample <$> samples view = sample <$> samples record ∧
  Forall (λ c, (data c).*1 = fields_of record) (samples view).
Proof.
  unfold ApplyCallFilters. intros Hrun.
  apply bind_Ok in Hrun as (samp_fmt & Hfmt & Hrun).
  apply bind_Ok in Hrun as ([new s1] & Hnew & Hrun). simpl in Hrun.
  injection Hrun as <- <-. simpl. split; [done|].
  apply filter_samples_shape in Hnew.
  rewrite (make_samp_fmt_fields _ _ _ Hfmt) in Hnew.
  split.
  - symmetry. apply (Forall2_fmap_eq sample sample).
    eapply Forall2_impl; [exact Hnew|]. by intros smp c (-> & _).
  - eapply Forall2_Forall_r; [exact Hnew|]. apply Forall_forall.
    by intros smp _ c (_ & Hd & _).
Qed.

(** X8. When the output schema has the attribute FILTER, every output call
    carries exactly one status, decided by its input call and the
    registered filters alone: NOCALL when the genotype is missing, PASS when
    it is present and no filter fires, and otherwise the comma-separated
    reasons of all the filters that fire, in registration order. *)
Theorem ApplyCallFilters_status (record : VcfRecord) (reader : Reader)
    (call_filters : list CallFilter)
    (si si' : gmap string (gmap string num)) (view : VcfRecord) :
  ApplyCallFilters record reader call_filters si = Ok (view, si') →
  "FILTER" ∈ fields_of record →
  Forall2 (λ smp c, call_get c "FILTER"
                    = Ok (VStr (status_of call_filters smp)))
    (samples record) (samples view).
Proof.
  unfold ApplyCallFilters. intros Hrun Hin.
  apply bind_Ok in Hrun as (samp_fmt & Hfmt & Hrun).
  apply bind_Ok in Hrun as ([new s1] & Hnew & Hrun). simpl in Hrun.
  injection Hrun as <- <-. simpl.
  apply filter_samples_shape in Hnew.
  rewrite (make_samp_fmt_fields _ _ _ Hfmt) in Hnew.
  eapply Forall2_impl; [exact Hnew|]. simpl. intros smp c (_ & _ & Hs).
  by apply Hs.
Qed.

Lemma bump_inv (si : gmap string (gmap string num)) name key v si' :
  bump si name key v = Ok si' →
  ∃ info old new,
    si !! name = Some info ∧ info !! key = Some old ∧
    add_val old v = Ok new ∧ si' = <[name := <[key := new]> info]> si.
Proof.
  unfold bump. intros Hb.
  apply bind_Ok in Hb as (info & Hi & Hb).
  apply bind_Ok in Hb as (old & Ho & Hb).
  apply bind_Ok in Hb as (new & Hn & Hb). injection Hb as <-.
  apply dict_get_Ok in Hi, Ho. by exists info, old, new.
Qed.

Lemma bump_reasons_inv (si : gmap string (gmap string num)) name reasons si' :
  bump_reasons si name reasons = Ok si' →
  reasons = [] ∧ si' = si ∨
  ∃ info, si !! name = Some info ∧
          si' = <[name := foldl (λ d r, alter incr r d) info reasons]> si.
Proof.
  revert si. induction reasons as [|r rest IH]; intros si Hb; simpl in Hb.
  - left. by injection Hb as <-.
  - right. apply bind_Ok in Hb as (si1 & H1 & Hb).
    apply bump_inv in H1 as (info & old & new & Hi & Ho & Hn & ->).
    rewrite add_val_1 in Hn. injection Hn as <-.
    exists info. split; [done|].
    assert (Halter : <[r := incr old]> info = alter incr r info).
    { apply map_eq. intros k. destruct (decide (k = r)) as [->|Hne].
      - by rewrite lookup_insert_eq, lookup_alter_eq, Ho.
      - by rewrite lookup_insert_ne, lookup_alter_ne. }
    apply IH in Hb as [[-> ->]|(info1 & Hi1 & ->)].
    + simpl. by rewrite Halter.
    + rewrite lookup_insert_eq in Hi1. injection Hi1 as <-.
      rewrite insert_insert_eq. simpl. by rewrite Halter.
Qed.

(** What the body of the loop over the calls does to the statistics. *)
Lemma filter_sample_stats (samp_fmt : CallData) call_filters si smp out si' :
  filter_sample samp_fmt call_filters si smp = Ok (out, si') →
  (missing smp = true ∧ si' = si) ∨
  (missing smp = false ∧ firing smp call_filters ≠ [] ∧
   ∃ info, si !! sample smp = Some info ∧
     si' = <[sample smp := foldl (λ d r, alter incr r d) info
                             (GetReason <$> firing smp call_filters)]> si) ∨
  (completed call_filters smp = true ∧
   ∃ info n dp t,
     si !! sample smp = Some info ∧ info !! "numcalls" = Some n ∧
     call_get smp "DP" = Ok dp ∧ info !! "totaldp" = Some t ∧
     ∃ t', add_val t dp = Ok t' ∧
     si' = <[sample smp := <["totaldp" := t']>
                             (<["numcalls" := incr n]> info)]> si).
Proof.
  intros Hrun. pose proof Hrun as Hgt. unfold filter_sample in Hgt.
  apply bind_Ok in Hgt as (gt & Hgt & _).
  unfold completed, missing. rewrite Hgt.
  destruct (is_nocall gt) eqn:Hno.
  - left. rewrite (filter_sample_nocall _ _ _ _ gt) in Hrun by done.
    apply bind_Ok in Hrun as (sampdat & _ & Hrun). by injection Hrun as _ <-.
  - right. destruct (decide (firing smp call_filters = [])) as [Hf|Hf].
    + right. rewrite bool_decide_eq_true_2 by done. split; [done|].
      rewrite (filter_sample_pass _ _ _ _ gt) in Hrun by done.
      apply bind_Ok in Hrun as (s1 & H1 & Hrun).
      apply bind_Ok in Hrun as (dp & Hdp & Hrun).
      apply bind_Ok in Hrun as (s2 & H2 & Hrun).
      apply bind_Ok in Hrun as (sampdat & _ & Hrun). injection Hrun as _ <-.
      apply bump_inv in H1 as (info & n & n' & Hi & Hn & Hadd & ->).
      rewrite add_val_1 in Hadd. injection Hadd as <-.
      apply bump_inv in H2 as (info2 & t & t' & Hi2 & Ht & Hadd & ->).
      rewrite lookup_insert_eq in Hi2. injection Hi2 as <-.
      rewrite lookup_insert_ne in Ht by done.
      exists info, n, dp, t. repeat split; try done.
      exists t'. split; [done|]. by rewrite insert_insert_eq.
    + left. split; [done|]. split; [done|].
      rewrite (filter_sample_fail _ _ _ _ gt) in Hrun by done.
      apply bind_Ok in Hrun as (s1 & H1 & Hrun). injection Hrun as _ <-.
      apply bump_reasons_inv in H1 as [[Hnil _]|H1]; [|done].
      by apply fmap_nil_inv in Hnil.
Qed.

Lemma firing_reasons_subset (smp : Call) (call_filters : list CallFilter) r :
  r ∈ GetReason <$> firing smp call_filters → r ∈ GetReason <$> call_filters.
Proof.
  intros (cfilt & -> & Hin)%list_elem_of_fmap.
  apply list_elem_of_fmap. exists cfilt. split; [done|].
  unfold firing in Hin. by apply list_elem_of_filter in Hin as [_ ?].
Qed.

Lemma filter_sample_counter (samp_fmt : CallData) call_filters si smp out si'
    (s key : string) info n :
  filter_sample samp_fmt call_filters si smp = Ok (out, si') →
  NoDup (GetReason <$> call_filters) →
  "numcalls" ∉ GetReason <$> call_filters →
  "totaldp" ∉ GetReason <$> call_filters →
  (key = "totaldp" → sample smp = s → completed call_filters smp = true →
   ∃ d, call_get smp "DP" = Ok (VInt d)) →
  si !! s = Some info → info !! key = Some (PInt n) →
  ∃ info',
    si' !! s = Some info' ∧
    info' !! key
    = Some (PInt (n + (if decide (sample smp = s)
                       then contribution call_filters key smp else 0))).
Proof.
  intros Hrun Hnd Hnc Htd Hdp Hs Hk. unfold contribution, fired.
  destruct (filter_sample_stats _ _ _ _ _ _ Hrun)
    as [[Hm ->]|[(Hm & Hf & info0 & Hi & ->)
                |(Hc & info0 & n0 & dp & t & Hi & Hn & Hd & Ht & t' & Hadd & ->)]].
  - exists info. split; [done|]. rewrite Hk. do 2 f_equal.
    unfold completed. rewrite Hm. simpl. repeat case_decide; lia.
  - assert (Hcomp : completed call_filters smp = false).
    { unfold completed. rewrite Hm. simpl. by apply bool_decide_eq_false_2. }
    rewrite Hcomp, Hm. simpl.
    destruct (decide (sample smp = s)) as [<-|Hne].
    + rewrite Hs in Hi. injection Hi as <-.
      rewrite lookup_insert_eq. eexists. split; [done|].
      destruct (decide (key = "numcalls")) as [->|Hk1].
      { rewrite lookup_counted_other, Hk; [do 2 f_equal; lia|].
        intros Hin. by apply Hnc, (firing_reasons_subset smp). }
      destruct (decide (key = "totaldp")) as [->|Hk2].
      { rewrite lookup_counted_other, Hk; [do 2 f_equal; lia|].
        intros Hin. by apply Htd, (firing_reasons_subset smp). }
      destruct (decide (key ∈ GetReason <$> firing smp call_filters))
        as [Hin|Hnot].
      * rewrite bool_decide_eq_true_2 by done.
        rewrite lookup_counted_once, Hk;
          [done|by apply firing_reasons_NoDup|done].
      * rewrite bool_decide_eq_false_2 by done.
        rewrite lookup_counted_other, Hk by done. do 2 f_equal. lia.
    + rewrite lookup_insert_ne by done. exists info. split; [done|].
      rewrite Hk. do 2 f_equal. lia.
  - rewrite Hc.
    assert (Hfire : firing smp call_filters = []).
    { unfold completed in Hc. apply andb_true_iff in Hc as [_ Hc].
      by apply bool_decide_eq_true in Hc. }
    rewrite Hfire. simpl.
    destruct (decide (sample smp = s)) as [<-|Hne].
    + rewrite Hs in Hi. injection Hi as <-.
      rewrite lookup_insert_eq. eexists. split; [done|].
      destruct (decide (key = "numcalls")) as [->|Hk1].
      { rewrite lookup_insert_ne, lookup_insert_eq by done.
        rewrite Hk in Hn. by injection Hn as <-. }
      destruct (decide (key = "totaldp")) as [->|Hk2].
      { rewrite lookup_insert_eq. rewrite Hk in Ht. injection Ht as <-.
        destruct (Hdp eq_refl eq_refl Hc) as [d Hdd].
        rewrite Hd in Hdd. injection Hdd as ->.
        simpl in Hadd. injection Hadd as <-.
        unfold depth. by rewrite Hd. }
      rewrite !lookup_insert_ne by done. rewrite Hk.
      rewrite andb_false_r. do 2 f_equal. lia.
    + rewrite lookup_insert_ne by done. exists info. split; [done|].
      rewrite Hk. do 2 f_equal. lia.
Qed.

Lemma filter_samples_counter (samp_fmt : CallData) call_filters
    (s key : string) l :
  NoDup (GetReason <$> call_filters) →
  "numcalls" ∉ GetReason <$> call_filters →
  "totaldp" ∉ GetReason <$> call_filters →
  (key = "totaldp" → integer_depths call_filters s l) →
  ∀ si out si' info n,
    filter_samples samp_fmt call_filters si l = Ok (out, si') →
    si !! s = Some info → info !! key = Some (PInt n) →
    ∃ info',
      si' !! s = Some info' ∧
      info' !! key = Some (PInt (n + contributions call_filters key s l)).
Proof.
  intros Hnd Hnc Htd. induction l as [|smp rest IH];
    intros Hdp si out si' info n Hrun Hs Hk; simpl in Hrun.
  - res_inv. exists info. split; [done|]. rewrite Hk. simpl.
    do 2 f_equal. lia.
  - apply bind_Ok in Hrun as ([c s1] & Hc & Hrun). simpl in Hrun.
    apply bind_Ok in Hrun as ([cs s2] & Hcs & Hrun). simpl in Hrun.
    injection Hrun as <- <-.
    destruct (filter_sample_counter _ _ _ _ _ _ s key info n Hc Hnd Hnc Htd)
      as (info1 & Hs1 & Hk1); [|done|done|].
    { intros Hkey. specialize (Hdp Hkey). by inversion Hdp. }
    destruct (IH (λ Hkey, Forall_inv_tail (Hdp Hkey)) _ _ _ _ _ Hcs Hs1 Hk1)
      as (info2 & Hs2 & Hk2).
    exists info2. split; [done|]. rewrite Hk2. simpl. do 2 f_equal. lia.
Qed.

Lemma contributions_app call_filters key s (l k : list Call) :
  contributions call_filters key s (l ++ k)
  = (contributions call_filters key s l
     + contributions call_filters key s k)%Z.
Proof.
  unfold contributions. induction l as [|c l IH]; simpl; [done|].
  rewrite IH. lia.
Qed.

Lemma contributions_numcalls call_filters s (l : list Call) :
  contributions call_filters "numcalls" s l
  = Z.of_nat (length (calls_of s (completed call_filters) l)).
Proof.
  unfold contributions, calls_of, contribution.
  induction l as [|c l IH]; [done|].
  cbn [foldr]. rewrite IH, filter_cons.
  rewrite (decide_True (P := "numcalls" = "numcalls")) by done.
  destruct (decide (sample c = s)) as [Hs|Hs].
  - destruct (completed call_filters c) eqn:Hc.
    + rewrite decide_True by done. simpl. lia.
    + rewrite decide_False by (intros [_ ?]; done). lia.
  - rewrite decide_False by (intros [? _]; done). lia.
Qed.

Lemma contributions_reason call_filters r s (l : list Call) :
  r ≠ "numcalls" → r ≠ "totaldp" →
  contributions call_filters r s l
  = Z.of_nat (length (calls_of s (fired call_filters r) l)).
Proof.
  intros Hn Ht. unfold contributions, calls_of, contribution.
  induction l as [|c l IH]; [done|].
  cbn [foldr]. rewrite IH, filter_cons.
  rewrite (decide_False (P := r = "numcalls")) by done.
  rewrite (decide_False (P := r = "totaldp")) by done.
  destruct (decide (sample c = s)) as [Hs|Hs].
  - destruct (fired call_filters r c) eqn:Hc.
    + rewrite decide_True by done. simpl. lia.
    + rewrite decide_False by (intros [_ ?]; done). lia.
  - rewrite decide_False by (intros [? _]; done). lia.
Qed.

Lemma contributions_totaldp call_filters s (l : list Call) :
  contributions call_filters "totaldp" s l
  = total_depth (calls_of s (completed call_filters) l).
Proof.
  unfold contributions, calls_of, contribution, total_depth.
  induction l as [|c l IH]; [done|].
  cbn [foldr]. rewrite IH, filter_cons.
  rewrite (decide_False (P := "totaldp" = "numcalls")) by done.
  rewrite (decide_True (P := "totaldp" = "totaldp")) by done.
  destruct (decide (sample c = s)) as [Hs|Hs].
  - destruct (completed call_filters c) eqn:Hc.
    + rewrite decide_True by done. simpl. lia.
    + rewrite decide_False by (intros [_ ?]; done). lia.
  - rewrite decide_False by (intros [? _]; done). lia.
Qed.

Lemma integer_depths_app call_filters s (l k : list Call) :
  integer_depths call_filters s (l ++ k) ↔
  integer_depths call_filters s l ∧ integer_depths call_filters s k.
Proof. apply Forall_app. Qed.

Section SampleStatistics.

Context `{Externals}.

Lemma ApplyCallFilters_counter record reader call_filters si view si'
    (s key : string) info n :
  ApplyCallFilters record reader call_filters si = Ok (view, si') →
  NoDup (GetReason <$> call_filters) →
  "numcalls" ∉ GetReason <$> call_filters →
  "totaldp" ∉ GetReason <$> call_filters →
  (key = "totaldp" → integer_depths call_filters s (samples record)) →
  si !! s = Some info → info !! key = Some (PInt n) →
  ∃ info',
    si' !! s = Some info' ∧
    info' !! key
    = Some (PInt (n + contributions call_filters key s (samples record))).
Proof.
  unfold ApplyCallFilters. intros Hrun Hnd Hnc Htd Hdp Hs Hk.
  apply bind_Ok in Hrun as (samp_fmt & _ & Hrun).
  apply bind_Ok in Hrun as ([new s1] & Hnew & Hrun). simpl in Hrun.
  injection Hrun as _ <-.
  by eapply filter_samples_counter.
Qed.

Lemma process_record_sample_info args invcf filter_list call_filters st
    record st' :
  process_record args invcf filter_list call_filters st record = Ok st' →
  ∃ view,
    ApplyCallFilters record invcf call_filters (sample_info st)
    = Ok (view, sample_info st').
Proof.
  unfold process_record. intros Hrun.
  apply bind_Ok in Hrun as ([view si'] & Hcall & Hrun). simpl in Hrun.
  apply bind_Ok in Hrun as ([[keep r1] li1] & _ & Hrun). simpl in Hrun.
  exists view. destruct keep.
  - apply bind_Ok in Hrun as (r2 & _ & Hrun).
    apply bind_Ok in Hrun as ([r3 li3] & _ & Hrun). simpl in Hrun.
    by injection Hrun as <-.
  - by injection Hrun as <-.
Qed.

Lemma records_loop_counter args invcf filter_list call_filters
    (s key : string) :
  NoDup (GetReason <$> call_filters) →
  "numcalls" ∉ GetReason <$> call_filters →
  "totaldp" ∉ GetReason <$> call_filters →
  ∀ records c st st' info n,
    (key = "totaldp" →
     integer_depths call_filters s
       (processed_from c args records ≫= samples)) →
    records_loop args invcf filter_list call_filters c records st = Ok st' →
    sample_info st !! s = Some info → info !! key = Some (PInt n) →
    ∃ info',
      sample_info st' !! s = Some info' ∧
      info' !! key
      = Some (PInt (n + contributions call_filters key s
                         (processed_from c args records ≫= samples))).
Proof.
  intros Hnd Hnc Htd. induction records as [|record rest IH];
    intros c st st' info n Hdp Hrun Hs Hk.
  - simpl in Hrun. injection Hrun as <-.
    replace (processed_from c args []) with (@nil VcfRecord)
      by (unfold processed_from; destruct (num_records args);
          by rewrite ?take_nil).
    exists info. split; [done|]. rewrite Hk. simpl. do 2 f_equal. lia.
  - rewrite processed_from_cons in Hdp |- *. simpl in Hrun.
    destruct (match num_records args with
              | Some n => (n <? c + 1)%Z
              | None => false
              end).
    + injection Hrun as <-. exists info. split; [done|]. rewrite Hk.
      simpl. do 2 f_equal. lia.
    + apply bind_Ok in Hrun as (st1 & H1 & Hrun).
      apply process_record_sample_info in H1 as (view & Hcall).
      rewrite bind_cons in Hdp |- *.
      destruct (ApplyCallFilters_counter _ _ _ _ _ _ s key info n Hcall
                  Hnd Hnc Htd) as (info1 & Hs1 & Hk1); [|done|done|].
      { intros Hkey. by apply integer_depths_app in Hdp as [? _]. }
      destruct (IH (c + 1)%Z st1 st' info1 _
                  (λ Hkey, proj2 (proj1 (integer_depths_app _ _ _ _)
                                    (Hdp Hkey))) Hrun Hs1 Hk1)
        as (info2 & Hs2 & Hk2).
      exists info2. split; [done|]. rewrite Hk2, contributions_app.
      do 2 f_equal. lia.
Qed.

End SampleStatistics.

Section SampleStatisticsRun.

Context `{Externals}.

(** X9. Over a run, the numcalls counter of a sample grows by the number
    of its completed calls in the processed records, and the counter of a
    reason by the number of its calls on which a filter with that reason
    fired, provided the registered call filters have pairwise distinct
    reasons, none of them named numcalls or totaldp. The calls of a locus
    count whether or not the locus is written. *)
Theorem sample_counters_after_run (args : Args) (invcf : Reader)
    (filter_list : list LocusFilter) (call_filters : list CallFilter)
    (records : list VcfRecord) (st st' : State) (s : string)
    (info : gmap string num) :
  NoDup (GetReason <$> call_filters) →
  "numcalls" ∉ GetReason <$> call_filters →
  "totaldp" ∉ GetReason <$> call_filters →
  records_loop args invcf filter_list call_filters 0 records st = Ok st' →
  sample_info st !! s = Some info →
  (∀ n, info !! "numcalls" = Some (PInt n) →
        ∃ info',
          sample_info st' !! s = Some info' ∧
          info' !! "numcalls"
          = Some (PInt (n + Z.of_nat
                             (length (calls_of s (completed call_filters)
                                        (processed args records
                                         ≫= samples)))))) ∧
  (∀ r n, r ≠ "numcalls" → r ≠ "totaldp" →
          info !! r = Some (PInt n) →
          ∃ info',
            sample_info st' !! s = Some info' ∧
            info' !! r
            = Some (PInt (n + Z.of_nat
                               (length (calls_of s (fired call_filters r)
                                          (processed args records
                                           ≫= samples)))))).
Proof.
  intros Hnd Hnc Htd Hrun Hs.
  replace (processed args records) with (processed_from 0 args records)
    by (unfold processed, processed_from; destruct (num_records args);
        by rewrite ?Z.sub_0_r).
  split.
  - intros n Hn. rewrite <- contributions_numcalls.
    by eapply records_loop_counter.
  - intros r n Hr1 Hr2 Hn. rewrite <- contributions_reason by done.
    eapply records_loop_counter; try done.
Qed.

(** X10. Over a run, the depth sum of a sample grows by the sum of the
    depths of its completed calls in the processed records, provided these
    depths are integers and the registered call filters have pairwise
    distinct reasons, none of them named numcalls or totaldp. *)
Theorem sample_depth_after_run (args : Args) (invcf : Reader)
    (filter_list : list LocusFilter) (call_filters : list CallFilter)
    (records : list VcfRecord) (st st' : State) (s : string)
    (info : gmap string num) (t : Z) :
  NoDup (GetReason <$> call_filters) →
  "numcalls" ∉ GetReason <$> call_filters →
  "totaldp" ∉ GetReason <$> call_filters →
  integer_depths call_filters s (processed args records ≫= samples) →
  records_loop args invcf filter_list call_filters 0 records st = Ok st' →
  sample_info st !! s = Some info →
  info !! "totaldp" = Some (PInt t) →
  ∃ info',
    sample_info st' !! s = Some info' ∧
    info' !! "totaldp"
    = Some (PInt (t + total_depth
                        (calls_of s (completed call_filters)
                           (processed args records ≫= samples)))).
Proof.
  intros Hnd Hnc Htd Hdp Hrun Hs Ht. revert Hdp.
  replace (processed args records) with (processed_from 0 args records)
    by (unfold processed, processed_from; destruct (num_records args);
        by rewrite ?Z.sub_0_r).
  intros Hdp. rewrite <- contributions_totaldp.
  by eapply records_loop_counter.
Qed.

End SampleStatisticsRun.

(** ** The call-level stage: registration order, errors and totality *)

(** X29. [FilterCall] returns the reasons of the filters that fire, in
    registration order: a subsequence of the reasons of the registered
    filters, empty exactly when every filter returns nothing; over a
    concatenation of filter lists it is the concatenation of the results. *)
Theorem FilterCall_in_registration_order (smp : Call)
    (call_filters more : list CallFilter) :
  FilterCall smp call_filters `sublist_of` GetReason <$> call_filters ∧
  (FilterCall smp call_filters = [] ↔
   Forall (λ cfilt, cf_call cfilt smp = VNone) call_filters) ∧
  FilterCall smp (call_filters ++ more)
  = FilterCall smp call_filters ++ FilterCall smp more.
Proof.
  split; [|split].
  - induction call_filters as [|cfilt rest IH]; simpl; [done|].
    destruct (is_None (cf_call cfilt smp)).
    + by apply sublist_cons.
    + by apply sublist_skip.
  - induction call_filters as [|cfilt rest IH]; simpl.
    + split; [constructor|done].
    + destruct (cf_call cfilt smp) eqn:Hc; simpl.
      * rewrite IH. split; [by constructor|]. by inversion 1.
      * split; [done|]. inversion 1; congruence.
      * split; [done|]. inversion 1; congruence.
      * split; [done|]. inversion 1; congruence.
      * split; [done|]. inversion 1; congruence.
  - induction call_filters as [|cfilt rest IH]; simpl; [done|].
    destruct (is_None (cf_call cfilt smp)); [done|]. by rewrite IH.
Qed.

Lemma field_decls_KeyError (reader : Reader) (record : VcfRecord)
    (fields : list string) e :
  field_decls reader record fields = Raise e → e = KeyError.
Proof.
  induction fields as [|fmt rest IH]; simpl; [done|].
  destruct (String.eqb fmt "FILTER" && negb (contains "FILTER" (FORMAT record))).
  - simpl. destruct (field_decls reader record rest) as [[tys ns]|e'];
      simpl; [done|]. intros [= <-]. by apply IH.
  - unfold dict_get. destruct (formats reader !! fmt); simpl.
    + destruct (field_decls reader record rest) as [[tys ns]|e'];
        simpl; [done|]. intros [= <-]. by apply IH.
    + by intros [= <-].
Qed.

Lemma field_decls_Ok (reader : Reader) (record : VcfRecord)
    (fields : list string) tys ns fmt :
  field_decls reader record fields = Ok (tys, ns) →
  fmt ∈ fields → fmt ≠ "FILTER" → is_Some (formats reader !! fmt).
Proof.
  revert tys ns. induction fields as [|f rest IH]; intros tys ns Hd Hin Hne.
  - by apply elem_of_nil in Hin.
  - simpl in Hd. apply bind_Ok in Hd as ([ty n] & Hf & Hd). simpl in Hd.
    apply bind_Ok in Hd as ([tys' ns'] & Hrest & Hd).
    apply elem_of_cons in Hin as [->|Hin]; [|by eapply IH].
    apply String.eqb_neq in Hne. rewrite Hne in Hf. simpl in Hf.
    apply bind_Ok in Hf as (decl & Hdecl & _).
    apply dict_get_Ok in Hdecl. by rewrite Hdecl.
Qed.

Lemma field_decls_total (reader : Reader) (record : VcfRecord)
    (fields : list string) :
  (∀ fmt, fmt ∈ fields →
          (fmt = "FILTER" ∧ contains "FILTER" (FORMAT record) = false) ∨
          is_Some (formats reader !! fmt)) →
  is_Ok (field_decls reader record fields).
Proof.
  induction fields as [|f rest IH]; intros Hall; simpl; [by eexists|].
  destruct IH as [[tys ns] Hrest].
  { intros fmt Hin. apply Hall. by right. }
  rewrite Hrest.
  destruct (Hall f) as [[-> Hc]|[decl Hdecl]]; [by left| |].
  - rewrite Hc. simpl. by eexists.
  - destruct (String.eqb f "FILTER"
              && negb (contains "FILTER" (FORMAT record))); simpl.
    + by eexists.
    + unfold dict_get. rewrite Hdecl. simpl. by eexists.
Qed.

Lemma filter_samples_each (samp_fmt : CallData) call_filters l smp :
  smp ∈ l →
  ∀ si out si',
    filter_samples samp_fmt call_filters si l = Ok (out, si') →
    ∃ si1 out1 si2,
      filter_sample samp_fmt call_filters si1 smp = Ok (out1, si2).
Proof.
  induction l as [|c rest IH]; intros Hin si out si' Hrun.
  - by apply elem_of_nil in Hin.
  - simpl in Hrun.
    apply bind_Ok in Hrun as ([c1 s1] & Hc & Hrun). simpl in Hrun.
    apply bind_Ok in Hrun as ([cs s2] & Hcs & Hrun).
    apply elem_of_cons in Hin as [->|Hin]; [by eauto|by eapply IH].
Qed.

(** X11. A record whose FORMAT names an attribute other than FILTER that
    the header does not declare makes the call-level stage fail with a
    KeyError, whatever the calls of the record, the registered filters and
    the statistics. *)
Theorem ApplyCallFilters_undeclared_attribute (record : VcfRecord)
    (reader : Reader) (fmt : string) :
  fmt ∈ split ":" (FORMAT record) → fmt ≠ "FILTER" →
  formats reader !! fmt = None →
  ∀ calls call_filters si,
    ApplyCallFilters (set_samples record calls) reader call_filters si
    = Raise KeyError.
Proof.
  intros Hin Hne Hnone calls call_filters si.
  unfold ApplyCallFilters, make_samp_fmt.
  destruct (field_decls reader (set_samples record calls)
              (fields_of (set_samples record calls)))
    as [[tys ns]|e] eqn:Hd; simpl.
  - exfalso. eapply field_decls_Ok in Hd as [decl Hdecl]; [|..|exact Hne].
    + by rewrite Hnone in Hdecl.
    + unfold fields_of. simpl. destruct (contains "FILTER" (FORMAT record));
        [done|]. apply elem_of_app. by left.
  - apply field_decls_KeyError in Hd. by rewrite Hd.
Qed.

Lemma add_val_numeric (t : num) (dp : val) t' :
  add_val t dp = Ok t' → (∃ d, dp = VInt d) ∨ (∃ f, dp = VFloat f).
Proof. destruct dp; simpl; try done; eauto. Qed.

(** X12. The call-level stage never returns on a record that has a call
    with a genotype on which no filter fires and whose depth is absent or
    not a number, whether or not a filter on the depth is registered. *)
Theorem ApplyCallFilters_needs_depth (record : VcfRecord) (reader : Reader)
    (call_filters : list CallFilter)
    (si : gmap string (gmap string num)) (smp : Call) :
  smp ∈ samples record →
  completed call_filters smp = true →
  numeric_depth smp = false →
  ∃ e, ApplyCallFilters record reader call_filters si = Raise e.
Proof.
  intros Hin Hc Hdp.
  destruct (ApplyCallFilters record reader call_filters si)
    as [[view si']|e] eqn:Hrun; [exfalso|by exists e].
  unfold ApplyCallFilters in Hrun.
  apply bind_Ok in Hrun as (samp_fmt & _ & Hrun).
  apply bind_Ok in Hrun as ([new s1] & Hnew & _).
  destruct (filter_samples_each _ _ _ _ Hin _ _ _ Hnew)
    as (si1 & out1 & si2 & Hone).
  destruct (filter_sample_stats _ _ _ _ _ _ Hone)
    as [[Hm _]|[(Hm & Hf & _)
               |(_ & info & n & dp & t & _ & _ & Hd & _ & t' & Hadd & _)]].
  - unfold completed in Hc. by rewrite Hm in Hc.
  - unfold completed in Hc. apply andb_true_iff in Hc as [_ Hc].
    by apply bool_decide_eq_true in Hc.
  - unfold numeric_depth in Hdp. rewrite Hd in Hdp.
    by destruct (add_val_numeric _ _ _ Hadd) as [[d ->]|[f ->]].
Qed.

Lemma counters_ready_alter call_filters (info : gmap string num) r :
  counters_ready call_filters info →
  counters_ready call_filters (alter incr r info).
Proof.
  intros ([n Hn] & [t Ht] & Hr). split; [|split].
  - destruct (decide (r = "numcalls")) as [->|Hne].
    + exists (n + 1)%Z. by rewrite lookup_alter_eq, Hn.
    + exists n. by rewrite lookup_alter_ne.
  - destruct (decide (r = "totaldp")) as [->|Hne].
    + exists (t + 1)%Z. by rewrite lookup_alter_eq, Ht.
    + exists t. by rewrite lookup_alter_ne.
  - intros k Hk. destruct (decide (r = k)) as [->|Hne].
    + rewrite lookup_alter_eq. destruct (Hr k Hk) as [v ->]. by eexists.
    + rewrite lookup_alter_ne by done. by apply Hr.
Qed.

Lemma counters_ready_counted call_filters reasons (info : gmap string num) :
  counters_ready call_filters info →
  counters_ready call_filters (foldl (λ d r, alter incr r d) info reasons).
Proof.
  revert info. induction reasons as [|r rest IH]; intros info Hready;
    [done|]. simpl. by apply IH, counters_ready_alter.
Qed.

Lemma counters_ready_insert call_filters (info : gmap string num) key z :
  key = "numcalls" ∨ key = "totaldp" →
  counters_ready call_filters info →
  counters_ready call_filters (<[key := PInt z]> info).
Proof.
  intros Hkey ([n Hn] & [t Ht] & Hr). split; [|split].
  - destruct (decide (key = "numcalls")) as [->|Hne].
    + exists z. by rewrite lookup_insert_eq.
    + exists n. by rewrite lookup_insert_ne.
  - destruct (decide (key = "totaldp")) as [->|Hne].
    + exists z. by rewrite lookup_insert_eq.
    + exists t. by rewrite lookup_insert_ne.
  - intros k Hk. destruct (decide (key = k)) as [->|Hne].
    + rewrite lookup_insert_eq. by eexists.
    + rewrite lookup_insert_ne by done. by apply Hr.
Qed.

Lemma stats_ready_insert call_filters (si : gmap string (gmap string num))
    s info :
  stats_ready call_filters si → counters_ready call_filters info →
  stats_ready call_filters (<[s := info]> si).
Proof.
  intros Hsi Hinfo s' info' Hl. destruct (decide (s = s')) as [->|Hne].
  - rewrite lookup_insert_eq in Hl. by injection Hl as <-.
  - rewrite lookup_insert_ne in Hl by done. by eapply Hsi.
Qed.

Lemma lookup_insert_is_Some_same {V} (m : gmap string V) s v s' :
  is_Some (m !! s) → (is_Some (<[s := v]> m !! s') ↔ is_Some (m !! s')).
Proof.
  intros Hs. destruct (decide (s = s')) as [->|Hne].
  - rewrite lookup_insert_eq. split; [done|by eexists].
  - by rewrite lookup_insert_ne.
Qed.

Lemma filter_sample_total (samp_fmt : CallData) call_filters si smp :
  is_Ok (call_get smp "GT") →
  (∀ key, key ∈ _fields samp_fmt → key ≠ "FILTER" →
          is_Ok (call_get smp key)) →
  (completed call_filters smp = true →
   ∃ d, call_get smp "DP" = Ok (VInt d)) →
  is_Some (si !! sample smp) →
  stats_ready call_filters si →
  ∃ out si',
    filter_sample samp_fmt call_filters si smp = Ok (out, si') ∧
    stats_ready call_filters si' ∧
    ∀ s, is_Some (si' !! s) ↔ is_Some (si !! s).
Proof.
  intros [gt Hgt] Hkeys Hdp [info Hinfo] Hready.
  pose proof (Hready _ _ Hinfo) as Hcr.
  destruct (is_nocall gt) eqn:Hno.
  - destruct (missing_call samp_fmt call_filters si smp gt Hgt Hno Hkeys)
      as (out & Hout & _).
    exists out, si. by rewrite Hout.
  - destruct (decide (firing smp call_filters = [])) as [Hf|Hf].
    + pose proof Hcr as ([n Hn] & [t Ht] & Hr).
      destruct Hdp as [d Hd].
      { unfold completed, missing. rewrite Hgt, Hno. simpl.
        by apply bool_decide_eq_true_2. }
      destruct (passed_call samp_fmt call_filters si smp gt info n t d
                  Hgt Hno Hf Hinfo Hn Ht Hd Hkeys) as (out & Hout & _).
      eexists _, _. split; [exact Hout|]. split.
      * apply stats_ready_insert; [done|].
        apply counters_ready_insert; [by right|].
        apply counters_ready_insert; [by left|]. done.
      * intros s. apply lookup_insert_is_Some_same. by eexists.
    + rewrite (filter_sample_fail _ _ _ _ gt) by done.
      rewrite (bump_reasons_Ok _ _ _ info Hinfo).
      * simpl. eexists _, _. split; [done|]. split.
        -- apply stats_ready_insert; [done|].
           by apply counters_ready_counted.
        -- intros s. apply lookup_insert_is_Some_same. by eexists.
      * intros r Hr. destruct Hcr as (_ & _ & Hall). apply Hall.
        by apply (firing_reasons_subset smp).
Qed.

Lemma filter_samples_total (samp_fmt : CallData) call_filters l :
  ∀ si,
    Forall (λ smp,
              is_Ok (call_get smp "GT") ∧
              (∀ key, key ∈ _fields samp_fmt → key ≠ "FILTER" →
                      is_Ok (call_get smp key)) ∧
              (completed call_filters smp = true →
               ∃ d, call_get smp "DP" = Ok (VInt d)) ∧
              is_Some (si !! sample smp)) l →
    stats_ready call_filters si →
    ∃ out si',
      filter_samples samp_fmt call_filters si l = Ok (out, si') ∧
      stats_ready call_filters si' ∧
      ∀ s, is_Some (si' !! s) ↔ is_Some (si !! s).
Proof.
  induction l as [|smp rest IH]; intros si Hall Hready.
  - exists [], si. done.
  - apply Forall_cons in Hall as [(Hgt & Hkeys & Hdp & Hs) Hall].
    destruct (filter_sample_total samp_fmt call_filters si smp
                Hgt Hkeys Hdp Hs Hready) as (c & s1 & Hc & Hr1 & Hdom1).
    destruct (IH s1) as (cs & s2 & Hcs & Hr2 & Hdom2); [|done|].
    { eapply Forall_impl; [exact Hall|]. simpl.
      intros x (? & ? & ? & ?). repeat split; try done. by apply Hdom1. }
    exists (c :: cs), s2. simpl. rewrite Hc. simpl. rewrite Hcs. simpl.
    split; [done|]. split; [done|]. intros s. by rewrite Hdom2, Hdom1.
Qed.

(** X13. The call-level stage returns on a well-formed record: every
    attribute of its FORMAT is declared in the header, every call has a
    genotype and the attributes of the FORMAT, every call that passes all
    filters has an integer depth, the statistics have an entry for the
    sample of every call, and every entry has integer counters numcalls and
    totaldp and a counter for the reason of every registered filter. The
    statistics it leaves are again of this kind, for the same samples. *)
Theorem ApplyCallFilters_total (record : VcfRecord) (reader : Reader)
    (call_filters : list CallFilter) (si : gmap string (gmap string num)) :
  schema_declared reader record →
  Forall (readable record) (samples record) →
  (∀ s, integer_depths call_filters s (samples record)) →
  (∀ smp, smp ∈ samples record → is_Some (si !! sample smp)) →
  stats_ready call_filters si →
  ∃ view si',
    ApplyCallFilters record reader call_filters si = Ok (view, si') ∧
    stats_ready call_filters si' ∧
    ∀ s, is_Some (si' !! s) ↔ is_Some (si !! s).
Proof.
  intros Hschema Hread Hdp Hsamples Hready. unfold ApplyCallFilters.
  assert (Hfields : ∀ key, key ∈ fields_of record → key ≠ "FILTER" →
                           key ∈ split ":" (FORMAT record)).
  { intros key Hin Hne. unfold fields_of in Hin.
    destruct (contains "FILTER" (FORMAT record)); [done|].
    apply elem_of_app in Hin as [Hin|Hin]; [done|].
    by apply list_elem_of_singleton in Hin. }
  destruct (field_decls_total reader record (fields_of record))
    as [[tys ns] Hdecls].
  { intros fmt Hin. unfold fields_of in Hin.
    destruct (contains "FILTER" (FORMAT record)) eqn:Hc.
    - right. by apply Hschema.
    - apply elem_of_app in Hin as [Hin|Hin]; [right; by apply Hschema|].
      left. by apply list_elem_of_singleton in Hin. }
  unfold make_samp_fmt. rewrite Hdecls. simpl.
  destruct (filter_samples_total
              (mkCallData (fields_of record) tys ns) call_filters
              (samples record) si) as (out & si' & Hout & Hr & Hdom);
    [|done|].
  - apply Forall_forall. intros smp Hin.
    rewrite Forall_forall in Hread. destruct (Hread smp Hin) as [Hgt Hkeys].
    split; [done|]. split; [|split].
    + simpl. intros key Hk Hne. apply Hkeys; [by apply Hfields|done].
    + intros Hc. specialize (Hdp (sample smp)).
      unfold integer_depths in Hdp. rewrite Forall_forall in Hdp.
      by apply (Hdp smp Hin).
    + by apply Hsamples.
  - rewrite Hout. simpl. by exists (set_samples record out), si'.
Qed.

Lemma split_not_nil (sep : ascii) (s : string) : split sep s ≠ [].
Proof.
  induction s as [|a rest IH]; simpl; [done|].
  destruct (Ascii.eqb a sep); [done|]. by destruct (split sep rest).
Qed.

Lemma split_app_sep (sep : ascii) (x rest : string) :
  occurs sep x = false →
  split sep (x ++ String sep rest) = x :: split sep rest.
Proof.
  induction x as [|a x IH]; simpl; intros Hx.
  - by rewrite Ascii.eqb_refl.
  - apply orb_false_iff in Hx as [Ha Hx]. rewrite Ha, (IH Hx). done.
Qed.

Lemma split_no_sep (sep : ascii) (x : string) :
  occurs sep x = false → split sep x = [x].
Proof.
  induction x as [|a x IH]; simpl; intros Hx; [done|].
  apply orb_false_iff in Hx as [Ha Hx]. by rewrite Ha, (IH Hx).
Qed.

Lemma split_join (sep : ascii) (l : list string) :
  l ≠ [] → Forall (λ x, occurs sep x = false) l →
  split sep (join (String sep EmptyString) l) = l.
Proof.
  induction l as [|x rest IH]; intros Hne Hall; [done|].
  apply Forall_cons in Hall as [Hx Hall]. unfold join in *.
  destruct rest as [|y rest]; [by apply split_no_sep|].
  change (String.concat (String sep EmptyString) (x :: y :: rest))
    with (x ++ String sep (String.concat (String sep EmptyString)
                             (y :: rest)))%string.
  rewrite split_app_sep by done. f_equal. by apply IH.
Qed.

(** X14. The reasons of a filtered call can be read back from the status
    that the call-level stage writes: when no reason of a registered filter
    contains a comma, splitting the status of the call at the commas gives
    the reasons of the filters that fired, in registration order. *)
Theorem filtered_call_reasons_round_trip (record : VcfRecord)
    (reader : Reader) (call_filters : list CallFilter)
    (si si' : gmap string (gmap string num)) (view : VcfRecord) :
  ApplyCallFilters record reader call_filters si = Ok (view, si') →
  "FILTER" ∈ fields_of record →
  Forall (λ cfilt, occurs "," (GetReason cfilt) = false) call_filters →
  Forall2 (λ smp c,
             missing smp = false → firing smp call_filters ≠ [] →
             ∃ status,
               call_get c "FILTER" = Ok (VStr status) ∧
               split "," status = GetReason <$> firing smp call_filters)
    (samples record) (samples view).
Proof.
  unfold ApplyCallFilters. intros Hrun Hin Hcomma.
  apply bind_Ok in Hrun as (samp_fmt & Hfmt & Hrun).
  apply bind_Ok in Hrun as ([new s1] & Hnew & Hrun). simpl in Hrun.
  injection Hrun as <- <-. simpl.
  apply filter_samples_shape in Hnew.
  rewrite (make_samp_fmt_fields _ _ _ Hfmt) in Hnew.
  eapply Forall2_impl; [exact Hnew|]. simpl.
  intros smp c (_ & _ & Hs) Hm Hf.
  exists (status_of call_filters smp). split; [by apply Hs|].
  unfold status_of. rewrite Hm.
  destruct (firing smp call_filters) as [|cf rest] eqn:Hfire; [done|].
  apply split_join; [done|].
  apply Forall_fmap. rewrite Forall_forall in Hcomma |- *.
  intros x Hx. apply Hcomma. rewrite <- Hfire in Hx.
  unfold firing in Hx. by apply list_elem_of_filter in Hx as [_ ?].
Qed.

Lemma init_sample_info_ready (call_filters : list CallFilter)
    (names reasons : list string) :
  (∀ r, r ∈ GetReason <$> call_filters → r ∈ reasons) →
  stats_ready call_filters (init_sample_info names reasons).
Proof.
  intros Hsub s info Hs. unfold init_sample_info in Hs.
  fold (init_info reasons) in Hs. rewrite foldl_insert_const in Hs.
  destruct (decide (s ∈ names)); [|by rewrite lookup_empty in Hs].
  injection Hs as <-. split; [|split].
  - exists 0%Z. rewrite init_info_lookup, decide_True by tauto. done.
  - exists 0%Z. rewrite init_info_lookup, decide_True by tauto. done.
  - intros r Hr. rewrite init_info_lookup, decide_True; [by eexists|].
    right. right. by apply Hsub.
Qed.

(** ** The loop over the records: limit, output and locus counters *)

Section Cutoff.

Context `{Externals}.

Lemma processed_from_nil c args : processed_from c args [] = [].
Proof. unfold processed_from. destruct (num_records args); by rewrite ?take_nil. Qed.



End Cutoff.

Lemma add_filter_frame (r r' : VcfRecord) name :
  add_filter r name = Ok r' → r' = set_FILTER r (FILTER r').
Proof.
  unfold add_filter. destruct (FILTER r); try done; by intros [= <-].
Qed.

Lemma set_FILTER_FILTER (r : VcfRecord) : set_FILTER r (FILTER r) = r.
Proof. by destruct r. Qed.

Lemma locus_filters_record drop (filter_list : list LocusFilter) :
  ∀ record loc_info keep record' loc_info',
    locus_filters drop filter_list record loc_info
    = Ok (keep, record', loc_info') →
    record' = set_FILTER record (FILTER record').
Proof.
  induction filter_list as [|filt rest IH];
    intros record loc_info keep record' loc_info' Hrun; simpl in Hrun.
  - injection Hrun as _ <- _. by rewrite set_FILTER_FILTER.
  - destruct (is_None (lf_call filt record)); [by eapply IH|].
    destruct drop.
    + injection Hrun as _ <- _. by rewrite set_FILTER_FILTER.
    + apply bind_Ok in Hrun as (r1 & Hadd & Hrun).
      apply bind_Ok in Hrun as (n & _ & Hrun).
      apply IH in Hrun. apply add_filter_frame in Hadd.
      rewrite Hrun, Hadd. by rewrite set_FILTER_twice.
Qed.

Lemma locus_filters_keep (filter_list : list LocusFilter) :
  ∀ record loc_info keep record' loc_info',
    locus_filters false filter_list record loc_info
    = Ok (keep, record', loc_info') →
    keep = true.
Proof.
  induction filter_list as [|filt rest IH];
    intros record loc_info keep record' loc_info' Hrun; simpl in Hrun.
  - by injection Hrun as <- _ _.
  - destruct (is_None (lf_call filt record)); [by eapply IH|].
    apply bind_Ok in Hrun as (r1 & _ & Hrun).
    apply bind_Ok in Hrun as (n & _ & Hrun). by eapply IH.
Qed.

Section Frame.

Context `{Externals}.

Lemma recalculate_INFO_record args record record' :
  recalculate_INFO args record = Ok record' →
  same_locus record record' ∧ FILTER record' = FILTER record ∧
  samples record' = samples record ∧
  INFO record' !! "HRUN" = Some (GetHomopolymerRun (REF record)) ∧
  (∀ k, k ∈ recalculated → is_Some (INFO record' !! k)) ∧
  (∀ k, k ∉ recalculated → INFO record' !! k = INFO record !! k).
Proof.
  unfold recalculate_INFO, same_locus, recalculated. intros Hrun. simpl in Hrun.
  assert (Hkeys : ∀ (m : gmap string val) v1 v2 v3 v4 v5,
            let m' := <["REFAC" := v5]> (<["AC" := v4]> (<["HWEP" := v3]>
                        (<["HET" := v2]> (<["HRUN" := v1]> m)))) in
            m' !! "HRUN" = Some v1 ∧
            (∀ k, k ∈ ["HRUN"; "HET"; "HWEP"; "AC"; "REFAC"] →
                  is_Some (m' !! k)) ∧
            (∀ k, k ∉ ["HRUN"; "HET"; "HWEP"; "AC"; "REFAC"] →
                  m' !! k = m !! k)).
  { intros m v1 v2 v3 v4 v5 m'. subst m'. split; [|split].
    - rewrite !lookup_insert_ne by done. apply lookup_insert_eq.
    - intros k Hk. rewrite !elem_of_cons in Hk.
      destruct Hk as [->|[->|[->|[->|[->|Hk]]]]];
        [..|by apply elem_of_nil in Hk];
        rewrite ?lookup_insert_ne by done; rewrite lookup_insert_eq;
        by eexists.
    - intros k Hk. rewrite !not_elem_of_cons in Hk.
      destruct Hk as (? & ? & ? & ? & ? & _).
      by rewrite !lookup_insert_ne by done. }
  destruct (0 <? num_called (samples record))%Z.
  - apply bind_Ok in Hrun as (ac & _ & Hrun).
    apply bind_Ok in Hrun as (refac & _ & Hrun). injection Hrun as <-.
    simpl. repeat split; try done; apply Hkeys.
  - injection Hrun as <-. simpl. repeat split; try done; apply Hkeys.
Qed.

Lemma recalc_filter_record args record loc_info record' loc_info' :
  recalc_filter args record loc_info = Ok (record', loc_info') →
  record' = set_FILTER record (FILTER record').
Proof.
  unfold recalc_filter. intros Hrun.
  destruct (is_None (FILTER record) && negb (drop_filtered args)).
  - apply bind_Ok in Hrun as (p & _ & Hrun).
    apply bind_Ok in Hrun as (t & _ & Hrun). by injection Hrun as <- _.
  - injection Hrun as <- _. by rewrite set_FILTER_FILTER.
Qed.

Lemma process_record_written args invcf filter_list call_filters st record
    st' :
  process_record args invcf filter_list call_filters st record = Ok st' →
  ∃ view,
    ApplyCallFilters record invcf call_filters (sample_info st)
    = Ok (view, sample_info st') ∧
    ((drop_filtered args = true ∧ outvcf st' = outvcf st ∧
      forallb (passes (set_FILTER view VNone)) filter_list = false) ∨
     ∃ w,
       outvcf st' = outvcf st ++ [w] ∧
       same_locus view w ∧ samples w = samples view ∧
       INFO w !! "HRUN" = Some (GetHomopolymerRun (REF view)) ∧
       (∀ k, k ∈ recalculated → is_Some (INFO w !! k)) ∧
       (∀ k, k ∉ recalculated → INFO w !! k = INFO view !! k)).
Proof.
  intros Hrun. pose proof Hrun as Hrun'. revert Hrun'.
  unfold process_record. intros Hrun'.
  apply bind_Ok in Hrun' as ([view si'] & Hcall & Hrun'). simpl in Hrun'.
  apply bind_Ok in Hrun' as ([[keep r1] li1] & Hloc & Hrun'). simpl in Hrun'.
  exists view. destruct keep.
  - apply bind_Ok in Hrun' as (r2 & Hinfo & Hrun').
    apply bind_Ok in Hrun' as ([r3 li3] & Hpass & Hrun'). simpl in Hrun'.
    injection Hrun' as <-. simpl. split; [done|]. right. exists r3.
    split; [done|].
    apply locus_filters_record in Hloc. apply recalc_filter_record in Hpass.
    apply recalculate_INFO_record in Hinfo
      as (Hsame & _ & Hsamples & Hhrun & Hin & Hout).
    rewrite Hpass. unfold same_locus in *. simpl.
    rewrite Hloc in Hsame, Hsamples, Hhrun, Hout. simpl in *.
    exact (conj Hsame (conj Hsamples (conj Hhrun (conj Hin Hout)))).
  - injection Hrun' as <-. simpl. split; [done|]. left.
    destruct (drop_filtered args) eqn:Hdrop.
    + rewrite locus_filters_drop in Hloc. by injection Hloc as Hloc _ _.
    + by apply locus_filters_keep in Hloc.
Qed.

End Frame.

Lemma ApplyCallFilters_record (record : VcfRecord) (reader : Reader)
    (call_filters : list CallFilter)
    (si si' : gmap string (gmap string num)) (view : VcfRecord) :
  ApplyCallFilters record reader call_filters si = Ok (view, si') →
  view = set_samples record (samples view) ∧
  sample <$> samples view = sample <$> samples record.
Proof.
  unfold ApplyCallFilters. intros Hrun.
  apply bind_Ok in Hrun as (samp_fmt & Hfmt & Hrun).
  apply bind_Ok in Hrun as ([new s1] & Hnew & Hrun). simpl in Hrun.
  injection Hrun as <- <-. simpl. split; [done|].
  apply filter_samples_shape in Hnew.
  symmetry. apply (Forall2_fmap_eq sample sample).
  eapply Forall2_impl; [exact Hnew|]. by intros smp c (-> & _).
Qed.

Section Output.

Context `{Externals}.

(** X16. A record that is written describes the locus that was read:
    chromosome, position, alleles and FORMAT are unchanged, and the calls are
    those of the same samples in the same order. Of its INFO the script sets
    exactly the five keys HRUN, HET, HWEP, AC and REFAC, HRUN to the
    homopolymer run of the reference allele, and leaves every other key as
    it was read. A record is left out in drop mode only. *)
Theorem written_record_frame (args : Args) (invcf : Reader)
    (filter_list : list LocusFilter) (call_filters : list CallFilter)
    (st st' : State) (record : VcfRecord) :
  process_record args invcf filter_list call_filters st record = Ok st' →
  (drop_filtered args = true ∧ outvcf st' = outvcf st) ∨
  ∃ w,
    outvcf st' = outvcf st ++ [w] ∧
    same_locus record w ∧
    sample <$> samples w = sample <$> samples record ∧
    INFO w !! "HRUN" = Some (GetHomopolymerRun (REF record)) ∧
    (∀ k, k ∈ recalculated → is_Some (INFO w !! k)) ∧
    (∀ k, k ∉ recalculated → INFO w !! k = INFO record !! k).
Proof.
  intros Hrun.
  apply process_record_written in Hrun
    as (view & Hcall & [(Hdrop & Hout & _)
                       |(w & Hout & Hsame & Hs & Hhrun & Hin & Hnot)]);
    [by left|right].
  apply ApplyCallFilters_record in Hcall as [Hview Hnames].
  exists w. rewrite Hs. unfold same_locus in *.
  rewrite Hview in Hsame, Hhrun, Hnot. simpl in *.
  exact (conj Hout (conj Hsame (conj Hnames (conj Hhrun (conj Hin Hnot))))).
Qed.

Lemma records_loop_output args invcf filter_list call_filters records :
  ∀ c st st',
    records_loop args invcf filter_list call_filters c records st = Ok st' →
    ∃ kept ws,
      outvcf st' = outvcf st ++ ws ∧
      kept `sublist_of` processed_from c args records ∧
      Forall2 same_locus kept ws ∧
      (drop_filtered args = false → kept = processed_from c args records).
Proof.
  induction records as [|record rest IH]; intros c st st' Hrun.
  - simpl in Hrun. injection Hrun as <-. exists [], [].
    rewrite app_nil_r. split; [done|]. split; [apply sublist_nil_l|].
    split; [constructor|]. intros _.
    unfold processed_from. destruct (num_records args); by rewrite ?take_nil.
  - rewrite processed_from_cons. simpl in Hrun.
    destruct (match num_records args with
              | Some n => (n <? c + 1)%Z
              | None => false
              end).
    + injection Hrun as <-. exists [], []. rewrite app_nil_r.
      split; [done|]. split; [done|]. split; [constructor|done].
    + apply bind_Ok in Hrun as (st1 & H1 & Hrun).
      apply IH in Hrun as (kept & ws & Hout & Hsub & Hsame & Hall).
      apply process_record_written in H1
        as (view & Hcall & [(Hdrop & Hout1 & _)
                           |(w & Hout1 & Hlocus & _)]).
      * exists kept, ws. rewrite Hout, Hout1. split; [done|].
        split; [by apply sublist_cons|]. split; [done|].
        intros Hno. by rewrite Hno in Hdrop.
      * exists (record :: kept), (w :: ws). rewrite Hout, Hout1.
        split; [by rewrite <- app_assoc|].
        split; [by apply sublist_skip|]. split.
        -- constructor; [|done].
           apply ApplyCallFilters_record in Hcall as [Hview _].
           unfold same_locus in *. rewrite Hview in Hlocus. done.
        -- intros Hno. by rewrite (Hall Hno).
Qed.

(** X17. The output holds the loci in input order: the records written by
    a run describe, one by one and in order, a subsequence of the records
    processed. When filtered loci are not dropped, every processed record is
    written. *)
Theorem output_follows_input_order (args : Args) (invcf : Reader)
    (filter_list : list LocusFilter) (call_filters : list CallFilter)
    (records : list VcfRecord) (st st' : State) :
  records_loop args invcf filter_list call_filters 0 records st = Ok st' →
  ∃ kept ws,
    outvcf st' = outvcf st ++ ws ∧
    kept `sublist_of` processed args records ∧
    Forall2 same_locus kept ws ∧
    (drop_filtered args = false → kept = processed args records).
Proof.
  intros Hrun.
  replace (processed args records) with (processed_from 0 args records)
    by (unfold processed, processed_from; destruct (num_records args);
        by rewrite ?Z.sub_0_r).
  by eapply records_loop_output.
Qed.

End Output.

Section ZeroCalls.

Context `{Externals}.

(** X30. A record written for a locus without completed calls has the
    allele counts of an empty locus: AC is one 0 per alternate allele, and
    REFAC is 0. *)
Theorem zero_calls_allele_counts (args : Args) (invcf : Reader)
    (filter_list : list LocusFilter) (call_filters : list CallFilter)
    (st st' : State) (record view w : VcfRecord)
    (si' : gmap string (gmap string num)) :
  ApplyCallFilters record invcf call_filters (sample_info st)
  = Ok (view, si') →
  (num_called (samples view) <= 0)%Z →
  process_record args invcf filter_list call_filters st record = Ok st' →
  outvcf st' = outvcf st ++ [w] →
  INFO w !! "AC"
  = Some (VList (replicate (length (ALT record)) (VInt 0))) ∧
  INFO w !! "REFAC" = Some (VInt 0).
Proof.
  intros Hcall Hzero Hrun Hout.
  pose proof (ApplyCallFilters_record _ _ _ _ _ _ Hcall) as [Hview _].
  rewrite (process_record_unfold _ _ _ _ _ _ _ _ Hcall) in Hrun.
  apply bind_Ok in Hrun as ([[keep r1] li1] & Hloc & Hrun). simpl in Hrun.
  destruct keep; [|injection Hrun as <-; simpl in Hout;
                   by apply (f_equal length) in Hout;
                   rewrite length_app in Hout; simpl in Hout; lia].
  apply bind_Ok in Hrun as (r2 & Hinfo & Hrun).
  apply bind_Ok in Hrun as ([r3 li3] & Hpass & Hrun). simpl in Hrun.
  injection Hrun as <-. simpl in Hout. apply app_inv_head in Hout.
  injection Hout as <-.
  rewrite (recalc_filter_INFO _ _ _ _ _ Hpass).
  apply locus_filters_frame in Hloc as [Hs Halt]. simpl in Hs, Halt.
  unfold recalculate_INFO in Hinfo. simpl in Hinfo.
  rewrite Hs in Hinfo.
  destruct (0 <? num_called (samples view))%Z eqn:Hpos;
    [apply Z.ltb_lt in Hpos; lia|].
  injection Hinfo as <-. simpl. rewrite Halt.
  rewrite Hview. simpl. split.
  - rewrite lookup_insert_ne by done. by rewrite lookup_insert_eq.
  - by rewrite lookup_insert_eq.
Qed.

End ZeroCalls.

Section RunLevel.

Context `{Externals}.

Lemma process_record_drop args invcf filter_list call_filters st record st' :
  drop_filtered args = true →
  process_record args invcf filter_list call_filters st record = Ok st' →
  ∃ view,
    ApplyCallFilters record invcf call_filters (sample_info st)
    = Ok (view, sample_info st') ∧
    if passes_all filter_list view
    then ∃ w, recalculate_INFO args (set_FILTER view VNone) = Ok w ∧
              outvcf st' = outvcf st ++ [w]
    else outvcf st' = outvcf st.
Proof.
  intros Hdrop Hrun.
  destruct (process_record_sample_info _ _ _ _ _ _ _ Hrun) as (view & Hcall).
  exists view. split; [done|].
  rewrite (process_record_unfold _ _ _ _ _ _ _ _ Hcall) in Hrun.
  rewrite Hdrop, locus_filters_drop in Hrun. simpl in Hrun.
  unfold passes_all.
  destruct (forallb (passes (set_FILTER view VNone)) filter_list).
  - apply bind_Ok in Hrun as (w & Hw & Hrun).
    unfold recalc_filter in Hrun. rewrite Hdrop, andb_false_r in Hrun.
    simpl in Hrun. injection Hrun as <-. by exists w.
  - by injection Hrun as <-.
Qed.

Lemma records_loop_drop_output args invcf filter_list call_filters records :
  drop_filtered args = true →
  ∀ c st st',
    records_loop args invcf filter_list call_filters c records st = Ok st' →
    ∃ views ws,
      Forall2 (λ record view, ∃ si si',
                 ApplyCallFilters record invcf call_filters si
                 = Ok (view, si'))
        (processed_from c args records) views ∧
      outvcf st' = outvcf st ++ ws ∧
      Forall2 (λ view w,
                 recalculate_INFO args (set_FILTER view VNone) = Ok w)
        (filter (λ v, passes_all filter_list v = true) views) ws.
Proof.
  intros Hdrop. induction records as [|record rest IH]; intros c st st' Hrun.
  - simpl in Hrun. injection Hrun as <-. exists [], [].
    rewrite processed_from_nil, app_nil_r. by repeat constructor.
  - rewrite processed_from_cons. simpl in Hrun.
    destruct (match num_records args with
              | Some n => (n <? c + 1)%Z
              | None => false
              end).
    + injection Hrun as <-. exists [], []. rewrite app_nil_r.
      by repeat constructor.
    + apply bind_Ok in Hrun as (st1 & H1 & Hrun).
      apply IH in Hrun as (views & ws & Hviews & Hout & Hws).
      apply (process_record_drop _ _ _ _ _ _ _ Hdrop) in H1
        as (view & Hcall & H1).
      destruct (passes_all filter_list view) eqn:Hp.
      * destruct H1 as (w & Hw & Hout1).
        exists (view :: views), (w :: ws). split; [|split].
        -- constructor; [by eauto|done].
        -- by rewrite Hout, Hout1, <- app_assoc.
        -- rewrite filter_cons_True by done. by constructor.
      * exists (view :: views), ws. split; [|split].
        -- constructor; [by eauto|done].
        -- by rewrite Hout, H1.
        -- rewrite filter_cons_False by (by rewrite Hp). done.
Qed.

(** X18. In drop mode the output of a run holds exactly the processed loci
    at which every locus filter passes, in input order, each one with its
    INFO recalculated and its status unset; the loci at which a filter fails
    leave no record. *)
Theorem drop_mode_output (args : Args) (invcf : Reader)
    (filter_list : list LocusFilter) (call_filters : list CallFilter)
    (records : list VcfRecord) (st st' : State) :
  drop_filtered args = true →
  records_loop args invcf filter_list call_filters 0 records st = Ok st' →
  ∃ views ws,
    Forall2 (λ record view, ∃ si si',
               ApplyCallFilters record invcf call_filters si
               = Ok (view, si'))
      (processed args records) views ∧
    outvcf st' = outvcf st ++ ws ∧
    Forall2 (λ view w,
               recalculate_INFO args (set_FILTER view VNone) = Ok w ∧
               FILTER w = VNone)
      (filter (λ v, passes_all filter_list v = true) views) ws.
Proof.
  intros Hdrop Hrun.
  replace (processed args records) with (processed_from 0 args records)
    by (unfold processed, processed_from; destruct (num_records args);
        by rewrite ?Z.sub_0_r).
  destruct (records_loop_drop_output _ _ _ _ _ Hdrop _ _ _ Hrun)
    as (views & ws & Hviews & Hout & Hws).
  exists views, ws. split; [done|]. split; [done|].
  eapply Forall2_impl; [exact Hws|]. simpl. intros v w Hw. split; [done|].
  by apply recalculate_INFO_frame in Hw as (-> & _).
Qed.

Lemma failing_names_absent (filter_list : list LocusFilter) view name :
  name ∉ filter_name <$> filter_list →
  occurrences name (failing filter_list view) = 0%Z.
Proof.
  intros Hnot. apply occurrences_absent. intros Hin. apply Hnot.
  by eapply failing_from_names.
Qed.

Lemma process_record_counters args invcf filter_list call_filters st record
    st' :
  drop_filtered args = false →
  counters_exist filter_list (loc_info st) →
  process_record args invcf filter_list call_filters st record = Ok st' →
  ∃ view,
    (∃ si si', ApplyCallFilters record invcf call_filters si
               = Ok (view, si')) ∧
    (∀ k n, k ≠ "PASS" → k ≠ "totalcalls" → loc_info st !! k = Some n →
            loc_info st' !! k
            = Some (n + occurrences k (failing filter_list view))%Z) ∧
    (∀ t, "totalcalls" ∉ filter_name <$> filter_list →
          loc_info st !! "totalcalls" = Some t →
          loc_info st' !! "totalcalls"
          = Some (t + (if decide (failing filter_list view = [])
                       then num_called (samples view) else 0))%Z) ∧
    (∀ p, "PASS" ∉ filter_name <$> filter_list →
          loc_info st !! "PASS" = Some p →
          loc_info st' !! "PASS"
          = Some (p + (if decide (failing filter_list view = [])
                       then 1 else 0))%Z).
Proof.
  intros Hdrop Hex Hrun.
  destruct (process_record_sample_info _ _ _ _ _ _ _ Hrun) as (view & Hcall).
  exists view. split; [by eauto|].
  destruct (process_record_annotate_spec _ _ _ _ _ _ _ _ _ Hdrop Hcall Hex
              Hrun) as (w & _ & Hfail & Hpass).
  destruct (decide (failing filter_list view = [])) as [Hnil|Hne].
  - destruct (Hpass Hnil) as (_ & p & t & Hp & Ht & Hp' & Ht' & Hother).
    split; [|split].
    + intros k n Hk1 Hk2 Hn. rewrite Hother, Hn, Hnil by done.
      f_equal. unfold occurrences. simpl. lia.
    + intros t0 _ Ht0. rewrite Ht in Ht0. by injection Ht0 as <-.
    + intros p0 _ Hp0. rewrite Hp in Hp0. by injection Hp0 as <-.
  - destruct (Hfail Hne) as (_ & Hcount). split; [|split].
    + intros k n _ _ Hn. by apply Hcount.
    + intros t Hnot Ht. rewrite (Hcount _ _ Ht), failing_names_absent by done.
      done.
    + intros p Hnot Hp. rewrite (Hcount _ _ Hp), failing_names_absent by done.
      done.
Qed.

Lemma records_loop_counters args invcf filter_list call_filters records :
  drop_filtered args = false →
  ∀ c st st',
    counters_exist filter_list (loc_info st) →
    records_loop args invcf filter_list call_filters c records st = Ok st' →
    ∃ views,
      Forall2 (λ record view, ∃ si si',
                 ApplyCallFilters record invcf call_filters si
                 = Ok (view, si'))
        (processed_from c args records) views ∧
      (∀ k n, k ≠ "PASS" → k ≠ "totalcalls" → loc_info st !! k = Some n →
              loc_info st' !! k = Some (n + failures filter_list k views)%Z) ∧
      (∀ t, "totalcalls" ∉ filter_name <$> filter_list →
            loc_info st !! "totalcalls" = Some t →
            loc_info st' !! "totalcalls"
            = Some (t + passing_calls filter_list views)%Z) ∧
      (∀ p, "PASS" ∉ filter_name <$> filter_list →
            loc_info st !! "PASS" = Some p →
            loc_info st' !! "PASS"
            = Some (p + passing_loci filter_list views)%Z).
Proof.
  intros Hdrop. induction records as [|record rest IH];
    intros c st st' Hex Hrun.
  - simpl in Hrun. injection Hrun as <-. exists [].
    rewrite processed_from_nil. split; [constructor|].
    repeat split; intros; simpl; rewrite Z.add_0_r; done.
  - rewrite processed_from_cons. simpl in Hrun.
    destruct (match num_records args with
              | Some n => (n <? c + 1)%Z
              | None => false
              end).
    + injection Hrun as <-. exists []. split; [constructor|].
      repeat split; intros; simpl; rewrite Z.add_0_r; done.
    + apply bind_Ok in Hrun as (st1 & H1 & Hrun).
      pose proof (process_record_keeps_counters _ _ _ _ _ _ _ Hex H1) as Hex1.
      destruct (IH _ _ _ Hex1 Hrun) as (views & Hviews & Hk & Ht & Hp).
      destruct (process_record_counters _ _ _ _ _ _ _ Hdrop Hex H1)
        as (view & Hcall & Hk1 & Ht1 & Hp1).
      exists (view :: views). split; [by constructor|]. split; [|split].
      * intros k n Hkp Htc Hn.
        rewrite (Hk k _ Hkp Htc (Hk1 k n Hkp Htc Hn)). simpl. f_equal. lia.
      * intros t Hnot Hn.
        rewrite (Ht _ Hnot (Ht1 t Hnot Hn)). simpl. f_equal. lia.
      * intros p Hnot Hn.
        rewrite (Hp _ Hnot (Hp1 p Hnot Hn)). simpl. f_equal. lia.
Qed.

(** X19. When filtered loci are not dropped, a run raises the counter of
    every filter name by the number of failures under that name: over the
    loci processed, as the call-level stage leaves them, one for every
    registered filter of that name that fails at the locus. *)
Theorem fail_counters_after_run (args : Args) (invcf : Reader)
    (filter_list : list LocusFilter) (call_filters : list CallFilter)
    (records : list VcfRecord) (st st' : State) :
  drop_filtered args = false →
  counters_exist filter_list (loc_info st) →
  records_loop args invcf filter_list call_filters 0 records st = Ok st' →
  ∃ views,
    Forall2 (λ record view, ∃ si si',
               ApplyCallFilters record invcf call_filters si
               = Ok (view, si'))
      (processed args records) views ∧
    ∀ k n, k ≠ "PASS" → k ≠ "totalcalls" → loc_info st !! k = Some n →
           loc_info st' !! k = Some (n + failures filter_list k views)%Z.
Proof.
  intros Hdrop Hex Hrun.
  replace (processed args records) with (processed_from 0 args records)
    by (unfold processed, processed_from; destruct (num_records args);
        by rewrite ?Z.sub_0_r).
  destruct (records_loop_counters _ _ _ _ _ Hdrop _ _ _ Hex Hrun)
    as (views & Hviews & Hk & _ & _).
  by exists views.
Qed.

(** X20. When filtered loci are not dropped and no filter is named
    totalcalls, a run raises the counter totalcalls by the number of
    completed calls at the processed loci at which no filter fails; the calls
    at a locus with a failing filter are not counted. *)
Theorem totalcalls_after_run (args : Args) (invcf : Reader)
    (filter_list : list LocusFilter) (call_filters : list CallFilter)
    (records : list VcfRecord) (st st' : State) (t : Z) :
  drop_filtered args = false →
  "totalcalls" ∉ filter_name <$> filter_list →
  counters_exist filter_list (loc_info st) →
  loc_info st !! "totalcalls" = Some t →
  records_loop args invcf filter_list call_filters 0 records st = Ok st' →
  ∃ views,
    Forall2 (λ record view, ∃ si si',
               ApplyCallFilters record invcf call_filters si
               = Ok (view, si'))
      (processed args records) views ∧
    loc_info st' !! "totalcalls"
    = Some (t + passing_calls filter_list views)%Z.
Proof.
  intros Hdrop Hnot Hex Ht Hrun.
  replace (processed args records) with (processed_from 0 args records)
    by (unfold processed, processed_from; destruct (num_records args);
        by rewrite ?Z.sub_0_r).
  destruct (records_loop_counters _ _ _ _ _ Hdrop _ _ _ Hex Hrun)
    as (views & Hviews & _ & Htc & _).
  exists views. split; [done|]. by apply Htc.
Qed.

End RunLevel.

(** ** The two logs *)

Lemma WriteLocLog_inv (loc_info : gmap string Z) (loclog : LocLog) :
  WriteLocLog loc_info = Ok loclog →
  filter_lines loclog = map_to_list (delete "totalcalls" loc_info) ∧
  ∃ p t,
    loc_info !! "PASS" = Some p ∧ loc_info !! "totalcalls" = Some t ∧
    (p = 0%Z → MeanSamplesPerPassingSTR loclog = VInt 0) ∧
    (p ≠ 0%Z →
     ∃ tf pf, float_of_int t = Ok tf ∧ float_of_int p = Ok pf ∧
              MeanSamplesPerPassingSTR loclog
              = VFloat (tf * 1 / pf)%float).
Proof.
  unfold WriteLocLog. intros Hrun.
  apply bind_Ok in Hrun as (t & Ht & Hrun).
  apply bind_Ok in Hrun as (p & Hp & Hrun).
  apply bind_Ok in Hrun as (mean & Hmean & Hrun). injection Hrun as <-.
  apply dict_get_Ok in Ht, Hp. simpl. split; [done|].
  exists p, t. split; [done|]. split; [done|].
  destruct (p =? 0)%Z eqn:Hz.
  - apply Z.eqb_eq in Hz. injection Hmean as <-. split; [done|].
    by intros [].
  - apply Z.eqb_neq in Hz. split; [done|]. intros _.
    apply bind_Ok in Hmean as (t' & Ht' & Hmean).
    apply dict_get_Ok in Ht'. rewrite Ht in Ht'. injection Ht' as <-.
    unfold mul, arith in Hmean.
    apply bind_Ok in Hmean as (prod & Hprod & Hmean).
    apply bind_Ok in Hprod as (tf & Htf & Hprod). injection Hprod as <-.
    simpl in Hmean.
    apply bind_Ok in Hmean as (q & Hq & Hmean). injection Hmean as <-.
    unfold fdiv in Hq. apply bind_Ok in Hq as (pf & Hpf & Hq).
    injection Hq as <-. by exists tf, pf.
Qed.

(** X21. The locus log has one line per counter of the locus statistics,
    the counter PASS among them, except for totalcalls, which has none. Its
    first entry is the integer 0 when no locus passed, and otherwise the
    quotient of the floats of totalcalls and PASS. The log is written only
    when both counters exist. *)
Theorem WriteLocLog_lines (loc_info : gmap string Z) (loclog : LocLog) :
  WriteLocLog loc_info = Ok loclog →
  (∀ k v, (k, v) ∈ filter_lines loclog ↔
          k ≠ "totalcalls" ∧ loc_info !! k = Some v) ∧
  NoDup (filter_lines loclog).*1 ∧
  ∃ p t,
    loc_info !! "PASS" = Some p ∧ loc_info !! "totalcalls" = Some t ∧
    (p = 0%Z → MeanSamplesPerPassingSTR loclog = VInt 0) ∧
    (p ≠ 0%Z →
     ∃ tf pf, float_of_int t = Ok tf ∧ float_of_int p = Ok pf ∧
              MeanSamplesPerPassingSTR loclog
              = VFloat (tf * 1 / pf)%float).
Proof.
  intros Hrun. apply WriteLocLog_inv in Hrun as (-> & Hmean).
  split; [|split; [apply NoDup_fst_map_to_list|done]].
  intros k v. rewrite elem_of_map_to_list, lookup_delete_Some.
  split; intros [? ?]; by split.
Qed.

Lemma samp_row_inv (reasons : list string) (s : string)
    (info : gmap string num) (row : SampRow) :
  samp_row reasons s info = Ok row →
  row_sample row = s ∧
  info !! "numcalls" = Some (row_numcalls row) ∧
  Forall2 (λ r c, info !! r = Some c) reasons (row_reasons row) ∧
  (num_pos (row_numcalls row) = false → row_meanDP row = VInt 0) ∧
  (num_pos (row_numcalls row) = true →
   ∃ t tf q, info !! "totaldp" = Some t ∧
             mul t (PFloat 1) = Ok (PFloat tf) ∧
             fdiv tf (row_numcalls row) = Ok q ∧
             row_meanDP row = VFloat q).
Proof.
  unfold samp_row. intros Hrun.
  apply bind_Ok in Hrun as (numcalls & Hn & Hrun).
  apply bind_Ok in Hrun as (meancov & Hmean & Hrun).
  apply bind_Ok in Hrun as (counts & Hcounts & Hrun). injection Hrun as <-.
  simpl. apply dict_get_Ok in Hn. split; [done|]. split; [done|]. split.
  - apply mapM_Forall2 in Hcounts. eapply Forall2_impl; [exact Hcounts|].
    intros r c. apply dict_get_Ok.
  - destruct (num_pos numcalls).
    + split; [done|]. intros _.
      apply bind_Ok in Hmean as (t & Ht & Hmean).
      apply bind_Ok in Hmean as (prod & Hprod & Hmean).
      destruct prod as [z|tf]; [done|].
      apply bind_Ok in Hmean as (q & Hq & Hmean). injection Hmean as <-.
      apply dict_get_Ok in Ht. by exists t, tf, q.
    + split; [|done]. intros _. by injection Hmean as <-.
Qed.

(** X22. The sample log has exactly one row per sample of the statistics.
    The row of a sample holds its numcalls, one count per reason of the
    header line, in that order, and its mean depth: the integer 0 when the
    sample has no completed call, so that nothing is divided by zero, and
    the quotient of the depth sum, as a float, and numcalls otherwise. *)
Theorem WriteSampLog_rows (sample_info : gmap string (gmap string num))
    (reasons : list string) (rows : list SampRow) :
  WriteSampLog sample_info reasons = Ok rows →
  NoDup (row_sample <$> rows) ∧
  (∀ s, s ∈ row_sample <$> rows ↔ is_Some (sample_info !! s)) ∧
  ∀ row, row ∈ rows →
    ∃ info,
      sample_info !! row_sample row = Some info ∧
      info !! "numcalls" = Some (row_numcalls row) ∧
      Forall2 (λ r c, info !! r = Some c) reasons (row_reasons row) ∧
      (num_pos (row_numcalls row) = false → row_meanDP row = VInt 0) ∧
      (num_pos (row_numcalls row) = true →
       ∃ t tf q, info !! "totaldp" = Some t ∧
                 mul t (PFloat 1) = Ok (PFloat tf) ∧
                 fdiv tf (row_numcalls row) = Ok q ∧
                 row_meanDP row = VFloat q).
Proof.
  unfold WriteSampLog. intros Hrun. apply mapM_Forall2 in Hrun.
  assert (Hnames : row_sample <$> rows = (map_to_list sample_info).*1).
  { symmetry. apply (Forall2_fmap_eq fst row_sample).
    eapply Forall2_impl; [exact Hrun|]. intros [s info] row Hrow. simpl.
    by apply samp_row_inv in Hrow as (-> & _). }
  split; [|split].
  - rewrite Hnames. apply NoDup_fst_map_to_list.
  - intros s. rewrite Hnames, list_elem_of_fmap. split.
    + intros ([s' info] & -> & Hin). apply elem_of_map_to_list in Hin.
      simpl. by rewrite Hin.
    + intros [info Hinfo]. exists (s, info). split; [done|].
      by apply elem_of_map_to_list.
  - intros row Hin.
    apply list_elem_of_lookup in Hin as [i Hi].
    destruct (Forall2_lookup_r _ _ _ _ _ Hrun Hi)
      as ([s info] & Hsrc & Hrow). simpl in Hrow.
    apply list_elem_of_lookup_2, elem_of_map_to_list in Hsrc.
    apply samp_row_inv in Hrow as (Hs & Hrest).
    exists info. rewrite Hs. by split.
Qed.

(** ** The whole run *)

Lemma reader_samples_with_FILTER (invcf : Reader) :
  reader_samples (with_FILTER_format invcf) = reader_samples invcf.
Proof. unfold with_FILTER_format. by destruct (declared invcf "FILTER"). Qed.

Lemma processed_from_0 args (records : list VcfRecord) :
  processed_from 0 args records = processed args records.
Proof.
  unfold processed, processed_from. destruct (num_records args);
    by rewrite ?Z.sub_0_r.
Qed.

Lemma Forall2_elem_of_impl {A B} (P Q : A → B → Prop) (l : list A)
    (k : list B) :
  Forall2 P l k → (∀ x y, x ∈ l → P x y → Q x y) → Forall2 Q l k.
Proof.
  induction 1 as [|x y l k Hxy _ IH]; intros Himp; constructor.
  - apply Himp; [by left|done].
  - apply IH. intros a b Hin. apply Himp. by right.
Qed.

Section WholeRun.

Context `{Externals}.

Lemma main_inv args invcf records out samplog loclog :
  main args invcf records = Ok (out, samplog, loclog) →
  ∃ filter_list st,
    CheckFilters invcf args = Ok tt ∧
    BuildLocusFilters args = Ok filter_list ∧
    records_loop args (with_FILTER_format invcf) filter_list
      (BuildCallFilters args) 0 records
      (mkState (init_sample_info (reader_samples invcf) GetAllCallFilters)
         (init_loc_info filter_list) []) = Ok st ∧
    out = outvcf st ∧
    WriteSampLog (sample_info st) GetAllCallFilters = Ok samplog ∧
    WriteLocLog (loc_info st) = Ok loclog.
Proof.
  unfold main. intros Hrun.
  apply bind_Ok in Hrun as ([] & Hcheck & Hrun).
  apply bind_Ok in Hrun as (filter_list & Hbuild & Hrun).
  apply bind_Ok in Hrun as (st & Hloop & Hrun).
  apply bind_Ok in Hrun as (rows & Hrows & Hrun).
  apply bind_Ok in Hrun as (log & Hlog & Hrun).
  injection Hrun as <- <- <-.
  rewrite reader_samples_with_FILTER in Hloop.
  by exists filter_list, st.
Qed.

(** X23. A run stops with a configuration error before it reads any record
    when the call-level options are not valid, or when names are given for
    the region files and the two comma-separated lists differ in length: the
    outcome is the exit whatever the records are. *)
Theorem main_stops_on_invalid_options (args : Args) (invcf : Reader) :
  ¬ valid_call_options invcf args ∨
  (∃ regions names,
     filter_regions args = Some regions ∧
     filter_regions_names args = Some names ∧
     length (split "," names) ≠ length (split "," regions)) →
  ∀ records, main args invcf records = Raise SystemExit.
Proof.
  intros Hbad records. unfold main.
  destruct (CheckFilters_cases invcf args) as [Hok|Hexit];
    [|by rewrite Hexit].
  rewrite Hok. simpl.
  destruct Hbad as [Hbad|(regions & names & Hr & Hn & Hlen)].
  { exfalso. by apply Hbad, CheckFilters_valid. }
  unfold BuildLocusFilters.
  pose proof (region_filters_outcome args) as Hout.
  destruct (region_filters args) as [l|e]; simpl.
  - exfalso. destruct Hout as (_ & Hnames & _). apply Hlen.
    rewrite (Hnames names); [|by rewrite Hr|done].
    unfold region_files. by rewrite Hr.
  - by destruct Hout as [-> _].
Qed.

(** X24. When filtered loci are not dropped, the locus log of a run has,
    for every registered filter name other than PASS and totalcalls, a line
    with the number of failures under that name over the processed loci, and,
    when no filter is named PASS, a line PASS with the number of loci at
    which no filter failed. *)
Theorem locus_log_of_a_run (args : Args) (invcf : Reader)
    (records out : list VcfRecord) (samplog : list SampRow)
    (loclog : LocLog) :
  main args invcf records = Ok (out, samplog, loclog) →
  drop_filtered args = false →
  ∃ filter_list views,
    BuildLocusFilters args = Ok filter_list ∧
    Forall2 (λ record view, ∃ si si',
               ApplyCallFilters record (with_FILTER_format invcf)
                 (BuildCallFilters args) si = Ok (view, si'))
      (processed args records) views ∧
    (∀ name, name ∈ filter_name <$> filter_list →
             name ≠ "PASS" → name ≠ "totalcalls" →
             (name, failures filter_list name views)
             ∈ filter_lines loclog) ∧
    ("PASS" ∉ filter_name <$> filter_list →
     ("PASS", passing_loci filter_list views) ∈ filter_lines loclog).
Proof.
  intros Hrun Hdrop.
  apply main_inv in Hrun
    as (filter_list & st & _ & Hbuild & Hloop & _ & _ & Hlog).
  apply (records_loop_counters _ _ _ _ _ Hdrop) in Hloop
    as (views & Hviews & Hk & _ & Hp); [|apply init_loc_info_counters].
  rewrite processed_from_0 in Hviews. simpl in Hk, Hp.
  apply WriteLocLog_inv in Hlog as (Hlines & _).
  exists filter_list, views. split; [done|]. split; [done|].
  rewrite Hlines. split.
  - intros name Hin Hn1 Hn2.
    apply elem_of_map_to_list. rewrite lookup_delete_ne by done.
    rewrite (Hk name 0%Z) by (done || apply init_loc_info_name; tauto).
    done.
  - intros Hnot. apply elem_of_map_to_list.
    rewrite lookup_delete_ne by done.
    rewrite (Hp 0%Z) by (done || apply init_loc_info_name; tauto). done.
Qed.

(** X25. When filtered loci are not dropped and no filter is named PASS or
    totalcalls, the mean that heads the locus log of a run is the number of
    completed calls at the loci at which no filter failed, divided by the
    number of these loci, both as floats; it is the integer 0 when there is
    no such locus. *)
Theorem locus_log_mean_of_a_run (args : Args) (invcf : Reader)
    (records out : list VcfRecord) (samplog : list SampRow)
    (loclog : LocLog) :
  main args invcf records = Ok (out, samplog, loclog) →
  drop_filtered args = false →
  ∃ filter_list views,
    BuildLocusFilters args = Ok filter_list ∧
    Forall2 (λ record view, ∃ si si',
               ApplyCallFilters record (with_FILTER_format invcf)
                 (BuildCallFilters args) si = Ok (view, si'))
      (processed args records) views ∧
    ("PASS" ∉ filter_name <$> filter_list →
     "totalcalls" ∉ filter_name <$> filter_list →
     (passing_loci filter_list views = 0%Z →
      MeanSamplesPerPassingSTR loclog = VInt 0) ∧
     (passing_loci filter_list views ≠ 0%Z →
      ∃ tf pf,
        float_of_int (passing_calls filter_list views) = Ok tf ∧
        float_of_int (passing_loci filter_list views) = Ok pf ∧
        MeanSamplesPerPassingSTR loclog = VFloat (tf * 1 / pf)%float)).
Proof.
  intros Hrun Hdrop.
  apply main_inv in Hrun
    as (filter_list & st & _ & Hbuild & Hloop & _ & _ & Hlog).
  apply (records_loop_counters _ _ _ _ _ Hdrop) in Hloop
    as (views & Hviews & _ & Ht & Hp); [|apply init_loc_info_counters].
  rewrite processed_from_0 in Hviews. simpl in Ht, Hp.
  apply WriteLocLog_inv in Hlog as (_ & p & t & Hp' & Ht' & Hzero & Hmean).
  exists filter_list, views. split; [done|]. split; [done|].
  intros Hnp Hnt.
  rewrite (Hp 0%Z) in Hp' by (done || apply init_loc_info_name; tauto).
  rewrite (Ht 0%Z) in Ht' by (done || apply init_loc_info_name; tauto).
  injection Hp' as <-. injection Ht' as <-. simpl in *. done.
Qed.

(** X26. In drop mode every line of the locus log of a run reports 0, for
    PASS and for every filter name, whatever loci were dropped. *)
Theorem drop_mode_locus_log (args : Args) (invcf : Reader)
    (records out : list VcfRecord) (samplog : list SampRow)
    (loclog : LocLog) :
  main args invcf records = Ok (out, samplog, loclog) →
  drop_filtered args = true →
  ∃ filter_list,
    BuildLocusFilters args = Ok filter_list ∧
    ∀ name, name = "PASS" ∨ name ∈ filter_name <$> filter_list →
            name ≠ "totalcalls" → (name, 0%Z) ∈ filter_lines loclog.
Proof.
  intros Hrun Hdrop.
  apply main_inv in Hrun
    as (filter_list & st & _ & Hbuild & Hloop & _ & _ & Hlog).
  apply (records_loop_drop_loc_info _ _ _ _ _ _ _ _ Hdrop) in Hloop.
  simpl in Hloop.
  apply WriteLocLog_inv in Hlog as (Hlines & _).
  exists filter_list. split; [done|]. intros name Hname Hne.
  rewrite Hlines, Hloop. apply elem_of_map_to_list.
  rewrite lookup_delete_ne by done. apply init_loc_info_name. tauto.
Qed.

(** X27. The sample log of a run has a row for every sample of the header:
    its numcalls is the number of calls of the sample, over the processed
    records, that have a genotype and pass every call filter, and its count
    for a reason is the number of its calls on which a filter with that
    reason fired, provided the registered call filters have pairwise
    distinct reasons, none of them named numcalls or totaldp. *)
Theorem sample_log_of_a_run (args : Args) (invcf : Reader)
    (records out : list VcfRecord) (samplog : list SampRow)
    (loclog : LocLog) (s : string) :
  main args invcf records = Ok (out, samplog, loclog) →
  NoDup (GetReason <$> BuildCallFilters args) →
  "numcalls" ∉ GetReason <$> BuildCallFilters args →
  "totaldp" ∉ GetReason <$> BuildCallFilters args →
  s ∈ reader_samples invcf →
  ∃ row,
    row ∈ samplog ∧ row_sample row = s ∧
    row_numcalls row
    = PInt (Z.of_nat (length (calls_of s (completed (BuildCallFilters args))
                                (processed args records ≫= samples)))) ∧
    Forall2 (λ r c, r ≠ "numcalls" → r ≠ "totaldp" →
                    c = PInt (Z.of_nat
                                (length (calls_of s
                                           (fired (BuildCallFilters args) r)
                                           (processed args records
                                            ≫= samples)))))
      GetAllCallFilters (row_reasons row).
Proof.
  intros Hrun Hnd Hnc Htd Hs.
  apply main_inv in Hrun
    as (filter_list & st & _ & _ & Hloop & _ & Hlog & _).
  pose proof (init_sample_info_entry _ GetAllCallFilters _ Hs) as Hinit.
  assert (Hkey : ∀ key, key ≠ "totaldp" →
            is_Some (init_info GetAllCallFilters !! key) →
            ∃ info',
              sample_info st !! s = Some info' ∧
              info' !! key
              = Some (PInt (0 + contributions (BuildCallFilters args) key s
                                  (processed args records ≫= samples)))).
  { intros key Hne [v Hv]. rewrite <- processed_from_0.
    eapply records_loop_counter; try done.
    rewrite Hv. rewrite init_info_lookup in Hv. case_decide; congruence. }
  destruct (Hkey "numcalls") as (info' & Hinfo' & Hnum); [done|..].
  { rewrite init_info_lookup, decide_True by tauto. by eexists. }
  unfold WriteSampLog in Hlog. apply mapM_Forall2 in Hlog.
  pose proof Hinfo' as Hi.
  apply elem_of_map_to_list, list_elem_of_lookup in Hi as [i Hi].
  destruct (Forall2_lookup_l _ _ _ _ _ Hlog Hi) as (row & Hrow & Hmk).
  simpl in Hmk.
  apply samp_row_inv in Hmk as (Hname & Hn & Hcounts & _).
  exists row. split; [by eapply list_elem_of_lookup_2|]. split; [done|].
  split.
  - rewrite Hnum in Hn. injection Hn as <-.
    by rewrite contributions_numcalls, Z.add_0_l.
  - eapply Forall2_elem_of_impl; [exact Hcounts|]. simpl.
    intros r c Hin Hc Hr1 Hr2.
    destruct (Hkey r Hr2) as (info2 & Hinfo2 & Hval).
    { rewrite init_info_lookup, decide_True by tauto. by eexists. }
    rewrite Hinfo' in Hinfo2. injection Hinfo2 as <-.
    rewrite Hval in Hc. injection Hc as <-.
    by rewrite contributions_reason, Z.add_0_l.
Qed.

End WholeRun.

Section WholeRunDepth.

Context `{Externals}.

(** X28. The mean depth in the row of a sample in the sample log of a run
    is the sum of the depths of its completed calls divided by their number,
    both as floats, and the integer 0 when the sample has no completed call,
    provided these depths are integers and the registered call filters have
    pairwise distinct reasons, none of them named numcalls or totaldp. *)
Theorem sample_log_mean_depth (args : Args) (invcf : Reader)
    (records out : list VcfRecord) (samplog : list SampRow)
    (loclog : LocLog) (s : string) :
  main args invcf records = Ok (out, samplog, loclog) →
  NoDup (GetReason <$> BuildCallFilters args) →
  "numcalls" ∉ GetReason <$> BuildCallFilters args →
  "totaldp" ∉ GetReason <$> BuildCallFilters args →
  integer_depths (BuildCallFilters args) s
    (processed args records ≫= samples) →
  s ∈ reader_samples invcf →
  let calls :=
    calls_of s (completed (BuildCallFilters args))
      (processed args records ≫= samples) in
  ∃ row,
    row ∈ samplog ∧ row_sample row = s ∧
    (calls = [] → row_meanDP row = VInt 0) ∧
    (calls ≠ [] →
     ∃ tf nf,
       float_of_int (total_depth calls) = Ok tf ∧
       float_of_int (Z.of_nat (length calls)) = Ok nf ∧
       row_meanDP row = VFloat (tf * 1 / nf)%float).
Proof.
  intros Hrun Hnd Hnc Htd Hdp Hs calls.
  apply main_inv in Hrun
    as (filter_list & st & _ & _ & Hloop & _ & Hlog & _).
  pose proof (init_sample_info_entry _ GetAllCallFilters _ Hs) as Hinit.
  assert (Hkey : ∀ key, key = "numcalls" ∨ key = "totaldp" →
            ∃ info',
              sample_info st !! s = Some info' ∧
              info' !! key
              = Some (PInt (0 + contributions (BuildCallFilters args) key s
                                  (processed args records ≫= samples)))).
  { intros key Hk. rewrite <- processed_from_0.
    eapply records_loop_counter; try done.
    - intros _. by rewrite processed_from_0.
    - rewrite init_info_lookup, decide_True by tauto. done. }
  destruct (Hkey "numcalls") as (info' & Hinfo' & Hnum); [by left|].
  destruct (Hkey "totaldp") as (info2 & Hinfo2 & Htot); [by right|].
  rewrite Hinfo' in Hinfo2. injection Hinfo2 as <-.
  rewrite contributions_numcalls, Z.add_0_l in Hnum.
  rewrite contributions_totaldp, Z.add_0_l in Htot.
  fold calls in Hnum, Htot.
  unfold WriteSampLog in Hlog. apply mapM_Forall2 in Hlog.
  pose proof Hinfo' as Hi.
  apply elem_of_map_to_list, list_elem_of_lookup in Hi as [i Hi].
  destruct (Forall2_lookup_l _ _ _ _ _ Hlog Hi) as (row & Hrow & Hmk).
  simpl in Hmk.
  apply samp_row_inv in Hmk as (Hname & Hn & _ & Hzero & Hmean).
  rewrite Hnum in Hn. injection Hn as Hn.
  exists row. split; [by eapply list_elem_of_lookup_2|]. split; [done|].
  rewrite <- Hn in Hzero, Hmean. simpl in Hzero, Hmean. split.
  - intros Hnil. apply Hzero. by rewrite Hnil.
  - intros Hne.
    destruct Hmean as (t & tf & q & Ht & Hmul & Hdiv & Hrowmean).
    { apply Z.ltb_lt. destruct calls; [done|]. simpl. lia. }
    rewrite Htot in Ht. injection Ht as <-.
    unfold mul, arith in Hmul.
    apply bind_Ok in Hmul as (f & Hf & Hmul). injection Hmul as <-.
    unfold fdiv in Hdiv. apply bind_Ok in Hdiv as (nf & Hnf & Hdiv).
    injection Hdiv as <-. by exists f, nf.
Qed.

End WholeRunDepth.

(** ** Witnesses of the further properties *)

Section FurtherWitnesses.

Import Examples.

#[local] Existing Instance Demo.ext.

Lemma BuildCallFilters_distinct_reasons_witness :
  length (BuildCallFilters args_call_options) = 5%nat ∧
  NoDup (GetReason <$> BuildCallFilters args_call_options).
Proof.
  apply (BuildCallFilters_distinct_reasons args_call_options).
  intros a b c d e. apply (bool_decide_unpack _). by vm_compute.
Defined.

Lemma BuildLocusFilters_always_hrun_witness :
  Filter_LocusHrun ∈ filters_two_names.
Proof.
  apply (proj2 (BuildLocusFilters_always_hrun args_two_names)).
  by_evaluation.
Defined.


Lemma ApplyCallFilters_rewrites_calls_only_witness :
  let invcf := with_FILTER_format hdr in
  let cfs := BuildCallFilters args_min_DP in
  let out := call_stage invcf cfs (state0 hdr filters_default) locus_5_20 in
  sample <$> samples out.1 = sample <$> samples locus_5_20.
Proof.
  intros invcf cfs out.
  apply (ApplyCallFilters_rewrites_calls_only locus_5_20 invcf cfs
           (sample_info (state0 hdr filters_default)) out.2 out.1).
  by_outcome.
Defined.

Lemma ApplyCallFilters_status_witness :
  let invcf := with_FILTER_format hdr in
  let cfs := BuildCallFilters args_min_DP in
  let out := call_stage invcf cfs (state0 hdr filters_default) locus_5_20 in
  Forall2 (λ smp c, call_get c "FILTER" = Ok (VStr (status_of cfs smp)))
    (samples locus_5_20) (samples out.1).
Proof.
  intros invcf cfs out.
  apply (ApplyCallFilters_status locus_5_20 invcf cfs
           (sample_info (state0 hdr filters_default)) out.2 out.1).
  - by_outcome.
  - apply (bool_decide_unpack _). by vm_compute.
Defined.

Lemma sample_counters_after_run_witness :
  let invcf := with_FILTER_format hdr in
  let cfs := BuildCallFilters args_min_DP in
  let records := [locus_5_20; locus_in_regions] in
  let st' := loop_run no_args invcf filters_default cfs records in
  ∃ info',
    sample_info st' !! "s2" = Some info' ∧
    info' !! "numcalls"
    = Some (PInt (0 + Z.of_nat
                        (length (calls_of "s2" (completed cfs)
                                   (processed no_args records ≫= samples))))).
Proof.
  intros invcf cfs records st'.
  destruct (sample_counters_after_run no_args invcf filters_default cfs
              records (state0 invcf filters_default) st' "s2" info0)
    as [Hnum _].
  - apply (bool_decide_unpack _). by vm_compute.
  - apply (bool_decide_unpack _). by vm_compute.
  - apply (bool_decide_unpack _). by vm_compute.
  - by_outcome.
  - by_evaluation.
  - apply (Hnum 0%Z). by_evaluation.
Defined.

Lemma sample_depth_after_run_witness :
  let invcf := with_FILTER_format hdr in
  let cfs := BuildCallFilters args_min_DP in
  let records := [locus_5_20; locus_in_regions] in
  let st' := loop_run no_args invcf filters_default cfs records in
  ∃ info',
    sample_info st' !! "s2" = Some info' ∧
    info' !! "totaldp"
    = Some (PInt (0 + total_depth
                        (calls_of "s2" (completed cfs)
                           (processed no_args records ≫= samples)))).
Proof.
  intros invcf cfs records st'.
  apply (sample_depth_after_run no_args invcf filters_default cfs records
           (state0 invcf filters_default) st' "s2" info0 0).
  - apply (bool_decide_unpack _). by vm_compute.
  - apply (bool_decide_unpack _). by vm_compute.
  - apply (bool_decide_unpack _). by vm_compute.
  - unfold integer_depths.
    repeat (apply Forall_cons; split; [intros _ _; eexists; reflexivity|]).
    apply Forall_nil_2.
  - by_outcome.
  - by_evaluation.
  - by_evaluation.
Defined.

Lemma ApplyCallFilters_undeclared_attribute_witness :
  ApplyCallFilters (set_samples locus_NFILTER []) hdr [] ∅ = Raise KeyError.
Proof.
  apply (ApplyCallFilters_undeclared_attribute locus_NFILTER hdr "NFILTER").
  - apply (bool_decide_unpack _). by vm_compute.
  - done.
  - by_evaluation.
Defined.

Lemma ApplyCallFilters_needs_depth_witness :
  ∃ e, ApplyCallFilters locus_no_depth (with_FILTER_format hdr_GT) [] si0
       = Raise e.
Proof.
  apply (ApplyCallFilters_needs_depth locus_no_depth
           (with_FILTER_format hdr_GT) [] si0
           (mkCall "s1" [("GT", VStr "0/1")])).
  - by left.
  - by_evaluation.
  - by_evaluation.
Defined.

Lemma ApplyCallFilters_total_witness :
  ∃ view si',
    ApplyCallFilters locus_5_20 (with_FILTER_format hdr)
      (BuildCallFilters args_min_DP) si0 = Ok (view, si').
Proof.
  destruct (ApplyCallFilters_total locus_5_20 (with_FILTER_format hdr)
              (BuildCallFilters args_min_DP) si0)
    as (view & si' & Hrun & _).
  - unfold schema_declared. apply Forall_forall.
    apply (bool_decide_unpack _). by vm_compute.
  - repeat (apply Forall_cons; split;
            [split; [by eexists|];
             intros key Hin _; revert key Hin; apply Forall_forall;
             repeat (apply Forall_cons; split; [by eexists|]);
             apply Forall_nil_2|]).
    apply Forall_nil_2.
  - intros s. unfold integer_depths.
    repeat (apply Forall_cons; split; [intros _ _; eexists; reflexivity|]).
    apply Forall_nil_2.
  - intros smp Hin. revert smp Hin. apply Forall_forall.
    apply (bool_decide_unpack _). by vm_compute.
  - apply init_sample_info_ready. apply Forall_forall.
    apply (bool_decide_unpack _). by vm_compute.
  - by exists view, si'.
Defined.

Lemma filtered_call_reasons_round_trip_witness :
  let invcf := with_FILTER_format hdr in
  let cfs := BuildCallFilters args_min_DP in
  let out := call_stage invcf cfs (state0 hdr filters_default) locus_5_20 in
  Forall2 (λ smp c,
             missing smp = false → firing smp cfs ≠ [] →
             ∃ status,
               call_get c "FILTER" = Ok (VStr status) ∧
               split "," status = GetReason <$> firing smp cfs)
    (samples locus_5_20) (samples out.1).
Proof.
  intros invcf cfs out.
  apply (filtered_call_reasons_round_trip locus_5_20 invcf cfs
           (sample_info (state0 hdr filters_default)) out.2 out.1).
  - by_outcome.
  - apply (bool_decide_unpack _). by vm_compute.
  - repeat (apply Forall_cons; split; [reflexivity|]). apply Forall_nil_2.
Defined.


Lemma written_record_frame_witness :
  let invcf := with_FILTER_format hdr in
  let st := state0 hdr filters_default in
  let st' := record_stage no_args invcf filters_default [] st
               locus_with_INFO in
  (drop_filtered no_args = true ∧ outvcf st' = outvcf st) ∨
  ∃ w,
    outvcf st' = outvcf st ++ [w] ∧
    same_locus locus_with_INFO w ∧
    sample <$> samples w = sample <$> samples locus_with_INFO ∧
    INFO w !! "HRUN" = Some (GetHomopolymerRun (REF locus_with_INFO)) ∧
    (∀ k, k ∈ recalculated → is_Some (INFO w !! k)) ∧
    (∀ k, k ∉ recalculated → INFO w !! k = INFO locus_with_INFO !! k).
Proof.
  intros invcf st st'.
  apply (written_record_frame no_args invcf filters_default [] st st'
           locus_with_INFO).
  by_outcome.
Defined.

Lemma output_follows_input_order_witness :
  let invcf := with_FILTER_format hdr in
  let records := [locus_half_called; locus_5_20] in
  let st' := loop_run args_drop_callrate invcf filters_callrate [] records in
  ∃ kept ws,
    outvcf st' = outvcf (state0 invcf filters_callrate) ++ ws ∧
    kept `sublist_of` processed args_drop_callrate records ∧
    Forall2 same_locus kept ws ∧
    (drop_filtered args_drop_callrate = false →
     kept = processed args_drop_callrate records).
Proof.
  intros invcf records st'.
  apply (output_follows_input_order args_drop_callrate invcf
           filters_callrate [] records (state0 invcf filters_callrate) st').
  by_outcome.
Defined.

Lemma drop_mode_output_witness :
  let invcf := with_FILTER_format hdr in
  let records := [locus_half_called; locus_5_20] in
  let st' := loop_run args_drop_callrate invcf filters_callrate [] records in
  ∃ views ws,
    Forall2 (λ record view, ∃ si si',
               ApplyCallFilters record invcf [] si = Ok (view, si'))
      (processed args_drop_callrate records) views ∧
    outvcf st' = outvcf (state0 invcf filters_callrate) ++ ws ∧
    Forall2 (λ view w,
               recalculate_INFO args_drop_callrate (set_FILTER view VNone)
               = Ok w ∧ FILTER w = VNone)
      (filter (λ v, passes_all filters_callrate v = true) views) ws.
Proof.
  intros invcf records st'.
  apply (drop_mode_output args_drop_callrate invcf filters_callrate []
           records (state0 invcf filters_callrate) st').
  - reflexivity.
  - by_outcome.
Defined.

Lemma fail_counters_after_run_witness :
  let invcf := with_FILTER_format hdr in
  let records := [locus_5_20; locus_in_regions] in
  let st := state0 invcf filters_two_names in
  let st' := loop_run no_args invcf filters_two_names [] records in
  ∃ views,
    Forall2 (λ record view, ∃ si si',
               ApplyCallFilters record invcf [] si = Ok (view, si'))
      (processed no_args records) views ∧
    ∀ k n, k ≠ "PASS" → k ≠ "totalcalls" → loc_info st !! k = Some n →
           loc_info st' !! k
           = Some (n + failures filters_two_names k views)%Z.
Proof.
  intros invcf records st st'.
  apply (fail_counters_after_run no_args invcf filters_two_names []
           records st st').
  - reflexivity.
  - apply init_loc_info_counters.
  - by_outcome.
Defined.

Lemma totalcalls_after_run_witness :
  let invcf := with_FILTER_format hdr in
  let records := [locus_5_20; locus_in_regions] in
  let st' := loop_run no_args invcf filters_two_names [] records in
  ∃ views,
    Forall2 (λ record view, ∃ si si',
               ApplyCallFilters record invcf [] si = Ok (view, si'))
      (processed no_args records) views ∧
    loc_info st' !! "totalcalls"
    = Some (0 + passing_calls filters_two_names views)%Z.
Proof.
  intros invcf records st'.
  apply (totalcalls_after_run no_args invcf filters_two_names [] records
           (state0 invcf filters_two_names) st' 0).
  - reflexivity.
  - apply (bool_decide_unpack _). by vm_compute.
  - apply init_loc_info_counters.
  - by_evaluation.
  - by_outcome.
Defined.

Lemma WriteLocLog_lines_witness :
  let li := <["PASS" := 2%Z]> (<["totalcalls" := 3%Z]>
              (<["HRUN" := 1%Z]> ∅)) in
  ("PASS", 2%Z) ∈ filter_lines (loc_log li) ∧
  NoDup (filter_lines (loc_log li)).*1.
Proof.
  intros li.
  destruct (WriteLocLog_lines li (loc_log li)) as (Hlines & Hnd & _).
  - by_outcome.
  - split; [|exact Hnd]. apply Hlines. split; [done|]. by_evaluation.
Defined.

Lemma WriteSampLog_rows_witness :
  NoDup (row_sample <$> samp_log si0 GetAllCallFilters).
Proof.
  apply (WriteSampLog_rows si0 GetAllCallFilters
           (samp_log si0 GetAllCallFilters)).
  by_outcome.
Defined.

Lemma main_stops_on_invalid_options_witness :
  main args_negative_depth hdr [locus_5_20] = Raise SystemExit.
Proof.
  apply (main_stops_on_invalid_options args_negative_depth hdr).
  left. intros (Hlo & _). destruct (Hlo (-1)%Z eq_refl) as [Hle _].
  by apply Hle.
Defined.

Lemma locus_log_of_a_run_witness :
  let records := [locus_5_20; locus_in_regions] in
  let run := whole_run args_two_names hdr records in
  ∃ filter_list views,
    BuildLocusFilters args_two_names = Ok filter_list ∧
    Forall2 (λ record view, ∃ si si',
               ApplyCallFilters record (with_FILTER_format hdr)
                 (BuildCallFilters args_two_names) si = Ok (view, si'))
      (processed args_two_names records) views ∧
    (∀ name, name ∈ filter_name <$> filter_list →
             name ≠ "PASS" → name ≠ "totalcalls" →
             (name, failures filter_list name views)
             ∈ filter_lines run.2) ∧
    ("PASS" ∉ filter_name <$> filter_list →
     ("PASS", passing_loci filter_list views) ∈ filter_lines run.2).
Proof.
  intros records run.
  apply (locus_log_of_a_run args_two_names hdr records run.1.1 run.1.2
           run.2).
  - by_outcome.
  - reflexivity.
Defined.

Lemma locus_log_mean_of_a_run_witness :
  let records := [locus_5_20; locus_in_regions] in
  let run := whole_run args_two_names hdr records in
  ∃ filter_list views,
    BuildLocusFilters args_two_names = Ok filter_list ∧
    Forall2 (λ record view, ∃ si si',
               ApplyCallFilters record (with_FILTER_format hdr)
                 (BuildCallFilters args_two_names) si = Ok (view, si'))
      (processed args_two_names records) views ∧
    ("PASS" ∉ filter_name <$> filter_list →
     "totalcalls" ∉ filter_name <$> filter_list →
     (passing_loci filter_list views = 0%Z →
      MeanSamplesPerPassingSTR run.2 = VInt 0) ∧
     (passing_loci filter_list views ≠ 0%Z →
      ∃ tf pf,
        float_of_int (passing_calls filter_list views) = Ok tf ∧
        float_of_int (passing_loci filter_list views) = Ok pf ∧
        MeanSamplesPerPassingSTR run.2 = VFloat (tf * 1 / pf)%float)).
Proof.
  intros records run.
  apply (locus_log_mean_of_a_run args_two_names hdr records run.1.1
           run.1.2 run.2).
  - by_outcome.
  - reflexivity.
Defined.

Lemma drop_mode_locus_log_witness :
  let records := [locus_half_called; locus_5_20] in
  let run := whole_run args_drop_callrate hdr records in
  ∃ filter_list,
    BuildLocusFilters args_drop_callrate = Ok filter_list ∧
    ∀ name, name = "PASS" ∨ name ∈ filter_name <$> filter_list →
            name ≠ "totalcalls" → (name, 0%Z) ∈ filter_lines run.2.
Proof.
  intros records run.
  apply (drop_mode_locus_log args_drop_callrate hdr records run.1.1
           run.1.2 run.2).
  - by_outcome.
  - reflexivity.
Defined.

Lemma sample_log_of_a_run_witness :
  let records := [locus_5_20; locus_in_regions] in
  let run := whole_run args_min_DP hdr records in
  let cfs := BuildCallFilters args_min_DP in
  ∃ row,
    row ∈ run.1.2 ∧ row_sample row = "s1" ∧
    row_numcalls row
    = PInt (Z.of_nat (length (calls_of "s1" (completed cfs)
                                (processed args_min_DP records
                                 ≫= samples)))) ∧
    Forall2 (λ r c, r ≠ "numcalls" → r ≠ "totaldp" →
                    c = PInt (Z.of_nat
                                (length (calls_of "s1" (fired cfs r)
                                           (processed args_min_DP records
                                            ≫= samples)))))
      GetAllCallFilters (row_reasons row).
Proof.
  intros records run cfs.
  apply (sample_log_of_a_run args_min_DP hdr records run.1.1 run.1.2 run.2
           "s1").
  - by_outcome.
  - apply (bool_decide_unpack _). by vm_compute.
  - apply (bool_decide_unpack _). by vm_compute.
  - apply (bool_decide_unpack _). by vm_compute.
  - by left.
Defined.

Lemma sample_log_mean_depth_witness :
  let records := [locus_5_20; locus_in_regions] in
  let run := whole_run args_min_DP hdr records in
  let calls :=
    calls_of "s2" (completed (BuildCallFilters args_min_DP))
      (processed args_min_DP records ≫= samples) in
  ∃ row,
    row ∈ run.1.2 ∧ row_sample row = "s2" ∧
    (calls = [] → row_meanDP row = VInt 0) ∧
    (calls ≠ [] →
     ∃ tf nf,
       float_of_int (total_depth calls) = Ok tf ∧
       float_of_int (Z.of_nat (length calls)) = Ok nf ∧
       row_meanDP row = VFloat (tf * 1 / nf)%float).
Proof.
  intros records run.
  apply (sample_log_mean_depth args_min_DP hdr records run.1.1 run.1.2
           run.2 "s2").
  - by_outcome.
  - apply (bool_decide_unpack _). by vm_compute.
  - apply (bool_decide_unpack _). by vm_compute.
  - apply (bool_decide_unpack _). by vm_compute.
  - unfold integer_depths.
    repeat (apply Forall_cons; split; [intros _ _; eexists; reflexivity|]).
    apply Forall_nil_2.
  - by right; left.
Defined.

Lemma zero_calls_allele_counts_witness :
  let invcf := with_FILTER_format hdr in
  let st := state0 hdr filters_default in
  let st' := record_stage no_args invcf filters_default [] st
               locus_no_calls in
  INFO (written locus_no_calls st') !! "AC" = Some (VList [VInt 0]) ∧
  INFO (written locus_no_calls st') !! "REFAC" = Some (VInt 0).
Proof.
  intros invcf st st'.
  pose (out := call_stage invcf [] st locus_no_calls).
  assert (Hrun : process_record no_args invcf filters_default [] st
                   locus_no_calls = Ok st') by by_outcome.
  apply (zero_calls_allele_counts no_args invcf filters_default [] st st'
           locus_no_calls out.1 (written locus_no_calls st') out.2).
  - by_outcome.
  - by vm_compute.
  - exact Hrun.
  - destruct (process_record_written _ _ _ _ _ _ _ Hrun)
      as (view & _ & [(Hdrop & _)|(w & Hout & _)]); [discriminate Hdrop|].
    by apply (written_last _ w).
Defined.

End FurtherWitnesses.
